(** * ECDSA signature <-> ASN.1 DER conversion (ecdsa_utils.c)

    A shallow embedding of [examples/ecdsa_utils/ecdsa_utils.c]: the
    functions of the file are written as computations over a byte-addressed
    memory that records every load and store, and the properties of the
    codec are proved about these computations.  The functions are given
    twice: with pointer arithmetic on the integers, and with the 32-bit
    pointer arithmetic of the targets.  The two agree on buffers that lie
    in the address space, and differ where a length reaches over its top. *)

From Stdlib Require Import ZArith NArith List Lia Bool.
From Stdlib Require Import Init.Byte Strings.Byte.
Import ListNotations.

Local Open Scope Z_scope.

(** ** Bytes and machine integers *)

(** [uint8_t] is [Byte.byte]; its value as an unsigned integer is [u8]. *)
Definition u8 (b : byte) : N := Byte.to_N b.

(** Conversion of an integer to [uint8_t]: reduction modulo 256. *)
Definition to_u8 (n : N) : byte :=
  match Byte.of_N (n mod 256) with
  | Some b => b
  | None => x00
  end.

(** [size_t] values are [N]; the width is the one of the 32-bit targets of
    the library.  Addition and subtraction wrap around.  (The proofs use of
    the width only that 258 is below [size_mod].) *)
Definition size_bits : N := 32.
Definition size_mod : N := 2 ^ size_bits.

Definition size_add (a b : N) : N := ((a + b) mod size_mod)%N.

Definition size_sub (a b : N) : N :=
  if (b <=? a)%N then (a - b)%N else (a + size_mod - b)%N.

(** [integer_length--] on a [uint8_t]. *)
Definition u8_dec (n : N) : N := ((n + 255) mod 256)%N.

(** ** Memory *)

(** Pointers are addresses.  In the five functions below pointer arithmetic
    is arithmetic on [Z]; the targets compute it modulo 2^32.  The functions
    with that arithmetic, and the buffers on which both give the same, are
    in the part on the address space ([in_space]). *)
Definition ptr := Z.
Definition NULL : ptr := 0.

Definition mem := ptr -> byte.

(** One entry per byte accessed. *)
Inductive event : Type :=
| Rd (a : ptr)
| Wr (a : ptr).

(** The log holds the accesses, the most recent first. *)
Record state : Type := mkState { st_mem : mem; st_log : list event }.

Definition upd (m : mem) (a : ptr) (b : byte) : mem :=
  fun x => if x =? a then b else m x.

(** The [n] addresses starting at [a]. *)
Fixpoint addrs (a : ptr) (n : nat) : list ptr :=
  match n with
  | O => []
  | S k => a :: addrs (a + 1) k
  end.

(** The [n] bytes stored at [a], [a+1], ... *)
Fixpoint bytes_at (m : mem) (a : ptr) (n : nat) : list byte :=
  match n with
  | O => []
  | S k => m a :: bytes_at m (a + 1) k
  end.

(** The memory after the bytes [l] have been stored from [a] on. *)
Fixpoint write_bytes (m : mem) (a : ptr) (l : list byte) : mem :=
  match l with
  | [] => m
  | b :: t => upd (write_bytes m (a + 1) t) a b
  end.

(** ** Computations *)

Definition M (A : Type) : Type := state -> A * state.

Definition ret {A : Type} (a : A) : M A := fun s => (a, s).

Definition bind {A B : Type} (c : M A) (f : A -> M B) : M B :=
  fun s => let '(a, s1) := c s in f a s1.

Notation "x <- c ;; k" := (bind c (fun x => k))
  (at level 61, c at next level, right associativity).
Notation "c ;;; k" := (bind c (fun _ => k))
  (at level 61, right associativity).
Notation "' pat <- c ;; k" := (bind c (fun x => match x with pat => k end))
  (at level 61, pat pattern, c at next level, right associativity).

(** Reading the byte at [p]. *)
Definition load (p : ptr) : M byte :=
  fun s => (st_mem s p, mkState (st_mem s) (Rd p :: st_log s)).

(** Writing [b] at [p]. *)
Definition store (p : ptr) (b : byte) : M unit :=
  fun s => (tt, mkState (upd (st_mem s) p b) (Wr p :: st_log s)).

(** [memcpy(dst, src, n)]: the [n] source bytes are read, then written.  C
    leaves the call undefined when the two regions overlap; the properties
    below that say what a buffer holds after a call are stated for buffers
    that do not overlap ([separate]). *)
Definition memcpy (dst src : ptr) (n : N) : M unit :=
  fun s =>
    let k := N.to_nat n in
    (tt, mkState (write_bytes (st_mem s) dst (bytes_at (st_mem s) src k))
                 (map Wr (addrs dst k) ++ map Rd (addrs src k) ++ st_log s)).

(** [memset(dst, b, n)] *)
Definition memset (dst : ptr) (b : byte) (n : N) : M unit :=
  fun s =>
    let k := N.to_nat n in
    (tt, mkState (write_bytes (st_mem s) dst (repeat b k))
                 (map Wr (addrs dst k) ++ st_log s)).

(** ** The constants of the file *)

Definition DER_INTEGER_MAX_LEN : N := 0x7F.
Definition ASN1_DER_TAG_OFFSET : Z := 0.
Definition ASN1_DER_LEN_OFFSET : Z := 1.
Definition ASN1_DER_VAL_OFFSET : Z := 2.
Definition DER_TAG_INTEGER : N := 0x02.
Definition DER_UINT_MASK : N := 0x80.

(** ** [encode_der_integer] *)

(** The loop that searches the beginning of the integer:
    a [for] over [cur_data], while [cur_data < data_end - 1], that breaks at
    the first byte that is not 0.
    It runs at most [data_len - 1] times, which bounds [fuel]. *)
Fixpoint skip_leading_zeros (fuel : nat) (cur_data data_end : ptr) : M ptr :=
  match fuel with
  | O => ret cur_data
  | S fuel' =>
      if cur_data <? data_end - 1 then
        b <- load cur_data ;;
        if negb (u8 b =? 0)%N then ret cur_data
        else skip_leading_zeros fuel' (cur_data + 1) data_end
      else ret cur_data
  end.

Definition encode_der_integer (data : ptr) (data_len : N)
    (out_buf : ptr) (out_buf_len : N) : M N :=
  (* all write access must be smaller or equal to this pointer *)
  let out_end := out_buf + Z.of_N out_buf_len - 1 in
  (* fixed position fields *)
  let tag_field := out_buf + ASN1_DER_TAG_OFFSET in
  let length_field := out_buf + ASN1_DER_LEN_OFFSET in
  let integer_field_start := out_buf + ASN1_DER_VAL_OFFSET in
  let data_end := data + Z.of_N data_len in
  (* check if something to encode *)
  if (data_len =? 0)%N then ret 0%N else
  (* don't check the last byte, it will always be a data byte *)
  cur_data <- skip_leading_zeros (N.to_nat data_len) data data_end ;;
  (* check if stuffing byte needed *)
  b <- load cur_data ;;
  let integer_field_cur :=
    if negb (N.land (u8 b) DER_UINT_MASK =? 0)%N
    then integer_field_start + 1 else integer_field_start in
  (* calculate number of bytes left in data *)
  let write_length := Z.to_N (data_end - cur_data) in
  (* check if it fits in the output buffer *)
  if integer_field_cur + Z.of_N write_length - 1 >? out_end then ret 0%N else
  (* ensure we can encode the length *)
  let integer_len :=
    Z.to_N (integer_field_cur + Z.of_N write_length - integer_field_start) in
  if (DER_INTEGER_MAX_LEN <? integer_len)%N then ret 0%N else
  (* commit writes *)
  memcpy integer_field_cur cur_data write_length ;;;
  store tag_field (to_u8 DER_TAG_INTEGER) ;;;
  store length_field (to_u8 integer_len) ;;;
  (if negb (integer_field_cur =? integer_field_start)
   then store integer_field_start (to_u8 0)
   else ret tt) ;;;
  ret (size_add integer_len (Z.to_N ASN1_DER_VAL_OFFSET)).

(** ** [ecdsa_rs_to_asn1] *)

(** [asn_sig_len] points to a [size_t] cell: [None] is the null pointer,
    [Some n] a cell holding [n].  The result carries the cell after the
    call. *)
Definition ecdsa_rs_to_asn1 (r s : ptr) (rs_len : N)
    (asn_sig : ptr) (asn_sig_len : option N) : M (bool * option N) :=
  match asn_sig_len with
  | None => ret (false, asn_sig_len)
  | Some cap =>
      if (r =? NULL) || (s =? NULL) || (asn_sig =? NULL)
      then ret (false, asn_sig_len) else
      (* encode R component *)
      out_len_r <- encode_der_integer r rs_len asn_sig cap ;;
      if (out_len_r =? 0)%N then ret (false, asn_sig_len) else
      let s_start := asn_sig + Z.of_N out_len_r in
      let s_len := size_sub cap out_len_r in
      (* encode S component *)
      out_len_s <- encode_der_integer s rs_len s_start s_len ;;
      if (out_len_s =? 0)%N then ret (false, asn_sig_len) else
      ret (true, Some (size_add out_len_r out_len_s))
  end.

(** ** [decode_asn1_uint] *)

(** [out_int_len] points to a cell the caller owns; the computation takes
    its content and returns, next to the function's result, its content
    after the call. *)
Definition decode_asn1_uint (asn1 : ptr) (asn1_len : N)
    (out_int : ptr) (out_int_len : N) : M (N * N) :=
  if (asn1_len <? Z.to_N ASN1_DER_VAL_OFFSET + 1)%N
  then ret (0%N, out_int_len) else
  (* all read access must be before this pointer *)
  let asn1_end := asn1 + Z.of_N asn1_len in
  (* fixed position fields *)
  let tag_field := asn1 + ASN1_DER_TAG_OFFSET in
  let length_field := asn1 + ASN1_DER_LEN_OFFSET in
  tag <- load tag_field ;;
  if negb (u8 tag =? DER_TAG_INTEGER)%N then ret (0%N, out_int_len) else
  len0 <- load length_field ;;
  if (u8 len0 =? 0)%N then ret (0%N, out_int_len) else
  len1 <- load length_field ;;
  if (DER_INTEGER_MAX_LEN <? u8 len1)%N then ret (0%N, out_int_len) else
  len2 <- load length_field ;;
  let integer_length := u8 len2 in
  let integer_field_cur := asn1 + ASN1_DER_VAL_OFFSET in
  if integer_field_cur + Z.of_N integer_length - 1 >? asn1_end - 1
  then ret (0%N, out_int_len) else
  (* one byte can never be a stuffing byte *)
  stripped <-
    (if (1 <? integer_length)%N then
       v0 <- load integer_field_cur ;;
       let '(integer_length, integer_field_cur) :=
         if (u8 v0 =? 0)%N
         then (u8_dec integer_length, integer_field_cur + 1)
         else (integer_length, integer_field_cur) in
       v1 <- load integer_field_cur ;;
       if (u8 v1 =? 0)%N then ret None
       else ret (Some (integer_length, integer_field_cur))
     else ret (Some (integer_length, integer_field_cur))) ;;
  match stripped with
  | None => ret (0%N, out_int_len)  (* second zero byte is an encoding error *)
  | Some (integer_length, integer_field_cur) =>
      if (out_int_len <? integer_length)%N then ret (0%N, out_int_len) else
      (* insert padding zeros *)
      let padding := size_sub out_int_len integer_length in
      memset out_int (to_u8 0) padding ;;;
      memcpy (out_int + Z.of_N padding) integer_field_cur integer_length ;;;
      (* return number of consumed ASN.1 bytes *)
      ret (Z.to_N (integer_field_cur + Z.of_N integer_length - tag_field),
           integer_length)
  end.

(** ** [asn1_to_ecdsa_rs_sep] *)

(** [r_len] and [s_len] are cells as above ([None] for a null pointer), two
    different cells; the result carries both cells after the call. *)
Definition asn1_to_ecdsa_rs_sep (asn1 : ptr) (asn1_len : N)
    (r : ptr) (r_len : option N) (s : ptr) (s_len : option N)
    : M (bool * option N * option N) :=
  match r_len, s_len with
  | Some r_cap, Some s_cap =>
      if (asn1 =? NULL) || (r =? NULL) || (s =? NULL)
      then ret (false, r_len, s_len) else
      (* decode R component *)
      '(consumed_r, r_out) <- decode_asn1_uint asn1 asn1_len r r_cap ;;
      if (consumed_r =? 0)%N then ret (false, Some r_out, s_len) else
      let asn1_s := asn1 + Z.of_N consumed_r in
      let asn1_s_len := size_sub asn1_len consumed_r in
      (* decode S component *)
      '(consumed_s, s_out) <- decode_asn1_uint asn1_s asn1_s_len s s_cap ;;
      if (consumed_s =? 0)%N then ret (false, Some r_out, Some s_out) else
      ret (true, Some r_out, Some s_out)
  | _, _ => ret (false, r_len, s_len)
  end.

(** ** [asn1_to_ecdsa_rs] *)

(** [rs_len == NULL] compares the [size_t] with the null pointer constant,
    that is, with 0. *)
Definition asn1_to_ecdsa_rs (asn1 : ptr) (asn1_len : N)
    (rs : ptr) (rs_len : N) : M bool :=
  if (asn1 =? NULL) || (rs =? NULL) || (rs_len =? 0)%N then ret false else
  if negb (rs_len mod 2 =? 0)%N then ret false else
  let component_length := (rs_len / 2)%N in
  let r_len := Some component_length in
  let s_len := Some component_length in
  '(ok, _, _) <- asn1_to_ecdsa_rs_sep asn1 asn1_len rs r_len
                   (rs + Z.of_N component_length) s_len ;;
  ret ok.

(** ** Notions used to state the properties *)

(** The addresses of a buffer of [len] bytes at [base]. *)
Definition region (base : ptr) (len : N) (a : ptr) : Prop :=
  base <= a < base + Z.of_N len.

(** Two buffers that do not overlap. *)
Definition separate (a : ptr) (n : N) (b : ptr) (k : N) : Prop :=
  a + Z.of_N n <= b \/ b + Z.of_N k <= a.

(** An access that reads inside [R] or writes inside [W]. *)
Definition event_in (R W : ptr -> Prop) (e : event) : Prop :=
  match e with
  | Rd a => R a
  | Wr a => W a
  end.

Definition no_access : ptr -> Prop := fun _ => False.

(** [accesses R W s s']: from [s] to [s'] the log grew by accesses that all
    lie within [R] (reads) and [W] (writes). *)
Definition log_ext (R W : ptr -> Prop) (lg lg' : list event) : Prop :=
  exists new, lg' = new ++ lg /\ Forall (event_in R W) new.

Definition accesses (R W : ptr -> Prop) (s s' : state) : Prop :=
  log_ext R W (st_log s) (st_log s').

(** The big-endian integer without its leading zero bytes; the last byte
    is never dropped. *)
Fixpoint strip_zeros (l : list byte) : list byte :=
  match l with
  | b :: (_ :: _) as t => if (u8 b =? 0)%N then strip_zeros t else l
  | _ => l
  end.

Definition high_bit (b : byte) : bool :=
  negb (N.land (u8 b) DER_UINT_MASK =? 0)%N.

(** A stuffing byte is needed when the first remaining byte has its high
    bit set. *)
Definition needs_stuffing (l : list byte) : bool :=
  match l with
  | b :: _ => high_bit b
  | [] => false
  end.

(** The value field of the DER INTEGER of the unsigned integer [v]. *)
Definition der_value (v : list byte) : list byte :=
  let p := strip_zeros v in
  if needs_stuffing p then x00 :: p else p.

(** The TLV of the unsigned integer [v]: tag, length, value. *)
Definition der_tlv (v : list byte) : list byte :=
  x02 :: to_u8 (N.of_nat (length (der_value v))) :: der_value v.

(** The value field of the TLV at [asn1] starts with a byte the decoder
    takes for a stuffing byte. *)
Definition stuffed (m : mem) (asn1 : ptr) : bool :=
  (1 <? u8 (m (asn1 + 1)%Z))%N && (u8 (m (asn1 + 2)%Z) =? 0)%N.

(** The width of the integer of the TLV at [asn1] without its stuffing
    byte. *)
Definition stripped_width (m : mem) (asn1 : ptr) : N :=
  if stuffed m asn1 then (u8 (m (asn1 + 1)%Z) - 1)%N else u8 (m (asn1 + 1)).

(** The TLV at [asn1] passes every check of the decoder, for [asn1_len]
    bytes of input and an output buffer of [cap] bytes. *)
Definition tlv_accepted (m : mem) (asn1 : ptr) (asn1_len cap : N) : bool :=
  let len := u8 (m (asn1 + 1)) in
  ((3 <=? asn1_len)%N && (u8 (m asn1) =? 2)%N && negb (len =? 0)%N
   && (len <=? 127)%N && (2 + len <=? asn1_len)%N
   && negb (stuffed m asn1 && (u8 (m (asn1 + 3)%Z) =? 0)%N)
   && (stripped_width m asn1 <=? cap)%N)%bool.

(** Where the integer of the TLV at [asn1] starts, after the stuffing
    byte if there is one. *)
Definition integer_start (m : mem) (asn1 : ptr) : ptr :=
  if stuffed m asn1 then asn1 + 3 else asn1 + 2.

(** The memory after the decoder has padded the [cap] bytes at [out] with
    zeros and copied the [n] bytes at [src] to their end. *)
Definition decoded_mem (m : mem) (out : ptr) (cap : N) (src : ptr) (n : N)
    : mem :=
  let m1 := write_bytes m out (repeat x00 (N.to_nat (cap - n))) in
  write_bytes m1 (out + Z.of_N (cap - n)) (bytes_at m1 src (N.to_nat n)).

(** ** Example memories *)

(** A memory of sentinel bytes 0xA5 in which the given byte strings are
    stored at the given addresses, and the state of this memory with an
    empty log. *)
Definition blank : mem := fun _ => xa5.

Definition mem_of (l : list (ptr * list byte)) : mem :=
  fold_right (fun e m => write_bytes m (fst e) (snd e)) blank l.

Definition state_of (l : list (ptr * list byte)) : state :=
  mkState (mem_of l) [].

(** The 32-byte integers 1 and 2^256 - 1. *)
Definition int_one : list byte := repeat x00 31 ++ [x01].
Definition int_ff : list byte := repeat xff 32.

(** The signature 02 01 01 02 01 01. *)
Definition sig_one_one : list byte := [x02; x01; x01; x02; x01; x01].

(** A TLV with a stuffing byte before a byte whose high bit is clear, and
    a TLV whose value starts with two zero bytes. *)
Definition tlv_redundant : list byte := [x02; x02; x00; x01].
Definition tlv_two_zeros : list byte := [x02; x03; x00; x00; x01].

(** ** Further notions *)

(** The bytes [l] preceded by zero bytes up to the width [w]. *)
Definition left_pad (w : N) (l : list byte) : list byte :=
  repeat x00 (N.to_nat w - length l) ++ l.

(** The size of the TLV at [asn1], and the bytes of its integer, without
    the stuffing byte. *)
Definition tlv_size (m : mem) (asn1 : ptr) : N := (2 + u8 (m (asn1 + 1)%Z))%N.

Definition tlv_integer (m : mem) (asn1 : ptr) : list byte :=
  bytes_at m (integer_start m asn1) (N.to_nat (stripped_width m asn1)).

(** The two 32-byte integers 1 and 2^256 - 1 at 1000 and 1100. *)
Definition st_r_s : state := state_of [(1000, int_one); (1100, int_ff)].

(** The TLV of the integer 0xFF, and a signature whose second TLV has the
    tag 0x03. *)
Definition tlv_ff : list byte := [x02; x02; x00; xff].
Definition sig_bad_s : list byte := [x02; x01; x01; x03; x01; x01].

(** ** The address space *)

(** The targets have 32-bit pointers: addresses are below [ptr_mod], and a
    sum that reaches [ptr_mod] wraps around. *)
Definition ptr_mod : Z := 2 ^ 32.

Definition wrap (z : Z) : ptr := z mod ptr_mod.

(** The size of the largest TLV the functions handle: tag, length and 127
    value bytes. *)
Definition DER_TLV_MAX_LEN : N := 2 + DER_INTEGER_MAX_LEN.

(** A buffer of [len] bytes at [base] that lies in the address space, not
    at the null pointer, and ends at least [DER_TLV_MAX_LEN] bytes below
    the top.  The bounds checks of the two integer functions compare
    pointers ([out_buf + out_buf_len - 1], [asn1 + asn1_len - 1],
    [integer_field_cur + write_length - 1], ...), and these are the sums
    they stand for only as long as they do not wrap around: a length that
    reaches over the top, or a TLV that would, makes a check go the other
    way.  On buffers [in_space] the checks decide as they do on [Z]. *)
Definition in_space (base : ptr) (len : N) : Prop :=
  0 < base /\ base + Z.of_N len + Z.of_N DER_TLV_MAX_LEN <= ptr_mod.

(** The five functions with the pointer arithmetic of the targets: every
    pointer that is computed is reduced modulo [ptr_mod], every pointer
    difference that becomes a [size_t] as well.  ([memcpy] and [memset] get
    their regions from the checks before them; the addresses inside a copy
    are not reduced.)  The loop of the encoder still runs at most
    [data_len - 1] times ([skip_leading_zeros_wrap_enough]). *)
Fixpoint skip_leading_zeros_wrap (fuel : nat) (cur_data data_end : ptr)
    : M ptr :=
  match fuel with
  | O => ret cur_data
  | S fuel' =>
      if cur_data <? wrap (data_end - 1) then
        b <- load cur_data ;;
        if negb (u8 b =? 0)%N then ret cur_data
        else skip_leading_zeros_wrap fuel' (wrap (cur_data + 1)) data_end
      else ret cur_data
  end.

Definition encode_der_integer_wrap (data : ptr) (data_len : N)
    (out_buf : ptr) (out_buf_len : N) : M N :=
  let out_end := wrap (out_buf + Z.of_N out_buf_len - 1) in
  let tag_field := wrap (out_buf + ASN1_DER_TAG_OFFSET) in
  let length_field := wrap (out_buf + ASN1_DER_LEN_OFFSET) in
  let integer_field_start := wrap (out_buf + ASN1_DER_VAL_OFFSET) in
  let data_end := wrap (data + Z.of_N data_len) in
  if (data_len =? 0)%N then ret 0%N else
  cur_data <- skip_leading_zeros_wrap (N.to_nat data_len) data data_end ;;
  b <- load cur_data ;;
  let integer_field_cur :=
    if negb (N.land (u8 b) DER_UINT_MASK =? 0)%N
    then wrap (integer_field_start + 1) else integer_field_start in
  let write_length := Z.to_N (wrap (data_end - cur_data)) in
  if wrap (integer_field_cur + Z.of_N write_length - 1) >? out_end
  then ret 0%N else
  let integer_len :=
    Z.to_N (wrap (wrap (integer_field_cur + Z.of_N write_length)
                  - integer_field_start)) in
  if (DER_INTEGER_MAX_LEN <? integer_len)%N then ret 0%N else
  memcpy integer_field_cur cur_data write_length ;;;
  store tag_field (to_u8 DER_TAG_INTEGER) ;;;
  store length_field (to_u8 integer_len) ;;;
  (if negb (integer_field_cur =? integer_field_start)
   then store integer_field_start (to_u8 0)
   else ret tt) ;;;
  ret (size_add integer_len (Z.to_N ASN1_DER_VAL_OFFSET)).

Definition ecdsa_rs_to_asn1_wrap (r s : ptr) (rs_len : N)
    (asn_sig : ptr) (asn_sig_len : option N) : M (bool * option N) :=
  match asn_sig_len with
  | None => ret (false, asn_sig_len)
  | Some cap =>
      if (r =? NULL) || (s =? NULL) || (asn_sig =? NULL)
      then ret (false, asn_sig_len) else
      out_len_r <- encode_der_integer_wrap r rs_len asn_sig cap ;;
      if (out_len_r =? 0)%N then ret (false, asn_sig_len) else
      let s_start := wrap (asn_sig + Z.of_N out_len_r) in
      let s_len := size_sub cap out_len_r in
      out_len_s <- encode_der_integer_wrap s rs_len s_start s_len ;;
      if (out_len_s =? 0)%N then ret (false, asn_sig_len) else
      ret (true, Some (size_add out_len_r out_len_s))
  end.

Definition decode_asn1_uint_wrap (asn1 : ptr) (asn1_len : N)
    (out_int : ptr) (out_int_len : N) : M (N * N) :=
  if (asn1_len <? Z.to_N ASN1_DER_VAL_OFFSET + 1)%N
  then ret (0%N, out_int_len) else
  let asn1_end := wrap (asn1 + Z.of_N asn1_len) in
  let tag_field := wrap (asn1 + ASN1_DER_TAG_OFFSET) in
  let length_field := wrap (asn1 + ASN1_DER_LEN_OFFSET) in
  tag <- load tag_field ;;
  if negb (u8 tag =? DER_TAG_INTEGER)%N then ret (0%N, out_int_len) else
  len0 <- load length_field ;;
  if (u8 len0 =? 0)%N then ret (0%N, out_int_len) else
  len1 <- load length_field ;;
  if (DER_INTEGER_MAX_LEN <? u8 len1)%N then ret (0%N, out_int_len) else
  len2 <- load length_field ;;
  let integer_length := u8 len2 in
  let integer_field_cur := wrap (asn1 + ASN1_DER_VAL_OFFSET) in
  if wrap (integer_field_cur + Z.of_N integer_length - 1) >? wrap (asn1_end - 1)
  then ret (0%N, out_int_len) else
  stripped <-
    (if (1 <? integer_length)%N then
       v0 <- load integer_field_cur ;;
       let '(integer_length, integer_field_cur) :=
         if (u8 v0 =? 0)%N
         then (u8_dec integer_length, wrap (integer_field_cur + 1))
         else (integer_length, integer_field_cur) in
       v1 <- load integer_field_cur ;;
       if (u8 v1 =? 0)%N then ret None
       else ret (Some (integer_length, integer_field_cur))
     else ret (Some (integer_length, integer_field_cur))) ;;
  match stripped with
  | None => ret (0%N, out_int_len)
  | Some (integer_length, integer_field_cur) =>
      if (out_int_len <? integer_length)%N then ret (0%N, out_int_len) else
      let padding := size_sub out_int_len integer_length in
      memset out_int (to_u8 0) padding ;;;
      memcpy (wrap (out_int + Z.of_N padding)) integer_field_cur
        integer_length ;;;
      ret (Z.to_N (wrap (wrap (integer_field_cur + Z.of_N integer_length)
                         - tag_field)),
           integer_length)
  end.

Definition asn1_to_ecdsa_rs_sep_wrap (asn1 : ptr) (asn1_len : N)
    (r : ptr) (r_len : option N) (s : ptr) (s_len : option N)
    : M (bool * option N * option N) :=
  match r_len, s_len with
  | Some r_cap, Some s_cap =>
      if (asn1 =? NULL) || (r =? NULL) || (s =? NULL)
      then ret (false, r_len, s_len) else
      '(consumed_r, r_out) <- decode_asn1_uint_wrap asn1 asn1_len r r_cap ;;
      if (consumed_r =? 0)%N then ret (false, Some r_out, s_len) else
      let asn1_s := wrap (asn1 + Z.of_N consumed_r) in
      let asn1_s_len := size_sub asn1_len consumed_r in
      '(consumed_s, s_out) <-
        decode_asn1_uint_wrap asn1_s asn1_s_len s s_cap ;;
      if (consumed_s =? 0)%N then ret (false, Some r_out, Some s_out) else
      ret (true, Some r_out, Some s_out)
  | _, _ => ret (false, r_len, s_len)
  end.

Definition asn1_to_ecdsa_rs_wrap (asn1 : ptr) (asn1_len : N)
    (rs : ptr) (rs_len : N) : M bool :=
  if (asn1 =? NULL) || (rs =? NULL) || (rs_len =? 0)%N then ret false else
  if negb (rs_len mod 2 =? 0)%N then ret false else
  let component_length := (rs_len / 2)%N in
  let r_len := Some component_length in
  let s_len := Some component_length in
  '(ok, _, _) <- asn1_to_ecdsa_rs_sep_wrap asn1 asn1_len rs r_len
                   (wrap (rs + Z.of_N component_length)) s_len ;;
  ret ok.

(** * Properties *)

(** ** Bytes and machine integers *)

Lemma u8_bound (b : byte) : (u8 b <= 255)%N.
Proof. apply Byte.to_N_bounded. Qed.

Lemma u8_to_u8 (n : N) : u8 (to_u8 n) = (n mod 256)%N.
Proof.
  unfold u8, to_u8.
  destruct (Byte.of_N (n mod 256)) as [b|] eqn:E.
  - now apply Byte.to_of_N.
  - apply Byte.of_N_None_iff in E.
    pose proof (N.mod_upper_bound n 256). lia.
Qed.

Lemma u8_to_u8_small (n : N) : (n < 256)%N -> u8 (to_u8 n) = n.
Proof. intros H. rewrite u8_to_u8. now apply N.mod_small. Qed.

Lemma u8_inj (a b : byte) : u8 a = u8 b -> a = b.
Proof.
  unfold u8. intros H.
  pose proof (Byte.of_to_N a) as Ha. pose proof (Byte.of_to_N b) as Hb.
  rewrite H in Ha. congruence.
Qed.

Lemma u8_zero (b : byte) : u8 b = 0%N <-> b = x00.
Proof.
  split; intros H.
  - apply u8_inj. exact H.
  - subst b. reflexivity.
Qed.

Lemma to_u8_0 : to_u8 0 = x00.
Proof. reflexivity. Qed.

Lemma to_u8_tag : to_u8 DER_TAG_INTEGER = x02.
Proof. reflexivity. Qed.

Lemma u8_dec_pos (n : N) : (1 <= n <= 255)%N -> u8_dec n = (n - 1)%N.
Proof.
  intros H. unfold u8_dec.
  replace (n + 255)%N with ((n - 1) + 1 * 256)%N by lia.
  rewrite N.Div0.mod_add. apply N.mod_small. lia.
Qed.

Lemma size_sub_le (a b : N) : (b <= a)%N -> size_sub a b = (a - b)%N.
Proof.
  intros H. unfold size_sub.
  destruct (N.leb_spec b a); [reflexivity | lia].
Qed.

Lemma size_add_small (a b : N) : (a + b <= 258)%N -> size_add a b = (a + b)%N.
Proof.
  intros H. unfold size_add. apply N.mod_small.
  unfold size_mod, size_bits. change (2 ^ 32)%N with 4294967296%N. lia.
Qed.

(** ** Memory *)

Lemma upd_same (m : mem) (a : ptr) (b : byte) : upd m a b a = b.
Proof. unfold upd. now rewrite Z.eqb_refl. Qed.

Lemma upd_other (m : mem) (a x : ptr) (b : byte) : x <> a -> upd m a b x = m x.
Proof. intros H. unfold upd. destruct (Z.eqb_spec x a); [contradiction | reflexivity]. Qed.

Lemma In_addrs (x : ptr) : forall n a,
  In x (addrs a n) <-> a <= x < a + Z.of_nat n.
Proof.
  induction n as [|n IH]; intros a; simpl addrs.
  - simpl. lia.
  - simpl In. rewrite IH. lia.
Qed.

Lemma bytes_at_length (m : mem) : forall n a, length (bytes_at m a n) = n.
Proof. induction n as [|n IH]; intros a; simpl; [reflexivity | now rewrite IH]. Qed.

Lemma bytes_at_ext (m m' : mem) : forall n a,
  (forall x, a <= x < a + Z.of_nat n -> m x = m' x) ->
  bytes_at m a n = bytes_at m' a n.
Proof.
  induction n as [|n IH]; intros a H; simpl; [reflexivity|].
  f_equal.
  - apply H. lia.
  - apply IH. intros x Hx. apply H. lia.
Qed.

Lemma bytes_at_app (m : mem) : forall n k a,
  bytes_at m a (n + k) = bytes_at m a n ++ bytes_at m (a + Z.of_nat n) k.
Proof.
  induction n as [|n IH]; intros k a.
  - simpl. now rewrite Z.add_0_r.
  - cbn [Nat.add bytes_at app]. rewrite IH. do 3 f_equal. lia.
Qed.

Lemma write_bytes_out (m : mem) (x : ptr) : forall l a,
  x < a \/ a + Z.of_nat (length l) <= x -> write_bytes m a l x = m x.
Proof.
  induction l as [|b l IH]; intros a H; simpl; [reflexivity|].
  simpl length in H. rewrite upd_other by lia. apply IH. lia.
Qed.

Lemma bytes_at_write_bytes (m : mem) : forall l a,
  bytes_at (write_bytes m a l) a (length l) = l.
Proof.
  induction l as [|b l IH]; intros a; simpl; [reflexivity|].
  rewrite upd_same. f_equal.
  transitivity (bytes_at (write_bytes m (a + 1) l) (a + 1) (length l)).
  - apply bytes_at_ext. intros x Hx. apply upd_other. lia.
  - apply IH.
Qed.

Lemma bytes_at_write_bytes_out (m : mem) (l : list byte) (a b : ptr) (n : nat) :
  b + Z.of_nat n <= a \/ a + Z.of_nat (length l) <= b ->
  bytes_at (write_bytes m a l) b n = bytes_at m b n.
Proof.
  intros H. apply bytes_at_ext. intros x Hx. apply write_bytes_out. lia.
Qed.

(** ** Access logs *)

Lemma log_ext_refl (R W : ptr -> Prop) (lg : list event) : log_ext R W lg lg.
Proof. exists []. split; [reflexivity | constructor]. Qed.

Lemma log_ext_cons (R W : ptr -> Prop) (e : event) (lg lg' : list event) :
  event_in R W e -> log_ext R W lg lg' -> log_ext R W lg (e :: lg').
Proof.
  intros He [new [E F]]. exists (e :: new). split.
  - now rewrite E.
  - now constructor.
Qed.

Lemma log_ext_app (R W : ptr -> Prop) (l lg lg' : list event) :
  Forall (event_in R W) l -> log_ext R W lg lg' -> log_ext R W lg (l ++ lg').
Proof.
  intros Hl [new [E F]]. exists (l ++ new). split.
  - now rewrite E, app_assoc.
  - apply Forall_app. now split.
Qed.

Lemma accesses_refl (R W : ptr -> Prop) (s : state) : accesses R W s s.
Proof. apply log_ext_refl. Qed.

Lemma accesses_weaken (R W R' W' : ptr -> Prop) (s s' : state) :
  (forall a, R a -> R' a) -> (forall a, W a -> W' a) ->
  accesses R W s s' -> accesses R' W' s s'.
Proof.
  intros HR HW [new [E F]]. exists new. split; [exact E|].
  eapply Forall_impl; [|exact F]. intros [a|a]; simpl; auto.
Qed.

Lemma Forall_map_Rd (R W : ptr -> Prop) (l : list ptr) :
  Forall R l -> Forall (event_in R W) (map Rd l).
Proof. induction 1; simpl; constructor; assumption. Qed.

Lemma Forall_map_Wr (R W : ptr -> Prop) (l : list ptr) :
  Forall W l -> Forall (event_in R W) (map Wr l).
Proof. induction 1; simpl; constructor; assumption. Qed.

Lemma Forall_addrs (P : ptr -> Prop) (a : ptr) (n : nat) :
  (forall x, a <= x < a + Z.of_nat n -> P x) -> Forall P (addrs a n).
Proof. intros H. apply Forall_forall. intros x Hx. apply H. now apply In_addrs. Qed.

(** ** The unsigned integer without its leading zeros *)

Lemma strip_zeros_cons_zero (b b' : byte) (t : list byte) :
  u8 b = 0%N -> strip_zeros (b :: b' :: t) = strip_zeros (b' :: t).
Proof. intros H. simpl. now rewrite H. Qed.

Lemma strip_zeros_cons_nonzero (b : byte) (t : list byte) :
  u8 b <> 0%N -> strip_zeros (b :: t) = b :: t.
Proof.
  intros H. destruct t as [|b' t]; [reflexivity|].
  simpl. destruct (N.eqb_spec (u8 b) 0); [contradiction | reflexivity].
Qed.

Lemma strip_zeros_length_le : forall l, (length (strip_zeros l) <= length l)%nat.
Proof.
  induction l as [|b [|b' t] IH]; [simpl; lia .. |].
  destruct (N.eqb_spec (u8 b) 0) as [E|E].
  - rewrite strip_zeros_cons_zero by exact E. simpl length in *. lia.
  - rewrite strip_zeros_cons_nonzero by exact E. lia.
Qed.

Lemma strip_zeros_length_pos : forall l, l <> [] -> (1 <= length (strip_zeros l))%nat.
Proof.
  induction l as [|b [|b' t] IH]; intros H; [contradiction | simpl; lia |].
  destruct (N.eqb_spec (u8 b) 0) as [E|E].
  - rewrite strip_zeros_cons_zero by exact E. apply IH. discriminate.
  - rewrite strip_zeros_cons_nonzero by exact E. simpl. lia.
Qed.

(** The stripped integer is the integer itself after its leading zeros. *)
Lemma strip_zeros_pad : forall l,
  l = repeat x00 (length l - length (strip_zeros l)) ++ strip_zeros l.
Proof.
  induction l as [|b [|b' t] IH]; [reflexivity | reflexivity |].
  destruct (N.eqb_spec (u8 b) 0) as [E|E].
  - rewrite strip_zeros_cons_zero by exact E.
    pose proof (strip_zeros_length_le (b' :: t)) as Hle.
    replace (length (b :: b' :: t) - length (strip_zeros (b' :: t)))%nat
      with (S (length (b' :: t) - length (strip_zeros (b' :: t))))
      by (simpl length in *; lia).
    cbn [repeat app]. apply u8_zero in E. subst b. f_equal. exact IH.
  - rewrite strip_zeros_cons_nonzero by exact E.
    now rewrite Nat.sub_diag.
Qed.

(** It never starts with a zero byte followed by another byte. *)
Lemma strip_zeros_minimal : forall l b b' t,
  strip_zeros l = b :: b' :: t -> b <> x00.
Proof.
  induction l as [|c [|c' l'] IH]; intros b b' t H; [discriminate .. |].
  destruct (N.eqb_spec (u8 c) 0) as [E|E].
  - rewrite strip_zeros_cons_zero in H by exact E. eapply IH; eassumption.
  - rewrite strip_zeros_cons_nonzero in H by exact E.
    injection H as -> _ _. intros ->. apply E. reflexivity.
Qed.

Lemma strip_zeros_all_zero (n : nat) : strip_zeros (repeat x00 (S n)) = [x00].
Proof. induction n as [|n IH]; [reflexivity | exact IH]. Qed.

(** ** The loop of the encoder *)

(** With fuel for [data_len - 1] iterations the loop stops at the first
    byte of the stripped integer; it reads this byte and the zero bytes
    before it, never the last byte of the data when all others are zero,
    and writes nothing. *)
Lemma skip_leading_zeros_run : forall n fuel cur s,
  (n <= fuel)%nat ->
  exists new,
    skip_leading_zeros fuel cur (cur + Z.of_nat (S n)) s =
      (cur + Z.of_nat (S n)
         - Z.of_nat (length (strip_zeros (bytes_at (st_mem s) cur (S n)))),
       mkState (st_mem s) (new ++ st_log s))
    /\ Forall (event_in (fun a => cur <= a < cur + Z.of_nat n) no_access) new.
Proof.
  induction n as [|n IH]; intros fuel cur s Hf.
  - exists []. split; [|constructor].
    destruct s as [m lg].
    destruct fuel as [|fuel]; cbn [skip_leading_zeros].
    + unfold ret. simpl. f_equal. lia.
    + destruct (Z.ltb_spec cur (cur + Z.of_nat 1 - 1)); [lia|].
      unfold ret. simpl. f_equal. lia.
  - destruct fuel as [|fuel]; [lia|].
    cbn [skip_leading_zeros].
    destruct (Z.ltb_spec cur (cur + Z.of_nat (S (S n)) - 1)); [|lia].
    unfold bind at 1. unfold load at 1.
    change (bytes_at (st_mem s) cur (S (S n)))
      with (st_mem s cur :: bytes_at (st_mem s) (cur + 1) (S n)).
    destruct (N.eqb_spec (u8 (st_mem s cur)) 0) as [E|E]; cbn [negb].
    + destruct (IH fuel (cur + 1)
                  (mkState (st_mem s) (Rd cur :: st_log s))) as [new [Hrun Hnew]];
        [lia|].
      replace (cur + Z.of_nat (S (S n))) with (cur + 1 + Z.of_nat (S n)) by lia.
      rewrite Hrun. cbn [st_mem st_log].
      exists (new ++ [Rd cur]). split.
      * change (bytes_at (st_mem s) (cur + 1) (S n))
          with (st_mem s (cur + 1) :: bytes_at (st_mem s) (cur + 1 + 1) n).
        rewrite strip_zeros_cons_zero by exact E.
        now rewrite <- app_assoc.
      * apply Forall_app. split.
        -- eapply Forall_impl; [|exact Hnew].
           intros [a|a]; simpl; [lia | auto].
        -- constructor; [simpl; lia | constructor].
    + exists [Rd cur]. split.
      * rewrite strip_zeros_cons_nonzero by exact E.
        unfold ret. simpl length. rewrite bytes_at_length. f_equal. lia.
      * constructor; [simpl; lia | constructor].
Qed.

Lemma cons_inj (A : Type) (a a' : A) (l l' : list A) :
  a :: l = a' :: l' -> a = a' /\ l = l'.
Proof. intros H. now injection H. Qed.

Lemma app_eq_length_tail (A : Type) : forall (l1 l1' l2 l2' : list A),
  length l1 = length l1' -> l1 ++ l2 = l1' ++ l2' -> l2 = l2'.
Proof.
  induction l1 as [|a l1 IH]; intros [|a' l1'] l2 l2' Hlen H;
    simpl in *; try discriminate.
  - exact H.
  - injection H as _ H. eapply IH; [|exact H]. lia.
Qed.

(** The stripped integer lies at the end of the data. *)
Lemma bytes_at_strip_zeros (m : mem) (a : ptr) (n : nat) :
  let p := strip_zeros (bytes_at m a n) in
  bytes_at m (a + Z.of_nat (n - length p)) (length p) = p.
Proof.
  intros p.
  pose proof (strip_zeros_length_le (bytes_at m a n)) as Hle.
  pose proof (strip_zeros_pad (bytes_at m a n)) as Hpad.
  fold p in Hle, Hpad. rewrite bytes_at_length in Hle, Hpad.
  replace n with ((n - length p) + length p)%nat in Hpad at 1 by lia.
  rewrite bytes_at_app in Hpad.
  eapply app_eq_length_tail; [|exact Hpad].
  now rewrite bytes_at_length, repeat_length.
Qed.

Lemma tlv_mem_plain (m : mem) (out : ptr) (l : byte) (p : list byte) (x : ptr) :
  upd (upd (write_bytes m (out + 2) p) (out + 0) x02) (out + 1) l x =
  write_bytes m out (x02 :: l :: p) x.
Proof.
  cbn [write_bytes]. unfold upd.
  destruct (Z.eqb_spec x (out + 1)), (Z.eqb_spec x (out + 0)),
    (Z.eqb_spec x out); try lia; try reflexivity.
  f_equal. lia.
Qed.

Lemma tlv_mem_stuffed (m : mem) (out : ptr) (l : byte) (p : list byte) (x : ptr) :
  upd (upd (upd (write_bytes m (out + 2 + 1) p) (out + 0) x02) (out + 1) l)
    (out + 2) x00 x =
  write_bytes m out (x02 :: l :: x00 :: p) x.
Proof.
  cbn [write_bytes]. unfold upd.
  destruct (Z.eqb_spec x (out + 2)), (Z.eqb_spec x (out + 1)),
    (Z.eqb_spec x (out + 0)), (Z.eqb_spec x out),
    (Z.eqb_spec x (out + 1 + 1)); try lia; try reflexivity.
  f_equal. lia.
Qed.

(** ** The integer encoder *)

Lemma encode_der_integer_empty (data out : ptr) (cap : N) (s : state) :
  encode_der_integer data 0 out cap s = (0%N, s).
Proof. reflexivity. Qed.

(** What a call on [data_len > 0] bytes does: it succeeds exactly when the
    TLV fits the output buffer and its value field is at most 127 bytes
    long, then the memory is the one in which the TLV was written at
    [out]; otherwise the memory is the same.  All reads are in the data,
    all writes inside the TLV. *)
(** Closing a goal on the accesses of a run: the log is taken apart
    entry by entry. *)
Ltac in_region := cbn [event_in]; unfold region, no_access; lia.

Ltac log_steps :=
  unfold accesses; cbn [st_log];
  repeat first
    [ apply log_ext_refl
    | apply log_ext_cons; [in_region|]
    | apply log_ext_app;
      [first [ now auto
             | first [apply Forall_map_Wr | apply Forall_map_Rd];
               apply Forall_addrs; unfold region; lia ]|] ].

(** One of the two checks of the encoder fails: nothing is written. *)
Ltac encode_refuses fits :=
  assert (fits = false) as ->
    by (unfold fits; apply andb_false_iff;
        first [left; apply N.leb_gt; lia | right; apply N.leb_gt; lia]);
  eexists; split; [reflexivity|]; split; [reflexivity|]; log_steps.

Lemma encode_der_integer_run (data : ptr) (data_len : N) (out : ptr) (cap : N)
    (s : state) :
  data_len <> 0%N ->
  let v := bytes_at (st_mem s) data (N.to_nat data_len) in
  let n := N.of_nat (length (der_value v)) in
  let fits := ((2 + n <=? cap) && (n <=? 127))%N in
  exists s',
    encode_der_integer data data_len out cap s =
      (if fits then (2 + n)%N else 0%N, s')
    /\ (if fits
        then forall x, st_mem s' x = write_bytes (st_mem s) out (der_tlv v) x
        else st_mem s' = st_mem s)
    /\ accesses (region data data_len)
         (if fits then region out (2 + n) else no_access) s s'.
Proof.
  intros Hlen v n fits.
  unfold encode_der_integer.
  destruct (N.eqb_spec data_len 0) as [|_]; [contradiction|].
  (* the loop *)
  destruct (N.to_nat data_len) as [|k] eqn:Ek; [lia|].
  assert (Hend : data + Z.of_N data_len = data + Z.of_nat (S k)) by lia.
  destruct (skip_leading_zeros_run k (S k) data s (le_S _ _ (le_n k)))
    as [new [Hrun Hnew]].
  rewrite <- Hend in Hrun. fold v in Hrun.
  assert (Hnew' : forall W, Forall (event_in (region data data_len) W) new).
  { intros W. eapply Forall_impl; [|exact Hnew].
    intros [a|a]; cbn [event_in]; unfold region, no_access; [lia | tauto]. }
  clear Hnew.
  (* where it stops *)
  assert (Hv : length v = S k) by apply bytes_at_length.
  assert (Hne : v <> []) by (intros E; rewrite E in Hv; discriminate).
  pose proof (strip_zeros_length_le v) as Hle. rewrite Hv in Hle.
  pose proof (strip_zeros_length_pos v Hne) as Hpos.
  pose proof (bytes_at_strip_zeros (st_mem s) data (S k)) as Hsuf.
  cbv zeta in Hsuf. fold v in Hsuf.
  set (p := strip_zeros v) in *.
  remember (data + Z.of_N data_len - Z.of_nat (length p)) as cur eqn:Hcur.
  replace (data + Z.of_nat (S k - length p)) with cur in Hsuf by lia.
  assert (Hhd : needs_stuffing p = high_bit (st_mem s cur)).
  { destruct p as [|b t] eqn:Ep; [simpl in Hpos; lia|].
    cbn [length bytes_at] in Hsuf. apply cons_inj in Hsuf as [Hb _].
    cbn [needs_stuffing]. now rewrite Hb. }
  assert (Hwl : Z.to_N (data + Z.of_N data_len - cur) = N.of_nat (length p))
    by lia.
  (* the stuffing byte and the two checks *)
  cbv zeta. unfold bind at 1. rewrite Hrun.
  unfold bind at 1. unfold load at 1. cbn [st_mem st_log].
  rewrite Hwl. fold (high_bit (st_mem s cur)). rewrite <- Hhd.
  unfold ASN1_DER_VAL_OFFSET, ASN1_DER_TAG_OFFSET, ASN1_DER_LEN_OFFSET,
    DER_INTEGER_MAX_LEN.
  assert (Hn : n = if needs_stuffing p
                   then N.of_nat (S (length p)) else N.of_nat (length p)).
  { unfold n, der_value. fold p. now destruct (needs_stuffing p). }
  assert (Htlv : der_tlv v = x02 :: to_u8 n ::
                   (if needs_stuffing p then x00 :: p else p)).
  { unfold der_tlv, der_value. fold p. reflexivity. }
  rewrite Htlv. clearbody n. clear Htlv.
  destruct (needs_stuffing p) eqn:Est; subst n.
  - (* a stuffing byte *)
    destruct (Z.gtb_spec (out + 2 + 1 + Z.of_N (N.of_nat (length p)) - 1)
                (out + Z.of_N cap - 1)) as [Hbig|Hfit];
      [encode_refuses fits|].
    replace (Z.to_N (out + 2 + 1 + Z.of_N (N.of_nat (length p)) - (out + 2)))
      with (N.of_nat (S (length p))) by lia.
    destruct (N.ltb_spec 127 (N.of_nat (S (length p)))) as [Hlong|Hshort];
      [encode_refuses fits|].
    assert (fits = true) as ->
      by (unfold fits; apply andb_true_iff; split; apply N.leb_le; lia).
    destruct (Z.eqb_spec (out + 2 + 1) (out + 2)) as [|_]; [lia|].
    cbn [negb]. unfold bind, memcpy, store, ret. cbn [st_mem st_log].
    rewrite Nat2N.id, Hsuf.
    rewrite size_add_small by (simpl Z.to_N; lia).
    eexists. split; [f_equal; simpl Z.to_N; lia|].
    cbn [st_mem st_log]. split; [|log_steps].
    intros x. rewrite to_u8_0, to_u8_tag. apply tlv_mem_stuffed.
  - (* no stuffing byte *)
    destruct (Z.gtb_spec (out + 2 + Z.of_N (N.of_nat (length p)) - 1)
                (out + Z.of_N cap - 1)) as [Hbig|Hfit];
      [encode_refuses fits|].
    replace (Z.to_N (out + 2 + Z.of_N (N.of_nat (length p)) - (out + 2)))
      with (N.of_nat (length p)) by lia.
    destruct (N.ltb_spec 127 (N.of_nat (length p))) as [Hlong|Hshort];
      [encode_refuses fits|].
    assert (fits = true) as ->
      by (unfold fits; apply andb_true_iff; split; apply N.leb_le; lia).
    rewrite Z.eqb_refl.
    cbn [negb]. unfold bind, memcpy, store, ret. cbn [st_mem st_log].
    rewrite Nat2N.id, Hsuf.
    rewrite size_add_small by (simpl Z.to_N; lia).
    eexists. split; [f_equal; simpl Z.to_N; lia|].
    cbn [st_mem st_log]. split; [|log_steps].
    intros x. rewrite to_u8_tag. apply tlv_mem_plain.
Qed.

(** ** The integer decoder *)

Ltac split_bool :=
  cbn [andb negb orb];
  match goal with
  | |- context [(?a <=? ?b)%N] => destruct (N.leb_spec a b)
  | |- context [(?a <? ?b)%N] => destruct (N.ltb_spec a b)
  | |- context [(?a =? ?b)%N] => destruct (N.eqb_spec a b)
  | |- context [(?a >? ?b)%Z] => destruct (Z.gtb_spec a b)
  | |- context [(?a =? ?b)%Z] => destruct (Z.eqb_spec a b)
  end; try (cbn [andb negb orb] in *; lia); cbn [andb negb orb].

(** What a call does: when the TLV passes the checks, the result is the
    size of the TLV and the width of the integer, and the memory is the
    padded copy; otherwise the result is 0, the cell keeps its content and
    the memory is the same.  All reads are in the input, all writes in the
    output buffer. *)
Lemma decode_asn1_uint_run (asn1 : ptr) (asn1_len : N) (out : ptr) (cap : N)
    (s : state) :
  let m := st_mem s in
  let ok := tlv_accepted m asn1 asn1_len cap in
  exists s',
    decode_asn1_uint asn1 asn1_len out cap s =
      (if ok then ((2 + u8 (m (asn1 + 1)%Z))%N, stripped_width m asn1)
       else (0%N, cap), s')
    /\ st_mem s' =
       (if ok
        then decoded_mem m out cap (integer_start m asn1) (stripped_width m asn1)
        else m)
    /\ accesses (region asn1 asn1_len)
         (if ok then region out cap else no_access) s s'.
Proof.
  intros m ok. subst ok m. destruct s as [m lg].
  unfold decode_asn1_uint, tlv_accepted, stripped_width, integer_start,
    stuffed, decoded_mem.
  cbv zeta.
  unfold ASN1_DER_VAL_OFFSET, ASN1_DER_TAG_OFFSET, ASN1_DER_LEN_OFFSET,
    DER_INTEGER_MAX_LEN, DER_TAG_INTEGER.
  change (Z.to_N 2 + 1)%N with 3%N.
  unfold bind, load, ret, memset, memcpy. cbn beta iota.
  rewrite !Z.add_0_r.
  replace (asn1 + 2 + 1) with (asn1 + 3) by lia.
  cbn [st_mem st_log].
  pose proof (u8_bound (m (asn1 + 1))) as Hb.
  assert (Hdec : (1 < u8 (m (asn1 + 1)%Z))%N ->
                 u8_dec (u8 (m (asn1 + 1)%Z)) = (u8 (m (asn1 + 1)%Z) - 1)%N)
    by (intros; apply u8_dec_pos; lia).
  repeat (split_bool; cbn beta iota; cbn [st_mem st_log]).
  all: cbn [andb negb] in *; try lia.
  all: try rewrite Hdec by assumption.
  all: rewrite ?size_sub_le, ?to_u8_0 by lia.
  all: try match goal with
           | |- context [Z.to_N ?e] =>
               replace (Z.to_N e) with (2 + u8 (m (asn1 + 1)%Z))%N by lia
           end.
  all: eexists; split; [reflexivity|]; split; [reflexivity|].
  all: log_steps.
Qed.

(** A TLV that passes the checks has a header within the input and an
    integer of at least one byte that fits the output buffer. *)
Lemma tlv_accepted_inv (m : mem) (asn1 : ptr) (asn1_len cap : N) :
  tlv_accepted m asn1 asn1_len cap = true ->
  (3 <= asn1_len)%N /\ m asn1 = x02 /\
  (1 <= u8 (m (asn1 + 1)%Z) <= 127)%N /\
  (2 + u8 (m (asn1 + 1)%Z) <= asn1_len)%N /\
  (1 <= stripped_width m asn1 <= cap)%N /\
  ~ ((2 <= u8 (m (asn1 + 1)%Z))%N /\ m (asn1 + 2) = x00 /\ m (asn1 + 3) = x00).
Proof.
  unfold tlv_accepted, stripped_width, stuffed. cbv zeta.
  intros H.
  repeat (apply andb_true_iff in H; destruct H as [H ?]).
  repeat match goal with
         | H : negb _ = true |- _ => apply negb_true_iff in H
         | H : (_ <=? _)%N = true |- _ => apply N.leb_le in H
         | H : (_ =? _)%N = true |- _ => apply N.eqb_eq in H
         | H : (_ =? _)%N = false |- _ => apply N.eqb_neq in H
         end.
  assert (m asn1 = x02) by (apply u8_inj; assumption).
  repeat split; try assumption; try lia.
  - clear H1. repeat split_bool; lia.
  - intros [HL [E2 E3]]. rewrite E2, E3 in H1.
    change (u8 x00) with 0%N in H1.
    destruct (N.ltb_spec 1 (u8 (m (asn1 + 1)))); [|lia].
    discriminate.
Qed.

(** ** The address space *)

Lemma wrap_small (z : Z) : 0 <= z < ptr_mod -> wrap z = z.
Proof. apply Z.mod_small. Qed.

Lemma wrap_over (z : Z) : ptr_mod <= z < 2 * ptr_mod -> wrap z = z - ptr_mod.
Proof.
  intros H. unfold wrap. symmetry.
  apply (Z.mod_unique z ptr_mod 1); lia.
Qed.

Lemma wrap_sub (a b : Z) : wrap (wrap a - b) = wrap (a - b).
Proof. apply Zminus_mod_idemp_l. Qed.

(** What is left of a buffer in the address space, and what is taken from
    its start, is in the address space. *)
Lemma in_space_tail (base : ptr) (len k : N) :
  in_space base len -> (k <= len)%N ->
  in_space (base + Z.of_N k) (len - k).
Proof. unfold in_space. intros [H0 H1] Hk. split; lia. Qed.

Lemma in_space_head (base : ptr) (len k : N) :
  in_space base len -> (k <= len)%N -> in_space base k.
Proof. unfold in_space. intros [H0 H1] Hk. split; lia. Qed.

Lemma in_space_wrap (base : ptr) (len k : N) :
  in_space base len -> (k <= len)%N -> wrap (base + Z.of_N k) = base + Z.of_N k.
Proof.
  unfold in_space, DER_TLV_MAX_LEN, DER_INTEGER_MAX_LEN.
  intros [H0 H1] Hk. apply wrap_small. lia.
Qed.

(** The fuel the encoder gives to its loop is enough with 32-bit pointers
    too, wherever the data is: the loop stops before [data_end - 1], which
    is at most [data_len - 1] bytes above [data], or below [data] when the
    length reaches over the top. *)
Lemma skip_leading_zeros_wrap_fuel (data_end : ptr) :
  forall fuel fuel' cur s,
    0 <= cur ->
    (Z.to_nat (wrap (data_end - 1) - cur) <= fuel)%nat ->
    (Z.to_nat (wrap (data_end - 1) - cur) <= fuel')%nat ->
    skip_leading_zeros_wrap fuel cur data_end s =
    skip_leading_zeros_wrap fuel' cur data_end s.
Proof.
  assert (HP : 0 < ptr_mod) by reflexivity.
  pose proof (Z.mod_pos_bound (data_end - 1) ptr_mod HP) as Hw.
  fold (wrap (data_end - 1)) in Hw.
  induction fuel as [|fuel IH]; intros fuel' cur s Hc Hf Hf';
    destruct fuel' as [|fuel']; cbn [skip_leading_zeros_wrap];
    try reflexivity.
  - destruct (Z.ltb_spec cur (wrap (data_end - 1))); [lia | reflexivity].
  - destruct (Z.ltb_spec cur (wrap (data_end - 1))); [lia | reflexivity].
  - destruct (Z.ltb_spec cur (wrap (data_end - 1))) as [Hlt|]; [|reflexivity].
    unfold bind. destruct (load cur s) as [b s1].
    destruct (negb (u8 b =? 0)%N); [reflexivity|].
    rewrite wrap_small by lia. apply IH; lia.
Qed.

Lemma skip_leading_zeros_wrap_enough (data : ptr) (data_len : N) (fuel : nat)
    (s : state) :
  0 <= data < ptr_mod -> Z.of_N data_len < ptr_mod -> data_len <> 0%N ->
  (N.to_nat data_len <= fuel)%nat ->
  skip_leading_zeros_wrap fuel data (wrap (data + Z.of_N data_len)) s =
  skip_leading_zeros_wrap (N.to_nat data_len) data
    (wrap (data + Z.of_N data_len)) s.
Proof.
  intros Hd Hl Hlen Hf.
  assert (Hsteps : (Z.to_nat (wrap (wrap (data + Z.of_N data_len) - 1) - data)
                    <= N.to_nat data_len)%nat).
  { rewrite wrap_sub.
    destruct (Z_lt_le_dec (data + Z.of_N data_len - 1) ptr_mod) as [Hin|Hout].
    - rewrite wrap_small by lia. lia.
    - rewrite wrap_over by lia. lia. }
  apply skip_leading_zeros_wrap_fuel; lia.
Qed.

(** The loop of the encoder, for data that ends below the top. *)
Lemma skip_leading_zeros_wrap_eq (data_end : ptr) :
  1 <= data_end < ptr_mod ->
  forall fuel cur s, 0 <= cur ->
    skip_leading_zeros_wrap fuel cur data_end s =
    skip_leading_zeros fuel cur data_end s.
Proof.
  intros He. induction fuel as [|fuel IH]; intros cur s Hc; [reflexivity|].
  cbn [skip_leading_zeros_wrap skip_leading_zeros].
  rewrite wrap_small by lia.
  destruct (Z.ltb_spec cur (data_end - 1)) as [Hlt|]; [|reflexivity].
  unfold bind. destruct (load cur s) as [b s1].
  destruct (negb (u8 b =? 0)%N); [reflexivity|].
  rewrite wrap_small by lia. apply IH. lia.
Qed.

(** On buffers in the address space the integer encoder computes with
    32-bit pointers what it computes on [Z].  The sum of the bounds check,
    [integer_field_cur + write_length - 1], may still wrap around, for
    data longer than what is left above the output buffer; then the value
    field is longer than 127 bytes and the second check refuses it. *)
Lemma encode_der_integer_wrap_eq (data : ptr) (data_len : N) (out_buf : ptr)
    (out_buf_len : N) (s : state) :
  in_space data data_len -> in_space out_buf out_buf_len ->
  encode_der_integer_wrap data data_len out_buf out_buf_len s =
  encode_der_integer data data_len out_buf out_buf_len s.
Proof.
  unfold in_space, DER_TLV_MAX_LEN, DER_INTEGER_MAX_LEN.
  intros [Hd0 Hd1] [Ho0 Ho1].
  assert (HP : ptr_mod = 4294967296) by reflexivity.
  unfold encode_der_integer_wrap, encode_der_integer.
  destruct (N.eqb_spec data_len 0) as [|Hlen]; [reflexivity|].
  cbv zeta.
  unfold ASN1_DER_VAL_OFFSET, ASN1_DER_TAG_OFFSET, ASN1_DER_LEN_OFFSET,
    DER_INTEGER_MAX_LEN.
  rewrite (wrap_small (data + Z.of_N data_len)) by lia.
  rewrite (wrap_small (out_buf + 0)), (wrap_small (out_buf + 1)),
    (wrap_small (out_buf + 2)), (wrap_small (out_buf + 2 + 1)),
    (wrap_small (out_buf + Z.of_N out_buf_len - 1)) by lia.
  unfold bind.
  rewrite skip_leading_zeros_wrap_eq by lia.
  (* where the loop stops *)
  destruct (N.to_nat data_len) as [|k] eqn:Ek; [lia|].
  destruct (skip_leading_zeros_run k (S k) data s (le_S _ _ (le_n k)))
    as [new [Hrun _]].
  replace (data + Z.of_nat (S k)) with (data + Z.of_N data_len) in Hrun by lia.
  pose proof (strip_zeros_length_le (bytes_at (st_mem s) data (S k))) as Hle.
  rewrite bytes_at_length in Hle.
  assert (Hpos : (1 <= length (strip_zeros (bytes_at (st_mem s) data (S k))))%nat).
  { apply strip_zeros_length_pos. intros E.
    apply (f_equal (@length byte)) in E. rewrite bytes_at_length in E.
    discriminate. }
  rewrite Hrun.
  set (cur := data + Z.of_N data_len - _) in *.
  assert (Hcur : data <= cur <= data + Z.of_N data_len - 1) by (unfold cur; lia).
  clearbody cur. clear Hrun Hle Hpos.
  destruct (load cur _) as [b s1].
  rewrite (wrap_small (data + Z.of_N data_len - cur)) by lia.
  set (wl := Z.to_N (data + Z.of_N data_len - cur)).
  assert (Hwl : 1 <= Z.of_N wl <= Z.of_N data_len) by (unfold wl; lia).
  clearbody wl.
  destruct (negb (N.land (u8 b) DER_UINT_MASK =? 0)%N);
  rewrite wrap_sub;
  match goal with
       | |- context [wrap (?i + Z.of_N wl - (out_buf + 2))] =>
           rewrite (wrap_small (i + Z.of_N wl - (out_buf + 2))) by lia;
           destruct (Z_lt_le_dec (i + Z.of_N wl - 1) ptr_mod) as [Hin|Hout];
           [ rewrite (wrap_small (i + Z.of_N wl - 1)) by lia; reflexivity
           | rewrite (wrap_over (i + Z.of_N wl - 1)) by lia;
             destruct (Z.gtb_spec (i + Z.of_N wl - 1)
                         (out_buf + Z.of_N out_buf_len - 1)); [|lia];
             destruct (Z.gtb_spec (i + Z.of_N wl - 1 - ptr_mod)
                         (out_buf + Z.of_N out_buf_len - 1)); [reflexivity|];
             destruct (N.ltb_spec 127 (Z.to_N (i + Z.of_N wl - (out_buf + 2))));
             [reflexivity | lia] ]
  end.
Qed.

(** The same for the integer decoder: no sum it computes wraps around. *)
Lemma decode_asn1_uint_wrap_eq (asn1 : ptr) (asn1_len : N) (out_int : ptr)
    (out_int_len : N) (s : state) :
  in_space asn1 asn1_len -> in_space out_int out_int_len ->
  decode_asn1_uint_wrap asn1 asn1_len out_int out_int_len s =
  decode_asn1_uint asn1 asn1_len out_int out_int_len s.
Proof.
  unfold in_space, DER_TLV_MAX_LEN, DER_INTEGER_MAX_LEN.
  intros [Ha0 Ha1] [Ho0 Ho1].
  assert (HP : ptr_mod = 4294967296) by reflexivity.
  unfold decode_asn1_uint_wrap, decode_asn1_uint.
  cbv zeta.
  unfold ASN1_DER_VAL_OFFSET, ASN1_DER_TAG_OFFSET, ASN1_DER_LEN_OFFSET,
    DER_INTEGER_MAX_LEN, DER_TAG_INTEGER.
  change (Z.to_N 2 + 1)%N with 3%N.
  destruct (N.ltb_spec asn1_len 3) as [|H3]; [reflexivity|].
  rewrite (wrap_small (asn1 + Z.of_N asn1_len)) by lia.
  rewrite (wrap_small (asn1 + 0)), (wrap_small (asn1 + 1)),
    (wrap_small (asn1 + 2)), (wrap_small (asn1 + 2 + 1)),
    (wrap_small (asn1 + Z.of_N asn1_len - 1)) by lia.
  destruct s as [m lg].
  unfold bind, load, ret, memset, memcpy. cbn beta iota. cbn [st_mem st_log].
  rewrite !Z.add_0_r.
  replace (asn1 + 2 + 1) with (asn1 + 3) by lia.
  pose proof (u8_bound (m (asn1 + 1)%Z)) as Hb.
  assert (Hdec : (1 < u8 (m (asn1 + 1)%Z))%N ->
                 u8_dec (u8 (m (asn1 + 1)%Z)) = (u8 (m (asn1 + 1)%Z) - 1)%N)
    by (intros; apply u8_dec_pos; lia).
  destruct (negb (u8 (m asn1) =? 2)%N); [reflexivity|].
  cbn beta iota; cbn [st_mem st_log].
  destruct (N.eqb_spec (u8 (m (asn1 + 1)%Z)) 0); [reflexivity|].
  cbn beta iota; cbn [st_mem st_log].
  destruct (N.ltb_spec 127 (u8 (m (asn1 + 1)%Z))); [reflexivity|].
  cbn beta iota; cbn [st_mem st_log].
  rewrite (wrap_small (asn1 + 2 + Z.of_N (u8 (m (asn1 + 1)%Z)) - 1)) by lia.
  repeat (split_bool; cbn beta iota; cbn [st_mem st_log]).
  all: try reflexivity.
  all: try rewrite Hdec by assumption.
  all: rewrite ?size_sub_le by lia.
  all: rewrite wrap_sub.
  all: repeat match goal with
              | |- context [wrap ?e] => rewrite (wrap_small e) by lia
              end.
  all: reflexivity.
Qed.

(** The three public functions: the second integer is encoded to, or
    decoded from, what is left of a buffer in the address space. *)
Lemma ecdsa_rs_to_asn1_wrap_eq (r s : ptr) (rs_len : N) (asn_sig : ptr)
    (cap : N) (st : state) :
  in_space r rs_len -> in_space s rs_len -> in_space asn_sig cap ->
  ecdsa_rs_to_asn1_wrap r s rs_len asn_sig (Some cap) st =
  ecdsa_rs_to_asn1 r s rs_len asn_sig (Some cap) st.
Proof.
  intros Hr Hs Ha.
  unfold ecdsa_rs_to_asn1_wrap, ecdsa_rs_to_asn1.
  destruct ((r =? NULL) || (s =? NULL) || (asn_sig =? NULL)); [reflexivity|].
  unfold bind. rewrite encode_der_integer_wrap_eq by assumption.
  destruct (N.eq_dec rs_len 0) as [->|Hlen]; [reflexivity|].
  destruct (encode_der_integer_run r rs_len asn_sig cap st Hlen)
    as [s1 [Hrun _]].
  cbv zeta in Hrun. rewrite Hrun. clear Hrun.
  set (n := N.of_nat _).
  destruct (N.leb_spec (2 + n) cap) as [Hfit|]; cbn [andb]; [|reflexivity].
  destruct (n <=? 127)%N; [|reflexivity].
  destruct (N.eqb_spec (2 + n) 0); [reflexivity|].
  rewrite (in_space_wrap asn_sig cap) by assumption.
  rewrite size_sub_le by exact Hfit.
  rewrite encode_der_integer_wrap_eq;
    [reflexivity | assumption | now apply in_space_tail].
Qed.

Lemma asn1_to_ecdsa_rs_sep_wrap_eq (asn1 : ptr) (asn1_len : N) (r : ptr)
    (r_cap : N) (s : ptr) (s_cap : N) (st : state) :
  in_space asn1 asn1_len -> in_space r r_cap -> in_space s s_cap ->
  asn1_to_ecdsa_rs_sep_wrap asn1 asn1_len r (Some r_cap) s (Some s_cap) st =
  asn1_to_ecdsa_rs_sep asn1 asn1_len r (Some r_cap) s (Some s_cap) st.
Proof.
  intros Ha Hr Hs.
  unfold asn1_to_ecdsa_rs_sep_wrap, asn1_to_ecdsa_rs_sep.
  destruct ((asn1 =? NULL) || (r =? NULL) || (s =? NULL)); [reflexivity|].
  unfold bind. rewrite decode_asn1_uint_wrap_eq by assumption.
  destruct (decode_asn1_uint_run asn1 asn1_len r r_cap st) as [s1 [Hrun _]].
  cbv zeta in Hrun. rewrite Hrun. clear Hrun.
  destruct (tlv_accepted (st_mem st) asn1 asn1_len r_cap) eqn:Eok;
    [|reflexivity].
  apply tlv_accepted_inv in Eok. destruct Eok as [_ [_ [_ [Hend _]]]].
  destruct (N.eqb_spec (2 + u8 (st_mem st (asn1 + 1))) 0); [reflexivity|].
  rewrite (in_space_wrap asn1 asn1_len) by assumption.
  rewrite size_sub_le by exact Hend.
  rewrite decode_asn1_uint_wrap_eq;
    [reflexivity | now apply in_space_tail | assumption].
Qed.

Lemma asn1_to_ecdsa_rs_wrap_eq (asn1 : ptr) (asn1_len : N) (rs : ptr)
    (rs_len : N) (st : state) :
  in_space asn1 asn1_len -> in_space rs rs_len ->
  asn1_to_ecdsa_rs_wrap asn1 asn1_len rs rs_len st =
  asn1_to_ecdsa_rs asn1 asn1_len rs rs_len st.
Proof.
  intros Ha Hrs.
  unfold asn1_to_ecdsa_rs_wrap, asn1_to_ecdsa_rs.
  destruct ((asn1 =? NULL) || (rs =? NULL) || (rs_len =? 0)%N); [reflexivity|].
  destruct (negb (rs_len mod 2 =? 0)%N); [reflexivity|].
  cbv zeta. unfold bind.
  assert (Hhalf : (2 * (rs_len / 2) <= rs_len)%N)
    by (apply N.Div0.mul_div_le).
  rewrite (in_space_wrap rs rs_len) by (assumption || lia).
  rewrite asn1_to_ecdsa_rs_sep_wrap_eq; [reflexivity | assumption | |].
  - apply (in_space_head rs rs_len); [assumption | lia].
  - unfold in_space in *. unfold DER_TLV_MAX_LEN, DER_INTEGER_MAX_LEN in *.
    set (h := (rs_len / 2)%N) in *. clearbody h. split; lia.
Qed.

(** What the integer functions return is within the lengths they are
    given, so that what follows a TLV in a buffer in the address space is
    in the address space. *)
Lemma encode_der_integer_within (data : ptr) (data_len : N) (out : ptr)
    (cap : N) (s : state) :
  (fst (encode_der_integer data data_len out cap s) <= cap)%N.
Proof.
  destruct (N.eq_dec data_len 0) as [->|Hlen].
  - rewrite encode_der_integer_empty. cbn [fst]. lia.
  - destruct (encode_der_integer_run data data_len out cap s Hlen)
      as [s1 [Hrun _]].
    cbv zeta in Hrun. rewrite Hrun. cbn [fst].
    destruct (N.leb_spec
                (2 + N.of_nat (length (der_value
                   (bytes_at (st_mem s) data (N.to_nat data_len))))) cap);
      cbn [andb]; [destruct (_ <=? _)%N|]; lia.
Qed.

Lemma decode_asn1_uint_within (asn1 : ptr) (asn1_len : N) (out : ptr)
    (cap : N) (s : state) :
  (fst (fst (decode_asn1_uint asn1 asn1_len out cap s)) <= asn1_len)%N.
Proof.
  destruct (decode_asn1_uint_run asn1 asn1_len out cap s) as [s1 [Hrun _]].
  cbv zeta in Hrun. rewrite Hrun.
  destruct (tlv_accepted (st_mem s) asn1 asn1_len cap) eqn:Eok; cbn [fst].
  - apply tlv_accepted_inv in Eok. lia.
  - lia.
Qed.

Lemma in_space_not_null (base : ptr) (len : N) :
  in_space base len -> base <> NULL.
Proof. unfold in_space, NULL. lia. Qed.

(** Closing a goal [in_space base len] on numbers. *)
Ltac in_space_ok :=
  unfold in_space, ptr_mod, DER_TLV_MAX_LEN, DER_INTEGER_MAX_LEN; lia.

(** Outside these buffers the two arithmetics differ.  With a capacity of
    [2^32 - 1] the last address of the output buffer wraps around to
    [out_buf - 2] and the encoder refuses every integer; with an input
    length of [2^32 - 1] the end of the input wraps around to [asn1 - 1]
    and the decoder refuses every TLV. *)
Example encode_der_integer_wrap_over_the_top :
  let s := state_of [(1000, int_one)] in
  fst (encode_der_integer_wrap 1000 32 2000 4294967295 s) = 0%N
  /\ fst (encode_der_integer 1000 32 2000 4294967295 s) = 3%N.
Proof. split; vm_compute; reflexivity. Qed.

Example decode_asn1_uint_wrap_over_the_top :
  let s := state_of [(2000, tlv_redundant)] in
  fst (decode_asn1_uint_wrap 2000 4294967295 3000 4 s) = (0%N, 4%N)
  /\ fst (decode_asn1_uint 2000 4294967295 3000 4 s) = (4%N, 1%N).
Proof. split; vm_compute; reflexivity. Qed.

(** ** The two integer functions *)

(** [C6] Atomicity on failure.  When the integer encoder returns 0 the
    memory is the one before the call and no byte was written; when the
    integer decoder returns 0 the memory is the one before the call, no
    byte was written and the output-length cell holds what it held. *)
Theorem failure_leaves_output_untouched :
  forall (data : ptr) (data_len : N) (out_buf : ptr) (out_buf_len : N)
         (asn1 : ptr) (asn1_len : N) (out_int : ptr) (out_int_len : N)
         (s : state),
    let enc := encode_der_integer data data_len out_buf out_buf_len s in
    let dec := decode_asn1_uint asn1 asn1_len out_int out_int_len s in
    (fst enc = 0%N ->
       st_mem (snd enc) = st_mem s
       /\ accesses (region data data_len) no_access s (snd enc))
    /\
    (fst (fst dec) = 0%N ->
       st_mem (snd dec) = st_mem s
       /\ snd (fst dec) = out_int_len
       /\ accesses (region asn1 asn1_len) no_access s (snd dec)).
Proof.
  intros. subst enc dec. split.
  - destruct (N.eq_dec data_len 0) as [->|Hlen].
    + rewrite encode_der_integer_empty. cbn [fst snd]. intros _.
      split; [reflexivity | apply accesses_refl].
    + destruct (encode_der_integer_run data data_len out_buf out_buf_len s Hlen)
        as [s1 [Hrun [Hmem Hacc]]].
      cbv zeta in Hrun, Hmem, Hacc. rewrite Hrun. cbn [fst snd].
      revert Hmem Hacc. destruct (_ && _)%bool; intros; [lia|]. now split.
  - destruct (decode_asn1_uint_run asn1 asn1_len out_int out_int_len s)
      as [s1 [Hrun [Hmem Hacc]]].
    cbv zeta in Hrun, Hmem, Hacc. rewrite Hrun.
    revert Hmem Hacc. destruct (tlv_accepted _ _ _ _); cbn [fst snd]; intros.
    + lia.
    + now repeat split.
Qed.

(** [C2] Bounds safety.  On buffers in the address space, whatever they
    hold and whatever their lengths: the integer encoder writes only inside
    the [out_buf_len] bytes of its output buffer (and reads only its data),
    and returns 0 when the TLV is larger than the buffer; the integer
    decoder reads only inside the [asn1_len] bytes of its input and writes
    only inside the [out_int_len] bytes of its output buffer.  (The
    functions with 32-bit pointers.) *)
Theorem codec_stays_in_bounds :
  forall (data : ptr) (data_len : N) (out_buf : ptr) (out_buf_len : N)
         (asn1 : ptr) (asn1_len : N) (out_int : ptr) (out_int_len : N)
         (s : state),
    in_space data data_len -> in_space out_buf out_buf_len ->
    in_space asn1 asn1_len -> in_space out_int out_int_len ->
    let enc := encode_der_integer_wrap data data_len out_buf out_buf_len s in
    let dec := decode_asn1_uint_wrap asn1 asn1_len out_int out_int_len s in
    let v := bytes_at (st_mem s) data (N.to_nat data_len) in
    accesses (region data data_len) (region out_buf out_buf_len) s (snd enc)
    /\ ((out_buf_len < 2 + N.of_nat (length (der_value v)))%N -> fst enc = 0%N)
    /\ accesses (region asn1 asn1_len) (region out_int out_int_len) s (snd dec).
Proof.
  intros data data_len out_buf out_buf_len asn1 asn1_len out_int out_int_len
    s Hsd Hso Hsa Hsi.
  rewrite (encode_der_integer_wrap_eq data data_len out_buf out_buf_len s
             Hsd Hso).
  rewrite (decode_asn1_uint_wrap_eq asn1 asn1_len out_int out_int_len s
             Hsa Hsi).
  intros. subst enc dec v. split; [|split].
  - destruct (N.eq_dec data_len 0) as [->|Hlen].
    + rewrite encode_der_integer_empty. apply accesses_refl.
    + destruct (encode_der_integer_run data data_len out_buf out_buf_len s Hlen)
        as [s1 [Hrun [_ Hacc]]].
      cbv zeta in Hrun, Hacc. rewrite Hrun. cbn [snd].
      eapply accesses_weaken; [| |exact Hacc]; [auto|].
      set (n := N.of_nat _).
      destruct (N.leb_spec (2 + n) out_buf_len) as [Hfit|_]; cbn [andb];
        [destruct (n <=? 127)%N|]; unfold region, no_access; intros a; lia.
  - intros Hsmall.
    destruct (N.eq_dec data_len 0) as [->|Hlen].
    + now rewrite encode_der_integer_empty.
    + destruct (encode_der_integer_run data data_len out_buf out_buf_len s Hlen)
        as [s1 [Hrun _]].
      cbv zeta in Hrun. rewrite Hrun. cbn [fst].
      destruct (N.leb_spec
                  (2 + N.of_nat (length (der_value
                     (bytes_at (st_mem s) data (N.to_nat data_len)))))
                  out_buf_len); [lia | reflexivity].
  - destruct (decode_asn1_uint_run asn1 asn1_len out_int out_int_len s)
      as [s1 [Hrun [_ Hacc]]].
    cbv zeta in Hrun, Hacc. rewrite Hrun. cbn [snd].
    eapply accesses_weaken; [| |exact Hacc]; [auto|].
    destruct (tlv_accepted _ _ _ _); [auto | unfold no_access; tauto].
Qed.

(** [C4] Decoder rejection.  The integer decoder returns 0 when fewer than
    3 bytes of input are available, when the tag byte is not 0x02, when the
    length byte is 0 or more than 127, when the value field ends after the
    input, when the value field starts with two bytes 0x00, and when the
    integer without its stuffing byte is wider than the output buffer. *)
Theorem decode_rejects :
  forall (asn1 : ptr) (asn1_len : N) (out_int : ptr) (out_int_len : N)
         (s : state),
    let m := st_mem s in
    let len := u8 (m (asn1 + 1)) in
    (asn1_len < 3)%N
    \/ m asn1 <> x02
    \/ len = 0%N
    \/ (127 < len)%N
    \/ (asn1_len < 2 + len)%N
    \/ ((2 <= len)%N /\ m (asn1 + 2) = x00 /\ m (asn1 + 3) = x00)
    \/ (out_int_len < stripped_width m asn1)%N ->
    fst (fst (decode_asn1_uint asn1 asn1_len out_int out_int_len s)) = 0%N.
Proof.
  intros asn1 asn1_len out_int out_int_len s m len Hbad.
  destruct (decode_asn1_uint_run asn1 asn1_len out_int out_int_len s)
    as [s1 [Hrun _]].
  cbv zeta in Hrun. rewrite Hrun. fold m.
  destruct (tlv_accepted m asn1 asn1_len out_int_len) eqn:Eok;
    [|reflexivity].
  exfalso. apply tlv_accepted_inv in Eok.
  destruct Eok as [H3 [Htag [HL [Hend [Hw Hzz]]]]]. fold len in HL, Hend, Hzz.
  destruct Hbad as [H|[H|[H|[H|[H|[H|H]]]]]];
    try lia; try contradiction.
Qed.

(** [C5] Consumed bytes.  When the integer decoder succeeds, its result is
    2 plus the length byte of the TLV, whether a stuffing byte was removed
    or not, and the TLV of this size lies within the input. *)
Theorem decode_consumed :
  forall (asn1 : ptr) (asn1_len : N) (out_int : ptr) (out_int_len : N)
         (s : state),
    let consumed :=
      fst (fst (decode_asn1_uint asn1 asn1_len out_int out_int_len s)) in
    consumed <> 0%N ->
    (consumed = 2 + u8 (st_mem s (asn1 + 1)%Z))%N
    /\ (consumed <= asn1_len)%N.
Proof.
  intros asn1 asn1_len out_int out_int_len s consumed. subst consumed.
  destruct (decode_asn1_uint_run asn1 asn1_len out_int out_int_len s)
    as [s1 [Hrun _]].
  cbv zeta in Hrun. rewrite Hrun.
  destruct (tlv_accepted _ _ _ _) eqn:Eok; cbn [fst]; intros Hne;
    [|contradiction].
  apply tlv_accepted_inv in Eok. split; [reflexivity | tauto].
Qed.

(** The integer of a TLV ends where its value field ends. *)
Lemma integer_start_end (m : mem) (asn1 : ptr) :
  (1 <= u8 (m (asn1 + 1)%Z))%N ->
  integer_start m asn1 + Z.of_N (stripped_width m asn1) =
  asn1 + 2 + Z.of_N (u8 (m (asn1 + 1))).
Proof.
  intros H. unfold integer_start, stripped_width, stuffed.
  repeat split_bool; lia.
Qed.

(** The output buffer after a successful decoding: zeros, then the bytes
    found at [src] once the zeros were written. *)
Lemma decoded_mem_bytes (m : mem) (out : ptr) (cap : N) (src : ptr) (n : N) :
  (n <= cap)%N ->
  let pad := N.to_nat (cap - n) in
  bytes_at (decoded_mem m out cap src n) out pad = repeat x00 pad
  /\ bytes_at (decoded_mem m out cap src n) (out + Z.of_N (cap - n)) (N.to_nat n)
     = bytes_at (write_bytes m out (repeat x00 pad)) src (N.to_nat n).
Proof.
  intros Hn pad. unfold decoded_mem. fold pad. split.
  - rewrite bytes_at_write_bytes_out by (unfold pad; lia).
    rewrite <- (repeat_length x00 pad) at 2.
    apply bytes_at_write_bytes.
  - set (l := bytes_at _ src _).
    replace (N.to_nat n) with (length l) by apply bytes_at_length.
    apply bytes_at_write_bytes.
Qed.

(** [C7] Decoder success.  When the integer decoder succeeds on an input
    and an output buffer of [c] bytes that do not overlap, with [n] the
    width of the integer without its stuffing byte: [n <= c], the first
    [c - n] bytes of the output buffer are 0x00, its last [n] bytes are the
    bytes of the integer in their order, and the length cell holds [n]. *)
Theorem decode_success_output :
  forall (asn1 : ptr) (asn1_len : N) (out_int : ptr) (c : N) (s : state),
    separate asn1 asn1_len out_int c ->
    let dec := decode_asn1_uint asn1 asn1_len out_int c s in
    let n := stripped_width (st_mem s) asn1 in
    fst (fst dec) <> 0%N ->
    (n <= c)%N
    /\ snd (fst dec) = n
    /\ bytes_at (st_mem (snd dec)) out_int (N.to_nat (c - n))
       = repeat x00 (N.to_nat (c - n))
    /\ bytes_at (st_mem (snd dec)) (out_int + Z.of_N (c - n)) (N.to_nat n)
       = bytes_at (st_mem s) (integer_start (st_mem s) asn1) (N.to_nat n).
Proof.
  intros asn1 asn1_len out_int c s Hsep dec n. subst dec.
  destruct (decode_asn1_uint_run asn1 asn1_len out_int c s)
    as [s1 [Hrun [Hmem _]]].
  cbv zeta in Hrun, Hmem. rewrite Hrun. fold n in Hmem |- *.
  revert Hmem.
  destruct (tlv_accepted _ _ _ _) eqn:Eok; cbn [fst snd]; intros Hmem Hne;
    [|contradiction].
  apply tlv_accepted_inv in Eok.
  destruct Eok as [H3 [Htag [HL [Hend [Hw Hzz]]]]]. fold n in Hw.
  pose proof (integer_start_end (st_mem s) asn1 (proj1 HL)) as Hsrc.
  fold n in Hsrc.
  destruct (decoded_mem_bytes (st_mem s) out_int c
              (integer_start (st_mem s) asn1) n (proj2 Hw)) as [Hpad Hcopy].
  cbv zeta in Hpad, Hcopy. rewrite Hmem.
  repeat split; try tauto; try assumption.
  rewrite Hcopy. apply bytes_at_write_bytes_out.
  rewrite repeat_length. unfold separate in Hsep. lia.
Qed.

(** ** Encoding, then decoding *)

Lemma der_value_length (v : list byte) :
  length (der_value v) =
  ((if needs_stuffing (strip_zeros v) then 1 else 0) + length (strip_zeros v))%nat.
Proof. unfold der_value. now destruct (needs_stuffing _). Qed.

(** The TLV of a non-empty integer passes the checks of the decoder
    whenever the stripped integer fits the output buffer; the decoder finds
    the stripped integer in it. *)
Lemma der_tlv_decodable (m : mem) (out : ptr) (v : list byte) (cap : N) :
  v <> [] ->
  (length (der_value v) <= 127)%nat ->
  bytes_at m out (length (der_tlv v)) = der_tlv v ->
  (N.of_nat (length (strip_zeros v)) <= cap)%N ->
  u8 (m (out + 1)) = N.of_nat (length (der_value v))
  /\ tlv_accepted m out (N.of_nat (length (der_tlv v))) cap = true
  /\ stripped_width m out = N.of_nat (length (strip_zeros v))
  /\ bytes_at m (integer_start m out) (length (strip_zeros v)) = strip_zeros v.
Proof.
  intros Hne Hlen Hb Hcap.
  pose proof (strip_zeros_length_pos v Hne) as Hpos.
  pose proof (strip_zeros_minimal v) as Hmin.
  unfold der_tlv in Hb |- *. unfold der_value in Hb, Hlen |- *.
  destruct (strip_zeros v) as [|b t] eqn:Ep; [simpl in Hpos; lia|].
  cbn [needs_stuffing] in Hb, Hlen |- *.
  unfold tlv_accepted, stripped_width, integer_start, stuffed. cbv zeta.
  destruct (high_bit b) eqn:Ehb.
  - (* stuffing byte, then a byte with its high bit set *)
    cbn [length] in Hb, Hlen, Hcap |- *. cbn [bytes_at] in Hb.
    apply cons_inj in Hb as [Htag Hb]. apply cons_inj in Hb as [Hl Hb].
    apply cons_inj in Hb as [H2 Hb]. apply cons_inj in Hb as [H3 Hrest].
    replace (out + 1 + 1) with (out + 2) in H2, H3, Hrest by lia.
    replace (out + 2 + 1) with (out + 3) in H3, Hrest by lia.
    split; [rewrite Hl; apply u8_to_u8_small; lia|].
    rewrite Htag, Hl, H2, H3.
    rewrite u8_to_u8_small by lia.
    change (u8 x02) with 2%N. change (u8 x00) with 0%N.
    assert (u8 b <> 0%N).
    { intros E. apply u8_zero in E. rewrite E in Ehb. discriminate. }
    repeat split_bool.
    repeat split; try reflexivity; try lia.
    cbn [bytes_at]. rewrite H3. f_equal. exact Hrest.
  - (* no stuffing byte *)
    cbn [length] in Hb, Hlen, Hcap |- *. cbn [bytes_at] in Hb.
    apply cons_inj in Hb as [Htag Hb]. apply cons_inj in Hb as [Hl Hb].
    apply cons_inj in Hb as [H2 Hrest].
    replace (out + 1 + 1) with (out + 2) in H2, Hrest by lia.
    split; [rewrite Hl; apply u8_to_u8_small; lia|].
    rewrite Htag, Hl, H2.
    rewrite u8_to_u8_small by lia.
    change (u8 x02) with 2%N.
    destruct t as [|b' t'].
    + cbn [length] in *. repeat split_bool.
      repeat split; try reflexivity; try lia.
      cbn [bytes_at]. now rewrite H2.
    + assert (u8 b <> 0%N).
      { intros E. apply u8_zero in E. exact (Hmin b b' t' eq_refl E). }
      cbn [length] in *.
      repeat split_bool.
      repeat split; try reflexivity; try lia.
      cbn [bytes_at]. rewrite H2. f_equal. exact Hrest.
Qed.

(** [C1] Round trip.  Take an unsigned integer of [w >= 1] bytes whose DER
    value field has at most 127 bytes, an output buffer that holds its TLV,
    and a second buffer of [w] bytes, the buffers in the address space and
    not overlapping.  The integer encoder succeeds and returns the size of
    the TLV; the integer decoder, run on the TLV with capacity [w],
    succeeds, consumes the whole TLV and leaves the original [w] bytes in
    the second buffer.  (The functions with 32-bit pointers.) *)
Theorem encode_decode_roundtrip :
  forall (data : ptr) (w : N) (tlv : ptr) (cap : N) (out_int : ptr)
         (s : state),
    in_space data w -> in_space tlv cap -> in_space out_int w ->
    (1 <= w)%N ->
    let v := bytes_at (st_mem s) data (N.to_nat w) in
    (length (der_value v) <= 127)%nat ->
    (2 + N.of_nat (length (der_value v)) <= cap)%N ->
    separate data w tlv cap ->
    separate tlv cap out_int w ->
    let enc := encode_der_integer_wrap data w tlv cap s in
    let dec := decode_asn1_uint_wrap tlv (fst enc) out_int w (snd enc) in
    fst enc = (2 + N.of_nat (length (der_value v)))%N
    /\ fst (fst dec) = fst enc
    /\ bytes_at (st_mem (snd dec)) out_int (N.to_nat w) = v.
Proof.
  intros data w tlv cap out_int s Hsd Hst Hso.
  rewrite (encode_der_integer_wrap_eq data w tlv cap s Hsd Hst).
  intros Hw v Hlen Hcap Hsep1 Hsep2 enc dec.
  assert (Edec : dec = decode_asn1_uint tlv (fst enc) out_int w (snd enc)).
  { apply decode_asn1_uint_wrap_eq; [|exact Hso].
    apply (in_space_head tlv cap); [exact Hst|].
    apply encode_der_integer_within. }
  rewrite Edec. clear Edec dec. subst enc.
  destruct (encode_der_integer_run data w tlv cap s) as [s1 [Hrun [Hmem _]]];
    [lia|].
  cbv zeta in Hrun, Hmem. fold v in Hrun, Hmem.
  set (n := N.of_nat (length (der_value v))) in *.
  assert (Hfits : ((2 + n <=? cap) && (n <=? 127))%N = true).
  { apply andb_true_iff. split; apply N.leb_le; unfold n; lia. }
  rewrite Hfits in Hrun, Hmem. rewrite Hrun. cbn [fst snd].
  assert (Hv : length v = N.to_nat w) by apply bytes_at_length.
  assert (Hne : v <> []) by (intros E; rewrite E in Hv; simpl in Hv; lia).
  pose proof (strip_zeros_length_le v) as Hle.
  assert (Htl : N.of_nat (length (der_tlv v)) = (2 + n)%N)
    by (unfold der_tlv, n; cbn [length]; lia).
  assert (Hb : bytes_at (st_mem s1) tlv (length (der_tlv v)) = der_tlv v).
  { rewrite <- (bytes_at_write_bytes (st_mem s) (der_tlv v) tlv) at 2.
    apply bytes_at_ext. intros x _. apply Hmem. }
  destruct (der_tlv_decodable (st_mem s1) tlv v w Hne Hlen Hb)
    as [HL [Hok [Hwidth Hint]]]; [lia|].
  rewrite Htl in Hok.
  destruct (decode_asn1_uint_run tlv (2 + n) out_int w s1)
    as [s2 [Hrun2 [Hmem2 _]]].
  cbv zeta in Hrun2, Hmem2. rewrite Hok in Hrun2, Hmem2.
  rewrite Hrun2. cbn [fst snd]. rewrite HL. fold n.
  split; [reflexivity|]. split; [reflexivity|].
  rewrite Hmem2, Hwidth.
  set (p := strip_zeros v) in *.
  destruct (decoded_mem_bytes (st_mem s1) out_int w
              (integer_start (st_mem s1) tlv) (N.of_nat (length p)))
    as [Hpad Hcopy]; [lia|].
  cbv zeta in Hpad, Hcopy. rewrite Nat2N.id in Hcopy.
  pose proof (integer_start_end (st_mem s1) tlv) as Hsrc.
  rewrite HL, Hwidth in Hsrc. fold p in Hsrc.
  pose proof (der_value_length v) as Hvl. fold p in Hvl.
  pose proof (strip_zeros_length_pos v Hne) as Hpos. fold p in Hpos.
  rewrite bytes_at_write_bytes_out in Hcopy
    by (rewrite repeat_length; unfold separate, n in *;
        destruct (needs_stuffing p); lia).
  rewrite Hint in Hcopy.
  replace (N.to_nat w)
    with (N.to_nat (w - N.of_nat (length p)) + length p)%nat by lia.
  rewrite bytes_at_app, Hpad.
  replace (Z.of_nat (N.to_nat (w - N.of_nat (length p))))
    with (Z.of_N (w - N.of_nat (length p))) by lia.
  rewrite Hcopy.
  replace (N.to_nat (w - N.of_nat (length p)))
    with (length v - length p)%nat by lia.
  symmetry. apply strip_zeros_pad.
Qed.

(** ** The value field the encoder produces *)

Lemma der_value_minimal (v : list byte) (t : list byte) :
  der_value v <> x00 :: x00 :: t.
Proof.
  unfold der_value.
  destruct (strip_zeros v) as [|b p] eqn:Ep; cbn [needs_stuffing].
  - discriminate.
  - destruct (high_bit b) eqn:Ehb.
    + intros H. apply cons_inj in H as [_ H]. apply cons_inj in H as [H _].
      rewrite H in Ehb. discriminate.
    + intros H. eapply strip_zeros_minimal; [|reflexivity].
      rewrite Ep. exact H.
Qed.

Lemma der_value_all_zero (v : list byte) :
  v <> [] -> Forall (eq x00) v -> der_value v = [x00].
Proof.
  intros Hne Hz. apply Forall_eq_repeat in Hz.
  destruct v as [|b v']; [contradiction|].
  cbn [length] in Hz. unfold der_value.
  rewrite Hz, strip_zeros_all_zero. reflexivity.
Qed.

(** [C3] Minimality and stuffing.  When the integer encoder succeeds on a
    non-empty integer [v] (the data and the output buffer not
    overlapping), it has written the tag 0x02, the length of the value
    field, and a value field that is the integer without its leading zeros
    (the last byte always kept), preceded by one byte 0x00 exactly when the
    first byte kept has its high bit set.  The value field never starts
    with two bytes 0x00, and it is the single byte 0x00 when all bytes of
    [v] are 0. *)
Theorem encode_value_minimal :
  forall (data : ptr) (data_len : N) (out_buf : ptr) (out_buf_len : N)
         (s : state),
    data_len <> 0%N ->
    separate data data_len out_buf out_buf_len ->
    let v := bytes_at (st_mem s) data (N.to_nat data_len) in
    let enc := encode_der_integer data data_len out_buf out_buf_len s in
    let value :=
      bytes_at (st_mem (snd enc)) (out_buf + 2) (N.to_nat (fst enc - 2)) in
    fst enc <> 0%N ->
    st_mem (snd enc) out_buf = x02
    /\ u8 (st_mem (snd enc) (out_buf + 1)) = (fst enc - 2)%N
    /\ (exists b t,
          strip_zeros v = b :: t
          /\ value = (if high_bit b then [x00] else []) ++ b :: t)
    /\ (forall t, value <> x00 :: x00 :: t)
    /\ (Forall (eq x00) v -> value = [x00]).
Proof.
  intros data data_len out_buf out_buf_len s Hlen Hsep v enc value.
  subst value enc.
  destruct (encode_der_integer_run data data_len out_buf out_buf_len s Hlen)
    as [s1 [Hrun [Hmem _]]].
  cbv zeta in Hrun, Hmem. fold v in Hrun, Hmem.
  set (n := N.of_nat (length (der_value v))) in *.
  rewrite Hrun. cbn [fst snd]. revert Hmem.
  destruct (N.leb_spec (2 + n) out_buf_len) as [Hfit|_]; cbn [andb];
    [destruct (N.leb_spec n 127) as [H127|_]|]; intros Hmem Hok;
    try contradiction.
  assert (Hb : bytes_at (st_mem s1) out_buf (length (der_tlv v)) = der_tlv v).
  { rewrite <- (bytes_at_write_bytes (st_mem s) (der_tlv v) out_buf) at 2.
    apply bytes_at_ext. intros x _. apply Hmem. }
  unfold der_tlv in Hb. cbn [length bytes_at] in Hb.
  apply cons_inj in Hb as [Htag Hb]. apply cons_inj in Hb as [Hl Hval].
  replace (out_buf + 1 + 1) with (out_buf + 2) in Hval by lia.
  replace (N.to_nat (2 + n - 2)) with (length (der_value v))
    by (unfold n; lia).
  rewrite Hval.
  assert (Hv : length v = N.to_nat data_len) by apply bytes_at_length.
  assert (Hne : v <> []) by (intros E; rewrite E in Hv; simpl in Hv; lia).
  split; [exact Htag|]. split.
  { rewrite Hl. fold n. rewrite u8_to_u8_small by lia. lia. }
  split.
  { pose proof (strip_zeros_length_pos v Hne) as Hpos.
    unfold der_value.
    destruct (strip_zeros v) as [|b t]; [simpl in Hpos; lia|].
    exists b, t. split; [reflexivity|]. cbn [needs_stuffing].
    now destruct (high_bit b). }
  split.
  { intros t. apply der_value_minimal. }
  { now apply der_value_all_zero. }
Qed.

(** ** The signature encoder *)

Lemma der_tlv_length (v : list byte) :
  N.of_nat (length (der_tlv v)) = (2 + N.of_nat (length (der_value v)))%N.
Proof. unfold der_tlv. cbn [length]. lia. Qed.

(** A successful call of the integer encoder: the TLV of the data is in
    the output buffer, within its capacity, and the rest of the memory is
    as before. *)
Lemma encode_der_integer_ok (data : ptr) (data_len : N) (out : ptr) (cap : N)
    (s : state) :
  let v := bytes_at (st_mem s) data (N.to_nat data_len) in
  let enc := encode_der_integer data data_len out cap s in
  fst enc <> 0%N ->
  fst enc = N.of_nat (length (der_tlv v))
  /\ (fst enc <= cap)%N /\ (3 <= fst enc <= 129)%N
  /\ bytes_at (st_mem (snd enc)) out (length (der_tlv v)) = der_tlv v
  /\ (forall x, x < out \/ out + Z.of_N (fst enc) <= x ->
                st_mem (snd enc) x = st_mem s x).
Proof.
  intros v enc. subst enc.
  destruct (N.eq_dec data_len 0) as [->|Hlen].
  { rewrite encode_der_integer_empty. cbn [fst]. contradiction. }
  destruct (encode_der_integer_run data data_len out cap s Hlen)
    as [s1 [Hrun [Hmem _]]].
  cbv zeta in Hrun, Hmem. fold v in Hrun, Hmem.
  rewrite Hrun. cbn [fst snd]. revert Hmem.
  set (n := N.of_nat (length (der_value v))).
  destruct (N.leb_spec (2 + n) cap) as [Hfit|_]; cbn [andb];
    [destruct (N.leb_spec n 127) as [H127|_]|]; intros Hmem Hok;
    try contradiction.
  assert (Hv : length v = N.to_nat data_len) by apply bytes_at_length.
  assert (Hne : v <> []) by (intros E; rewrite E in Hv; simpl in Hv; lia).
  pose proof (strip_zeros_length_pos v Hne) as Hpos.
  pose proof (der_value_length v) as Hvl.
  rewrite der_tlv_length. fold n.
  split; [reflexivity|]. split; [exact Hfit|].
  split; [unfold n; lia|]. split.
  - rewrite <- (bytes_at_write_bytes (st_mem s) (der_tlv v) out) at 2.
    apply bytes_at_ext. intros x _. apply Hmem.
  - intros x Hx. rewrite Hmem. apply write_bytes_out.
    pose proof (der_tlv_length v). fold n in H. lia.
Qed.

(** [C8] Signature encoder.  For [r] and [s] of [rs_len] bytes each and an
    output buffer of [cap] bytes, all in the address space (so not null),
    [r] and [s] not overlapping the output buffer, and a capacity cell
    holding [cap]: the signature encoder runs the integer encoder on [r] at
    offset 0 with capacity [cap], then on [s] at the offset that is the
    size of the TLV of [r], with what is left of the capacity.  It returns
    false and leaves the cell as it is when one of the two returns 0.
    Otherwise it returns true, the cell holds the sum of the two sizes, and
    the output buffer holds the TLV of [r] followed by the TLV of [s].  For
    [r] and [s] holding 31 bytes 0x00 and the byte 0x01, the output is
    02 01 01 02 01 01 and the cell holds 6.  (The functions with 32-bit
    pointers.) *)
Theorem ecdsa_rs_to_asn1_composition :
  forall (r s : ptr) (rs_len : N) (asn_sig : ptr) (cap : N) (st : state),
    in_space r rs_len -> in_space s rs_len -> in_space asn_sig cap ->
    separate r rs_len asn_sig cap ->
    separate s rs_len asn_sig cap ->
    let vr := bytes_at (st_mem st) r (N.to_nat rs_len) in
    let vs := bytes_at (st_mem st) s (N.to_nat rs_len) in
    let enc_r := encode_der_integer_wrap r rs_len asn_sig cap st in
    let n_r := fst enc_r in
    let enc_s :=
      encode_der_integer_wrap s rs_len (asn_sig + Z.of_N n_r) (cap - n_r)
        (snd enc_r) in
    let n_s := fst enc_s in
    let res := ecdsa_rs_to_asn1_wrap r s rs_len asn_sig (Some cap) st in
    (n_r = 0%N -> res = (false, Some cap, snd enc_r))
    /\ (n_r <> 0%N -> n_s = 0%N -> res = (false, Some cap, snd enc_s))
    /\ (n_r <> 0%N -> n_s <> 0%N ->
        res = (true, Some (n_r + n_s)%N, snd enc_s)
        /\ (n_r + n_s <= cap)%N
        /\ bytes_at (st_mem (snd res)) asn_sig (N.to_nat (n_r + n_s))
           = der_tlv vr ++ der_tlv vs)
    /\ (vr = repeat x00 31 ++ [x01] -> vs = repeat x00 31 ++ [x01] ->
        (6 <= cap)%N ->
        fst res = (true, Some 6%N)
        /\ bytes_at (st_mem (snd res)) asn_sig 6
           = [x02; x01; x01; x02; x01; x01]).
Proof.
  intros r s rs_len asn_sig cap st Hsr Hss Hsa.
  rewrite (encode_der_integer_wrap_eq r rs_len asn_sig cap st Hsr Hsa).
  rewrite (ecdsa_rs_to_asn1_wrap_eq r s rs_len asn_sig cap st Hsr Hss Hsa).
  pose proof (in_space_not_null _ _ Hsr) as Hr.
  pose proof (in_space_not_null _ _ Hss) as Hs.
  pose proof (in_space_not_null _ _ Hsa) as Hsig.
  intros Hsepr Hseps vr vs enc_r n_r.
  rewrite (encode_der_integer_wrap_eq s rs_len (asn_sig + Z.of_N n_r)
             (cap - n_r) (snd enc_r) Hss
             (in_space_tail _ _ _ Hsa (encode_der_integer_within _ _ _ _ _))).
  intros enc_s n_s res.
  assert (Hres : res =
            (if (n_r =? 0)%N then (false, Some cap, snd enc_r)
             else if (n_s =? 0)%N then (false, Some cap, snd enc_s)
             else (true, Some (n_r + n_s)%N, snd enc_s))
          /\ (n_r <> 0%N -> n_s <> 0%N ->
              (n_r + n_s <= cap)%N
              /\ n_r = N.of_nat (length (der_tlv vr))
              /\ n_s = N.of_nat (length (der_tlv vs))
              /\ bytes_at (st_mem (snd enc_s)) asn_sig (N.to_nat (n_r + n_s))
                 = der_tlv vr ++ der_tlv vs)).
  { subst res. unfold ecdsa_rs_to_asn1.
    destruct (Z.eqb_spec r NULL); [contradiction|].
    destruct (Z.eqb_spec s NULL); [contradiction|].
    destruct (Z.eqb_spec asn_sig NULL); [contradiction|].
    cbn [orb]. unfold bind at 1. fold enc_r.
    pose proof (encode_der_integer_ok r rs_len asn_sig cap st) as Hokr.
    cbv zeta in Hokr. fold enc_r vr in Hokr. fold n_r in Hokr.
    rewrite (surjective_pairing enc_r). fold n_r.
    destruct (N.eqb_spec n_r 0) as [E|Hnr].
    { split; [reflexivity | intros; contradiction]. }
    destruct (Hokr Hnr) as [Hlr [Hcapr [Hrange [Hbr Hframe]]]].
    rewrite size_sub_le by exact Hcapr.
    unfold bind at 1. fold enc_s.
    pose proof (encode_der_integer_ok s rs_len (asn_sig + Z.of_N n_r)
                  (cap - n_r) (snd enc_r)) as Hoks.
    cbv zeta in Hoks. fold enc_s in Hoks. fold n_s in Hoks.
    rewrite (surjective_pairing enc_s). fold n_s.
    destruct (N.eqb_spec n_s 0) as [E|Hns].
    { split; [reflexivity | intros; contradiction]. }
    destruct (Hoks Hns) as [Hls [Hcaps [Hranges [Hbs Hframes]]]].
    unfold ret. rewrite size_add_small by lia.
    split; [reflexivity|]. intros _ _.
    assert (Hvs : bytes_at (st_mem (snd enc_r)) s (N.to_nat rs_len) = vs).
    { apply bytes_at_ext. intros x Hx. apply Hframe.
      unfold separate in Hseps. lia. }
    rewrite Hvs in Hls, Hbs.
    split; [lia|]. split; [exact Hlr|]. split; [exact Hls|].
    replace (N.to_nat (n_r + n_s))
      with (length (der_tlv vr) + length (der_tlv vs))%nat by lia.
    rewrite bytes_at_app. f_equal.
    - etransitivity; [|exact Hbr].
      apply bytes_at_ext. intros x Hx. apply Hframes. lia.
    - etransitivity; [|exact Hbs]. f_equal. lia. }
  destruct Hres as [Hres Hbytes].
  split; [|split; [|split]].
  - intros E. rewrite Hres. now rewrite (proj2 (N.eqb_eq _ _) E).
  - intros Hnr E. rewrite Hres.
    rewrite (proj2 (N.eqb_neq _ _) Hnr). now rewrite (proj2 (N.eqb_eq _ _) E).
  - intros Hnr Hns. rewrite Hres.
    rewrite (proj2 (N.eqb_neq _ _) Hnr), (proj2 (N.eqb_neq _ _) Hns).
    cbn [snd]. destruct (Hbytes Hnr Hns) as [Hle [_ [_ Hb]]]. now repeat split.
  - intros Evr Evs Hcap.
    assert (Hlen : rs_len = 32%N).
    { apply (f_equal (@length byte)) in Evr. unfold vr in Evr.
      rewrite bytes_at_length in Evr. simpl in Evr. lia. }
    assert (Hnr : n_r = 3%N).
    { unfold n_r, enc_r.
      destruct (encode_der_integer_run r rs_len asn_sig cap st) as [s1 [Hrun _]];
        [lia|].
      cbv zeta in Hrun. fold vr in Hrun. rewrite Evr in Hrun.
      rewrite Hrun. cbn [fst].
      change (N.of_nat (length (der_value (repeat x00 31 ++ [x01])))) with 1%N.
      destruct (N.leb_spec (2 + 1) cap); [reflexivity | lia]. }
    pose proof (encode_der_integer_ok r rs_len asn_sig cap st) as Hokr.
    cbv zeta in Hokr. fold enc_r in Hokr. fold n_r in Hokr.
    destruct Hokr as [_ [_ [_ [_ Hframe]]]]; [lia|].
    assert (Hns : n_s = 3%N).
    { unfold n_s, enc_s.
      destruct (encode_der_integer_run s rs_len (asn_sig + Z.of_N n_r)
                  (cap - n_r) (snd enc_r)) as [s1 [Hrun _]]; [lia|].
      cbv zeta in Hrun.
      replace (bytes_at (st_mem (snd enc_r)) s (N.to_nat rs_len)) with vs in Hrun.
      2:{ symmetry. apply bytes_at_ext. intros x Hx. apply Hframe.
          unfold separate in Hseps. lia. }
      rewrite Evs in Hrun. rewrite Hrun. cbn [fst].
      change (N.of_nat (length (der_value (repeat x00 31 ++ [x01])))) with 1%N.
      destruct (N.leb_spec (2 + 1) (cap - n_r)); [reflexivity | lia]. }
    destruct (Hbytes ltac:(lia) ltac:(lia)) as [_ [_ [_ Hb]]].
    rewrite Hres, Hnr, Hns. cbn [N.eqb fst snd].
    split; [reflexivity|].
    rewrite Hnr, Hns, Evr, Evs in Hb. exact Hb.
Qed.

(** ** The signature decoders *)

(** The integer decoder fails on an output buffer of no byte. *)
Lemma decode_asn1_uint_no_room (asn1 : ptr) (asn1_len : N) (out : ptr)
    (s : state) :
  exists s', decode_asn1_uint asn1 asn1_len out 0 s = (0%N, 0%N, s')
             /\ st_mem s' = st_mem s.
Proof.
  destruct (decode_asn1_uint_run asn1 asn1_len out 0 s) as [s1 [Hrun [Hmem _]]].
  cbv zeta in Hrun, Hmem. revert Hrun Hmem.
  destruct (tlv_accepted _ _ _ _) eqn:Eok; intros Hrun Hmem.
  - apply tlv_accepted_inv in Eok. lia.
  - exists s1. now split.
Qed.

(** [C9] Fixed split.  For an odd [rs_len] the fixed-split decoder returns
    false and the state is the one before the call: nothing was read or
    written.  For an even [rs_len] its result and the memory it leaves are
    those of the separate-length decoder called with [rs] and
    [rs + rs_len / 2] as the two buffers, both of capacity [rs_len / 2];
    unless [rs_len] is 0 it is this very call, access for access. *)
Theorem asn1_to_ecdsa_rs_fixed_split :
  forall (asn1 : ptr) (asn1_len : N) (rs : ptr) (rs_len : N) (s : state),
    let fixed := asn1_to_ecdsa_rs asn1 asn1_len rs rs_len s in
    let half := (rs_len / 2)%N in
    let sep :=
      asn1_to_ecdsa_rs_sep asn1 asn1_len rs (Some half)
        (rs + Z.of_N half) (Some half) s in
    ((rs_len mod 2)%N <> 0%N -> fixed = (false, s))
    /\ ((rs_len mod 2)%N = 0%N ->
        fst fixed = fst (fst (fst sep))
        /\ st_mem (snd fixed) = st_mem (snd sep)
        /\ (rs_len <> 0%N -> snd fixed = snd sep)).
Proof.
  intros asn1 asn1_len rs rs_len s fixed half sep. subst fixed.
  unfold asn1_to_ecdsa_rs. cbv zeta. fold half. fold sep.
  split.
  - intros Hodd.
    destruct ((asn1 =? NULL) || (rs =? NULL) || (rs_len =? 0)%N)%bool;
      [reflexivity|].
    destruct (N.eqb_spec (rs_len mod 2) 0); [contradiction | reflexivity].
  - intros Heven.
    destruct (Z.eqb_spec asn1 NULL) as [Ea|Ha]; cbn [orb].
    { subst sep. unfold asn1_to_ecdsa_rs_sep.
      rewrite (proj2 (Z.eqb_eq _ _) Ea). cbn [orb fst snd ret].
      unfold ret. cbn [fst snd]. repeat split. }
    destruct (Z.eqb_spec rs NULL) as [Er|Hr]; cbn [orb].
    { subst sep. unfold asn1_to_ecdsa_rs_sep.
      rewrite (proj2 (Z.eqb_eq _ _) Er). rewrite orb_true_r.
      unfold ret. cbn [orb fst snd]. repeat split. }
    destruct (N.eqb_spec rs_len 0) as [E0|H0].
    { (* no room in either half: the first decoding fails *)
      subst sep. unfold asn1_to_ecdsa_rs_sep.
      assert (half = 0%N) as -> by (unfold half; rewrite E0; reflexivity).
      rewrite (proj2 (Z.eqb_neq _ _) Ha), (proj2 (Z.eqb_neq _ _) Hr).
      cbn [orb]. unfold ret at 1. cbn [fst snd].
      destruct (decode_asn1_uint_no_room asn1 asn1_len rs s) as [s1 [Hrun Hmem]].
      destruct (rs + Z.of_N 0 =? NULL); [unfold ret; cbn; tauto|].
      unfold bind. cbn beta. rewrite Hrun. cbn [N.eqb]. unfold ret.
      cbn [fst snd].
      split; [reflexivity|]. split; [now symmetry | contradiction]. }
    rewrite (proj2 (N.eqb_eq _ _) Heven). cbn [negb].
    unfold bind. subst sep.
    destruct (asn1_to_ecdsa_rs_sep asn1 asn1_len rs (Some half)
                (rs + Z.of_N half) (Some half) s) as [[[ok rl] sl] s1].
    unfold ret. cbn [fst snd]. repeat split.
Qed.

(** [C10] Redundant stuffing is accepted.  On the TLV 02 02 00 01, whose
    byte 0x00 precedes a byte with a clear high bit, the integer decoder
    succeeds: it consumes the 4 bytes, drops the 0x00 and returns the
    one-byte integer 0x01.  The stuffing byte is redundant: the value field
    of the integer 0x01 is the byte 0x01 alone, and the value field 00 01
    passes because only two leading zero bytes are refused. *)
Theorem decode_accepts_redundant_stuffing :
  let s := state_of [(2000, tlv_redundant)] in
  let dec := decode_asn1_uint 2000 4 3000 1 s in
  high_bit x01 = false
  /\ der_value [x01] = [x01]
  /\ bytes_at (st_mem s) 2000 4 = [x02; x02; x00; x01]
  /\ fst dec = (4%N, 1%N)
  /\ bytes_at (st_mem (snd dec)) 3000 1 = [x01].
Proof. vm_compute. repeat split. Qed.

(** ** The properties at concrete inputs *)

(** The 32 bytes 0xFF are encoded with a stuffing byte (35 bytes) and
    decoded back. *)
Lemma encode_decode_roundtrip_witness :
  let s := state_of [(1000, int_ff)] in
  let enc := encode_der_integer_wrap 1000 32 2000 40 s in
  let dec := decode_asn1_uint_wrap 2000 (fst enc) 3000 32 (snd enc) in
  fst enc = 35%N
  /\ fst (fst dec) = fst enc
  /\ bytes_at (st_mem (snd dec)) 3000 32 = int_ff.
Proof.
  apply (encode_decode_roundtrip 1000 32 2000 40 3000
           (state_of [(1000, int_ff)])).
  - in_space_ok.
  - in_space_ok.
  - in_space_ok.
  - lia.
  - vm_compute. lia.
  - apply N.leb_le. vm_compute. reflexivity.
  - unfold separate. lia.
  - unfold separate. lia.
Defined.

(** An output buffer of 2 bytes is too small for the TLV of the integer 1:
    the encoder returns 0 and all accesses are in bounds. *)
Lemma codec_stays_in_bounds_witness :
  let s := state_of [(1000, int_one); (2000, tlv_redundant)] in
  let enc := encode_der_integer_wrap 1000 32 2000 2 s in
  let dec := decode_asn1_uint_wrap 2000 4 3000 1 s in
  accesses (region 1000 32) (region 2000 2) s (snd enc)
  /\ fst enc = 0%N
  /\ accesses (region 2000 4) (region 3000 1) s (snd dec).
Proof.
  destruct (codec_stays_in_bounds 1000 32 2000 2 2000 4 3000 1
              (state_of [(1000, int_one); (2000, tlv_redundant)]))
    as [He [Hf Hd]].
  - in_space_ok.
  - in_space_ok.
  - in_space_ok.
  - in_space_ok.
  - split; [exact He|]. split; [|exact Hd].
    apply Hf. vm_compute. reflexivity.
Defined.

(** The integer 2^256 - 1: tag, length 33, stuffing byte, 32 bytes. *)
Lemma encode_value_minimal_witness :
  let s := state_of [(1000, int_ff)] in
  let enc := encode_der_integer 1000 32 2000 40 s in
  st_mem (snd enc) 2000 = x02
  /\ u8 (st_mem (snd enc) 2001) = 33%N
  /\ bytes_at (st_mem (snd enc)) 2002 33 = x00 :: int_ff.
Proof.
  destruct (encode_value_minimal 1000 32 2000 40 (state_of [(1000, int_ff)]))
    as [Htag [Hl [[b [t [Ep Hv]]] _]]].
  - lia.
  - unfold separate. lia.
  - vm_compute. lia.
  - split; [exact Htag|]. split; [exact Hl|].
    vm_compute in Ep. apply cons_inj in Ep as [<- <-]. exact Hv.
Defined.

(** The TLV 02 03 00 00 01 is rejected. *)
Lemma decode_rejects_witness :
  fst (fst (decode_asn1_uint 2000 5 3000 32
              (state_of [(2000, tlv_two_zeros)]))) = 0%N.
Proof.
  apply decode_rejects.
  do 5 right. left.
  split; [apply N.leb_le; vm_compute; reflexivity|].
  split; vm_compute; reflexivity.
Defined.

(** The TLV 02 02 00 01 takes 4 bytes of the input. *)
Lemma decode_consumed_witness :
  let consumed :=
    fst (fst (decode_asn1_uint 2000 4 3000 32
                (state_of [(2000, tlv_redundant)]))) in
  consumed = 4%N /\ (consumed <= 4)%N.
Proof.
  apply (decode_consumed 2000 4 3000 32 (state_of [(2000, tlv_redundant)])).
  vm_compute. lia.
Defined.

(** A failed encoding and a failed decoding leave the memory as it was. *)
Lemma failure_leaves_output_untouched_witness :
  let s := state_of [(1000, int_one); (2000, tlv_two_zeros)] in
  let enc := encode_der_integer 1000 32 3000 2 s in
  let dec := decode_asn1_uint 2000 5 3000 32 s in
  (st_mem (snd enc) = st_mem s
   /\ accesses (region 1000 32) no_access s (snd enc))
  /\ (st_mem (snd dec) = st_mem s
      /\ snd (fst dec) = 32%N
      /\ accesses (region 2000 5) no_access s (snd dec)).
Proof.
  destruct (failure_leaves_output_untouched 1000 32 3000 2 2000 5 3000 32
              (state_of [(1000, int_one); (2000, tlv_two_zeros)]))
    as [He Hd].
  split.
  - apply He. vm_compute. reflexivity.
  - apply Hd. vm_compute. reflexivity.
Defined.

(** The TLV 02 02 00 01 decoded into 4 bytes: 00 00 00 01, width 1. *)
Lemma decode_success_output_witness :
  let s := state_of [(2000, tlv_redundant)] in
  let dec := decode_asn1_uint 2000 4 3000 4 s in
  (1 <= 4)%N
  /\ snd (fst dec) = 1%N
  /\ bytes_at (st_mem (snd dec)) 3000 3 = [x00; x00; x00]
  /\ bytes_at (st_mem (snd dec)) 3003 1 = [x01].
Proof.
  apply (decode_success_output 2000 4 3000 4 (state_of [(2000, tlv_redundant)])).
  - unfold separate. lia.
  - vm_compute. lia.
Defined.

(** The signature (1, 1) of two 32-byte integers: 02 01 01 02 01 01. *)
Lemma ecdsa_rs_to_asn1_composition_witness :
  let st := state_of [(1000, int_one)] in
  let res := ecdsa_rs_to_asn1_wrap 1000 1000 32 2000 (Some 72%N) st in
  fst res = (true, Some 6%N)
  /\ bytes_at (st_mem (snd res)) 2000 6 = sig_one_one.
Proof.
  destruct (ecdsa_rs_to_asn1_composition 1000 1000 32 2000 72
              (state_of [(1000, int_one)])) as [_ [_ [_ H]]].
  - in_space_ok.
  - in_space_ok.
  - in_space_ok.
  - unfold separate. lia.
  - unfold separate. lia.
  - apply H.
    + vm_compute. reflexivity.
    + vm_compute. reflexivity.
    + lia.
Defined.

(** The signature 02 01 01 02 01 01 decoded into 63 bytes (refused) and
    into 64 bytes (as the separate-length decoder does with 32 and 32). *)
Lemma asn1_to_ecdsa_rs_fixed_split_witness :
  let s := state_of [(2000, sig_one_one)] in
  let sep :=
    asn1_to_ecdsa_rs_sep 2000 6 3000 (Some 32%N) 3032 (Some 32%N) s in
  asn1_to_ecdsa_rs 2000 6 3000 63 s = (false, s)
  /\ fst (asn1_to_ecdsa_rs 2000 6 3000 64 s) = fst (fst (fst sep))
  /\ snd (asn1_to_ecdsa_rs 2000 6 3000 64 s) = snd sep.
Proof.
  split.
  - apply (asn1_to_ecdsa_rs_fixed_split 2000 6 3000 63
             (state_of [(2000, sig_one_one)])).
    vm_compute. lia.
  - destruct (asn1_to_ecdsa_rs_fixed_split 2000 6 3000 64
                (state_of [(2000, sig_one_one)])) as [_ H].
    destruct H as [Hres [_ Hst]].
    + vm_compute. reflexivity.
    + split; [exact Hres|]. apply Hst. lia.
Defined.

(** * Further properties *)

(** ** Helpers *)

Lemma accesses_trans (R W : ptr -> Prop) (s1 s2 s3 : state) :
  accesses R W s1 s2 -> accesses R W s2 s3 -> accesses R W s1 s3.
Proof.
  intros [n1 [E1 F1]] [n2 [E2 F2]]. exists (n2 ++ n1). split.
  - rewrite E2, E1. now rewrite app_assoc.
  - apply Forall_app. now split.
Qed.

Lemma to_u8_u8 (b : byte) : to_u8 (u8 b) = b.
Proof.
  apply u8_inj. apply u8_to_u8_small.
  pose proof (u8_bound b). lia.
Qed.

(** The width of the value field of an integer of [w >= 1] bytes. *)
Lemma der_value_length_bounds (v : list byte) :
  v <> [] -> (1 <= length (der_value v) <= length v + 1)%nat.
Proof.
  intros Hne.
  pose proof (strip_zeros_length_pos v Hne).
  pose proof (strip_zeros_length_le v).
  rewrite der_value_length. destruct (needs_stuffing _); lia.
Qed.

(** The checks of the decoder, the other way round. *)
Lemma tlv_accepted_intro (m : mem) (asn1 : ptr) (asn1_len cap : N) :
  (3 <= asn1_len)%N -> m asn1 = x02 ->
  (1 <= u8 (m (asn1 + 1)%Z) <= 127)%N ->
  (2 + u8 (m (asn1 + 1)%Z) <= asn1_len)%N ->
  ~ ((2 <= u8 (m (asn1 + 1)%Z))%N /\ m (asn1 + 2) = x00 /\ m (asn1 + 3) = x00) ->
  (stripped_width m asn1 <= cap)%N ->
  tlv_accepted m asn1 asn1_len cap = true.
Proof.
  intros H3 Htag HL Hend Hzz Hw.
  assert (Hzz' : ~ ((2 <= u8 (m (asn1 + 1)%Z))%N
                    /\ u8 (m (asn1 + 2)) = 0%N /\ u8 (m (asn1 + 3)) = 0%N)).
  { intros [Ha [Hb Hc]]. apply Hzz. repeat split; [exact Ha | |]; now apply u8_zero. }
  clear Hzz. revert Hw.
  unfold tlv_accepted, stripped_width, stuffed. cbv zeta.
  rewrite Htag. change (u8 x02) with 2%N.
  repeat split_bool; intros; try reflexivity; lia.
Qed.

Lemma tlv_accepted_mono (m : mem) (asn1 : ptr) (asn1_len asn1_len' cap cap' : N) :
  tlv_accepted m asn1 asn1_len cap = true ->
  (asn1_len <= asn1_len')%N -> (cap <= cap')%N ->
  tlv_accepted m asn1 asn1_len' cap' = true.
Proof.
  intros H Hl Hc. apply tlv_accepted_inv in H.
  destruct H as [H3 [Htag [HL [Hend [Hw Hzz]]]]].
  apply tlv_accepted_intro; try assumption; lia.
Qed.

(** ** When the integer encoder and decoder succeed *)

(** The result of the integer encoder. *)
Lemma encode_der_integer_result (data : ptr) (data_len : N) (out : ptr)
    (cap : N) (s : state) :
  let n := N.of_nat (length (der_value
             (bytes_at (st_mem s) data (N.to_nat data_len)))) in
  fst (encode_der_integer data data_len out cap s) =
  if (negb (data_len =? 0) && (2 + n <=? cap) && (n <=? 127))%N
  then (2 + n)%N else 0%N.
Proof.
  intros n.
  destruct (N.eqb_spec data_len 0) as [->|Hlen].
  - reflexivity.
  - destruct (encode_der_integer_run data data_len out cap s Hlen)
      as [s1 [Hrun _]].
    cbv zeta in Hrun. rewrite Hrun. reflexivity.
Qed.

(** [X1] On buffers in the address space, the integer encoder succeeds
    exactly when there is at least one byte to encode, the value field has
    at most 127 bytes and the TLV fits the output buffer; its result is
    then the size of the TLV, between 3 and [data_len + 3].  (The function
    with 32-bit pointers.) *)
Theorem encode_der_integer_succeeds_iff :
  forall (data : ptr) (data_len : N) (out_buf : ptr) (out_buf_len : N)
         (s : state),
    in_space data data_len -> in_space out_buf out_buf_len ->
    let n := N.of_nat (length (der_value
               (bytes_at (st_mem s) data (N.to_nat data_len)))) in
    let res :=
      fst (encode_der_integer_wrap data data_len out_buf out_buf_len s) in
    (res <> 0%N <->
     data_len <> 0%N /\ (n <= 127)%N /\ (2 + n <= out_buf_len)%N)
    /\ (res <> 0%N -> res = (2 + n)%N /\ (3 <= res <= data_len + 3)%N).
Proof.
  intros data data_len out_buf out_buf_len s Hsd Hso.
  rewrite (encode_der_integer_wrap_eq data data_len out_buf out_buf_len s
             Hsd Hso).
  intros n res. subst res.
  rewrite encode_der_integer_result. fold n.
  assert (Hb : data_len <> 0%N -> (1 <= n <= data_len + 1)%N).
  { intros Hlen.
    pose proof (der_value_length_bounds
                  (bytes_at (st_mem s) data (N.to_nat data_len))) as Hb.
    rewrite bytes_at_length in Hb. fold n in Hb.
    assert (bytes_at (st_mem s) data (N.to_nat data_len) <> []) as Hne.
    { intros E. apply (f_equal (@length byte)) in E.
      rewrite bytes_at_length in E. simpl in E. lia. }
    specialize (Hb Hne). unfold n. lia. }
  destruct (N.eqb_spec data_len 0) as [E|Hlen]; cbn [negb andb].
  - split; [split; [contradiction | tauto] | contradiction].
  - specialize (Hb Hlen).
    destruct (N.leb_spec (2 + n) out_buf_len), (N.leb_spec n 127);
      cbn [andb]; (split; [split; intros; [try contradiction| try lia] | intros; try contradiction]);
      repeat split; try assumption; try lia.
Qed.

(** [X2] On buffers in the address space, the integer decoder succeeds
    exactly when none of its checks fails: at least 3 bytes of input, the
    tag 0x02, a length byte between 1 and 127, a value field within the
    input that does not start with two zero bytes, and an integer that,
    without its stuffing byte, fits the output buffer.  The width it
    reports is then between 1 and 127.  (The function with 32-bit
    pointers.) *)
Theorem decode_asn1_uint_succeeds_iff :
  forall (asn1 : ptr) (asn1_len : N) (out_int : ptr) (out_int_len : N)
         (s : state),
    in_space asn1 asn1_len -> in_space out_int out_int_len ->
    let m := st_mem s in
    let len := u8 (m (asn1 + 1)) in
    let dec := decode_asn1_uint_wrap asn1 asn1_len out_int out_int_len s in
    (fst (fst dec) <> 0%N <->
     (3 <= asn1_len)%N /\ m asn1 = x02 /\ (1 <= len <= 127)%N
     /\ (2 + len <= asn1_len)%N
     /\ ~ ((2 <= len)%N /\ m (asn1 + 2) = x00 /\ m (asn1 + 3) = x00)
     /\ (stripped_width m asn1 <= out_int_len)%N)
    /\ (fst (fst dec) <> 0%N ->
        snd (fst dec) = stripped_width m asn1
        /\ (1 <= snd (fst dec) <= 127)%N
        /\ (len - 1 <= snd (fst dec) <= len)%N).
Proof.
  intros asn1 asn1_len out_int out_int_len s Hsa Hso.
  rewrite (decode_asn1_uint_wrap_eq asn1 asn1_len out_int out_int_len s
             Hsa Hso).
  intros m len dec. subst dec.
  destruct (decode_asn1_uint_run asn1 asn1_len out_int out_int_len s)
    as [s1 [Hrun _]].
  cbv zeta in Hrun. fold m in Hrun. rewrite Hrun.
  destruct (tlv_accepted m asn1 asn1_len out_int_len) eqn:Eok; cbn [fst snd].
  - pose proof (tlv_accepted_inv _ _ _ _ Eok)
      as [H3 [Htag [HL [Hend [Hw Hzz]]]]].
    fold len in HL, Hend, Hzz |- *.
    assert (Hrange : (len - 1 <= stripped_width m asn1 <= len)%N).
    { unfold stripped_width. fold len. destruct (stuffed m asn1); lia. }
    split.
    + split; [intros _|intros _; lia]. repeat split; try assumption; lia.
    + intros _. repeat split; lia.
  - split; [|intros; contradiction].
    split; [intros; contradiction|].
    intros [H3 [Htag [HL [Hend [Hzz Hw]]]]].
    rewrite (tlv_accepted_intro m asn1 asn1_len out_int_len) in Eok;
      [discriminate | assumption ..].
Qed.

(** What a successful decoding leaves, for an output buffer that does not
    overlap the TLV: the integer of the TLV, padded with zeros on the left,
    in the output buffer, and the memory as it was everywhere else. *)
Lemma decode_asn1_uint_accepts (asn1 : ptr) (asn1_len : N) (out : ptr)
    (cap : N) (s : state) :
  let m := st_mem s in
  tlv_accepted m asn1 asn1_len cap = true ->
  separate asn1 (tlv_size m asn1) out cap ->
  exists s',
    decode_asn1_uint asn1 asn1_len out cap s =
      (tlv_size m asn1, stripped_width m asn1, s')
    /\ bytes_at (st_mem s') out (N.to_nat cap) = left_pad cap (tlv_integer m asn1)
    /\ (forall x, ~ region out cap x -> st_mem s' x = m x)
    /\ accesses (region asn1 asn1_len) (region out cap) s s'.
Proof.
  intros m Hok Hsep.
  destruct (decode_asn1_uint_run asn1 asn1_len out cap s)
    as [s1 [Hrun [Hmem Hacc]]].
  cbv zeta in Hrun, Hmem, Hacc. fold m in Hrun, Hmem, Hacc.
  rewrite Hok in Hrun, Hmem, Hacc.
  exists s1. split; [exact Hrun|].
  apply tlv_accepted_inv in Hok.
  destruct Hok as [H3 [Htag [HL [Hend [Hw Hzz]]]]].
  pose proof (integer_start_end m asn1 (proj1 HL)) as Hsrc.
  set (n := stripped_width m asn1) in *.
  destruct (decoded_mem_bytes m out cap (integer_start m asn1) n (proj2 Hw))
    as [Hpad Hcopy].
  cbv zeta in Hpad, Hcopy. rewrite <- Hmem in Hpad, Hcopy.
  rewrite bytes_at_write_bytes_out in Hcopy
    by (rewrite repeat_length; unfold separate, tlv_size in Hsep; lia).
  split; [|split; [|exact Hacc]].
  - unfold left_pad, tlv_integer. fold n. rewrite bytes_at_length.
    replace (N.to_nat cap) with (N.to_nat (cap - n) + N.to_nat n)%nat at 1 by lia.
    rewrite bytes_at_app, Hpad.
    replace (Z.of_nat (N.to_nat (cap - n))) with (Z.of_N (cap - n)) by lia.
    rewrite Hcopy. f_equal. f_equal. lia.
  - intros x Hx. rewrite Hmem. unfold decoded_mem, region in *.
    rewrite write_bytes_out by (rewrite bytes_at_length; lia).
    apply write_bytes_out. rewrite repeat_length. lia.
Qed.

(** [X3] The integer decoder does not look behind the TLV: once it succeeds on
    [asn1_len] bytes of input, it gives the same result and the same memory
    on any longer input in the address space, whatever follows the TLV.
    (The function with 32-bit pointers.) *)
Theorem decode_asn1_uint_ignores_trailing :
  forall (asn1 : ptr) (asn1_len asn1_len' : N) (out_int : ptr)
         (out_int_len : N) (s : state),
    in_space asn1 asn1_len' -> in_space out_int out_int_len ->
    (asn1_len <= asn1_len')%N ->
    let dec := decode_asn1_uint_wrap asn1 asn1_len out_int out_int_len s in
    let dec' := decode_asn1_uint_wrap asn1 asn1_len' out_int out_int_len s in
    fst (fst dec) <> 0%N ->
    fst dec' = fst dec /\ st_mem (snd dec') = st_mem (snd dec).
Proof.
  intros asn1 asn1_len asn1_len' out_int out_int_len s Hsa Hso Hle.
  rewrite (decode_asn1_uint_wrap_eq asn1 asn1_len out_int out_int_len s
             (in_space_head _ _ _ Hsa Hle) Hso).
  rewrite (decode_asn1_uint_wrap_eq asn1 asn1_len' out_int out_int_len s
             Hsa Hso).
  intros dec dec'. subst dec dec'.
  destruct (decode_asn1_uint_run asn1 asn1_len out_int out_int_len s)
    as [s1 [Hrun [Hmem _]]].
  destruct (decode_asn1_uint_run asn1 asn1_len' out_int out_int_len s)
    as [s2 [Hrun' [Hmem' _]]].
  cbv zeta in Hrun, Hmem, Hrun', Hmem'. rewrite Hrun, Hrun'.
  destruct (tlv_accepted (st_mem s) asn1 asn1_len out_int_len) eqn:Eok;
    cbn [fst snd]; intros Hne; [|contradiction].
  rewrite (tlv_accepted_mono _ _ _ asn1_len' _ out_int_len Eok Hle (N.le_refl _))
    in Hmem' |- *.
  cbn [fst snd]. split; [reflexivity | congruence].
Qed.

(** ** Decoding, then encoding *)

Lemma strip_zeros_zeros_app (k : nat) (b : byte) (t : list byte) :
  t = [] \/ u8 b <> 0%N ->
  strip_zeros (repeat x00 k ++ b :: t) = b :: t.
Proof.
  intros H. induction k as [|k IH]; cbn [repeat app].
  - destruct H as [->|H]; [reflexivity | now apply strip_zeros_cons_nonzero].
  - destruct (repeat x00 k ++ b :: t) as [|c l] eqn:E.
    + destruct k; discriminate.
    + rewrite strip_zeros_cons_zero by reflexivity. exact IH.
Qed.

(** The integer of an accepted TLV starts with a byte that is not 0,
    unless it is a single byte. *)
Lemma tlv_integer_minimal (m : mem) (asn1 : ptr) (asn1_len cap : N) :
  tlv_accepted m asn1 asn1_len cap = true ->
  exists b t, tlv_integer m asn1 = b :: t /\ (t = [] \/ u8 b <> 0%N).
Proof.
  intros Hok. apply tlv_accepted_inv in Hok.
  destruct Hok as [H3 [Htag [HL [Hend [Hw Hzz]]]]].
  unfold tlv_integer.
  destruct (N.to_nat (stripped_width m asn1)) as [|k] eqn:Ek; [lia|].
  cbn [bytes_at]. eexists. eexists. split; [reflexivity|].
  destruct k as [|k]; [left; reflexivity | right].
  intros E. apply u8_zero in E.
  revert Ek E. unfold stripped_width, integer_start, stuffed.
  destruct (N.ltb_spec 1 (u8 (m (asn1 + 1)))) as [H1|H1]; cbn [andb].
  - destruct (N.eqb_spec (u8 (m (asn1 + 2))) 0) as [E2|E2]; intros Ek E.
    + apply Hzz. split; [lia|]. split; [now apply u8_zero | exact E].
    + apply E2. now apply u8_zero.
  - intros Ek _. lia.
Qed.

(** [X4] After a successful decoding, encoding the output buffer gives the
    canonical TLV of the decoded integer: its value field is the integer,
    with a stuffing byte exactly when the first byte has its high bit set.
    The encoder writes it when the value field has at most 127 bytes and
    the TLV fits the second output buffer, and returns 0 otherwise.  The
    value field has 128 bytes exactly for an integer of 127 bytes with a
    set high bit, which the decoder accepts (without a stuffing byte) and
    the encoder cannot encode.  The canonical TLV is the decoded TLV itself
    exactly when the decoded TLV had its stuffing byte in that case; a TLV
    with a superfluous stuffing byte, or with a set high bit and no
    stuffing byte, is decoded and comes back changed.  (Buffers in the
    address space and not overlapping; the functions with 32-bit
    pointers.) *)
Theorem decode_then_encode_canonical :
  forall (asn1 : ptr) (asn1_len : N) (out_int : ptr) (c : N)
         (out_buf : ptr) (out_buf_len : N) (s : state),
    in_space asn1 asn1_len -> in_space out_int c ->
    in_space out_buf out_buf_len ->
    separate asn1 asn1_len out_int c ->
    separate out_int c out_buf out_buf_len ->
    let m := st_mem s in
    let dec := decode_asn1_uint_wrap asn1 asn1_len out_int c s in
    let enc :=
      encode_der_integer_wrap out_int c out_buf out_buf_len (snd dec) in
    let int := tlv_integer m asn1 in
    let n := N.of_nat (length (der_value int)) in
    fst (fst dec) <> 0%N ->
    strip_zeros int = int
    /\ ((n <= 127)%N -> (2 + n <= out_buf_len)%N ->
        fst enc = N.of_nat (length (der_tlv int))
        /\ bytes_at (st_mem (snd enc)) out_buf (length (der_tlv int))
           = der_tlv int)
    /\ ((127 < n)%N \/ (out_buf_len < 2 + n)%N -> fst enc = 0%N)
    /\ ((127 < n)%N <->
        length int = 127%nat /\ needs_stuffing int = true)
    /\ (der_tlv int = bytes_at m asn1 (N.to_nat (tlv_size m asn1)) <->
        stuffed m asn1 = needs_stuffing int).
Proof.
  intros asn1 asn1_len out_int c out_buf out_buf_len s Hsa Hsi Hso.
  rewrite (decode_asn1_uint_wrap_eq asn1 asn1_len out_int c s Hsa Hsi).
  intros Hsep1 Hsep2 m dec.
  rewrite (encode_der_integer_wrap_eq out_int c out_buf out_buf_len (snd dec)
             Hsi Hso).
  intros enc int n Hne.
  subst dec enc.
  destruct (decode_asn1_uint_run asn1 asn1_len out_int c s) as [s0 [Hrun0 _]].
  cbv zeta in Hrun0. fold m in Hrun0.
  destruct (tlv_accepted m asn1 asn1_len c) eqn:Eok;
    [|rewrite Hrun0 in Hne; cbn [fst] in Hne; contradiction].
  clear s0 Hrun0.
  pose proof (tlv_accepted_inv _ _ _ _ Eok) as [H3 [Htag [HL [Hend [Hw Hzz]]]]].
  destruct (decode_asn1_uint_accepts asn1 asn1_len out_int c s Eok)
    as [s1 [Hrun [Hout _]]].
  { unfold separate, tlv_size in *. fold m. lia. }
  fold m in Hrun, Hout. fold int in Hout. rewrite Hrun. cbn [fst snd].
  destruct (tlv_integer_minimal m asn1 asn1_len c Eok) as [b [t [Eint Hmin]]].
  fold int in Eint.
  assert (Hstrip : strip_zeros int = int).
  { rewrite Eint. apply (strip_zeros_zeros_app 0 b t Hmin). }
  assert (Hv : strip_zeros (bytes_at (st_mem s1) out_int (N.to_nat c)) = int).
  { rewrite Hout. unfold left_pad. rewrite Eint.
    now apply strip_zeros_zeros_app. }
  assert (Hdv : der_value (bytes_at (st_mem s1) out_int (N.to_nat c))
                = der_value int).
  { unfold der_value. now rewrite Hv, Hstrip. }
  assert (Htv : der_tlv (bytes_at (st_mem s1) out_int (N.to_nat c))
                = der_tlv int).
  { unfold der_tlv. now rewrite Hdv. }
  pose proof (encode_der_integer_result out_int c out_buf out_buf_len s1) as Hres.
  cbv zeta in Hres. rewrite Hdv in Hres. fold n in Hres.
  assert (Hc : c <> 0%N) by lia.
  rewrite (proj2 (N.eqb_neq _ _) Hc) in Hres. cbn [negb andb] in Hres.
  assert (Hint : int = bytes_at m (integer_start m asn1)
                         (N.to_nat (stripped_width m asn1))) by reflexivity.
  assert (Hlen : length int = N.to_nat (stripped_width m asn1))
    by (rewrite Hint; apply bytes_at_length).
  assert (Hwidth : (stripped_width m asn1 <= 127)%N).
  { unfold stripped_width. destruct (stuffed m asn1); lia. }
  pose proof (der_value_length int) as Hvl. rewrite Hstrip in Hvl.
  split; [exact Hstrip|]. split; [|split; [|split; [|split]]].
  - (* the TLV is written *)
    intros H127 Hfit.
    rewrite (proj2 (N.leb_le _ _) Hfit), (proj2 (N.leb_le _ _) H127) in Hres.
    cbn [andb] in Hres.
    pose proof (encode_der_integer_ok out_int c out_buf out_buf_len s1) as Hok.
    cbv zeta in Hok. rewrite Htv in Hok.
    destruct Hok as [_ [_ [_ [Hb _]]]]; [rewrite Hres; lia|].
    split; [rewrite Hres, der_tlv_length; reflexivity | exact Hb].
  - (* the encoder refuses *)
    intros Hbad. rewrite Hres.
    destruct (N.leb_spec (2 + n) out_buf_len), (N.leb_spec n 127);
      cbn [andb]; try reflexivity.
    destruct Hbad; lia.
  - (* a value field of 128 bytes *)
    unfold n. rewrite Hvl. destruct (needs_stuffing int); split.
    + intros H. split; [lia | reflexivity].
    + intros [H _]. lia.
    + intros H. lia.
    + intros [_ H]. discriminate.
  - (* equal TLVs have equal lengths *)
    intros Heq. apply (f_equal (@length byte)) in Heq.
    rewrite bytes_at_length in Heq.
    pose proof (der_tlv_length int) as Hl. rewrite Hvl in Hl.
    revert Heq Hl Hlen.
    unfold tlv_size, stripped_width. fold m.
    destruct (stuffed m asn1), (needs_stuffing int); intros;
      try reflexivity; lia.
  - (* the canonical case *)
    intros Hcanon. unfold der_tlv, der_value. rewrite Hstrip, <- Hcanon.
    unfold tlv_size. fold m.
    revert Hint Hlen. unfold stripped_width, integer_start.
    destruct (stuffed m asn1) eqn:Est; intros Hint Hlen.
    + unfold stuffed in Est. apply andb_true_iff in Est as [E1 E2].
      apply N.ltb_lt in E1. apply N.eqb_eq, u8_zero in E2.
      replace (N.to_nat (2 + u8 (m (asn1 + 1))))
        with (S (S (S (N.to_nat (u8 (m (asn1 + 1)) - 1))))) by lia.
      cbn [bytes_at length].
      replace (asn1 + 1 + 1) with (asn1 + 2) by lia.
      replace (asn1 + 2 + 1) with (asn1 + 3) by lia.
      rewrite Htag, E2, <- Hint. f_equal. f_equal.
      rewrite Hlen. replace (N.of_nat (S (N.to_nat (u8 (m (asn1 + 1)) - 1))))
        with (u8 (m (asn1 + 1))) by lia.
      apply to_u8_u8.
    + replace (N.to_nat (2 + u8 (m (asn1 + 1))))
        with (S (S (N.to_nat (u8 (m (asn1 + 1)))))) by lia.
      cbn [bytes_at].
      replace (asn1 + 1 + 1) with (asn1 + 2) by lia.
      rewrite Htag, <- Hint. f_equal. f_equal.
      rewrite Hlen, N2Nat.id. apply to_u8_u8.
Qed.

(** [X5] The TLV depends on the integer, not on the width it is given in: two
    non-empty inputs that are the same after their leading zero bytes give
    the same result and the same TLV.  (Buffers in the address space, the
    data not overlapping the output buffer; the function with 32-bit
    pointers.) *)
Theorem encode_der_integer_width_independent :
  forall (data : ptr) (w : N) (data' : ptr) (w' : N) (out_buf : ptr)
         (out_buf_len : N) (s s' : state),
    in_space data w -> in_space data' w' -> in_space out_buf out_buf_len ->
    separate data w out_buf out_buf_len ->
    separate data' w' out_buf out_buf_len ->
    w <> 0%N -> w' <> 0%N ->
    strip_zeros (bytes_at (st_mem s) data (N.to_nat w)) =
    strip_zeros (bytes_at (st_mem s') data' (N.to_nat w')) ->
    let enc := encode_der_integer_wrap data w out_buf out_buf_len s in
    let enc' := encode_der_integer_wrap data' w' out_buf out_buf_len s' in
    fst enc = fst enc'
    /\ (fst enc <> 0%N ->
        bytes_at (st_mem (snd enc)) out_buf (N.to_nat (fst enc)) =
        bytes_at (st_mem (snd enc')) out_buf (N.to_nat (fst enc))).
Proof.
  intros data w data' w' out_buf out_buf_len s s' Hsd Hsd' Hso.
  rewrite (encode_der_integer_wrap_eq data w out_buf out_buf_len s Hsd Hso).
  rewrite (encode_der_integer_wrap_eq data' w' out_buf out_buf_len s' Hsd' Hso).
  intros Hsep Hsep' Hw Hw' Hstrip enc enc'.
  assert (Hdv : der_value (bytes_at (st_mem s) data (N.to_nat w)) =
                der_value (bytes_at (st_mem s') data' (N.to_nat w')))
    by (unfold der_value; now rewrite Hstrip).
  assert (Hres : fst enc = fst enc').
  { unfold enc, enc'. rewrite !encode_der_integer_result. cbv zeta.
    rewrite Hdv.
    now rewrite (proj2 (N.eqb_neq _ _) Hw), (proj2 (N.eqb_neq _ _) Hw'). }
  split; [exact Hres|]. intros Hne.
  pose proof (encode_der_integer_ok data w out_buf out_buf_len s) as Hok.
  pose proof (encode_der_integer_ok data' w' out_buf out_buf_len s') as Hok'.
  cbv zeta in Hok, Hok'. fold enc in Hok. fold enc' in Hok'.
  destruct (Hok Hne) as [Hl [_ [_ [Hb _]]]].
  destruct Hok' as [_ [_ [_ [Hb' _]]]]; [now rewrite <- Hres|].
  rewrite Hl, Nat2N.id. rewrite Hb.
  unfold der_tlv in Hb' |- *. rewrite Hdv in *. now rewrite Hb'.
Qed.

(** ** The two integer functions, seen from a caller *)

Lemma encode_der_integer_fails (data : ptr) (data_len : N) (out : ptr)
    (cap : N) (s : state) :
  fst (encode_der_integer data data_len out cap s) = 0%N ->
  st_mem (snd (encode_der_integer data data_len out cap s)) = st_mem s.
Proof.
  destruct (N.eq_dec data_len 0) as [->|Hlen]; [reflexivity|].
  destruct (encode_der_integer_run data data_len out cap s Hlen)
    as [s1 [Hrun [Hmem _]]].
  cbv zeta in Hrun, Hmem. rewrite Hrun. cbn [fst snd]. revert Hmem.
  destruct (_ && _)%bool; intros Hmem H0; [lia | exact Hmem].
Qed.

Lemma encode_der_integer_accesses (data : ptr) (data_len : N) (out : ptr)
    (cap : N) (s : state) :
  accesses (region data data_len) (region out cap) s
    (snd (encode_der_integer data data_len out cap s)).
Proof.
  destruct (N.eq_dec data_len 0) as [->|Hlen]; [apply accesses_refl|].
  destruct (encode_der_integer_run data data_len out cap s Hlen)
    as [s1 [Hrun [_ Hacc]]].
  cbv zeta in Hrun, Hacc. rewrite Hrun. cbn [snd].
  eapply accesses_weaken; [| |exact Hacc]; [auto|].
  set (n := N.of_nat _).
  destruct (N.leb_spec (2 + n) cap); cbn [andb];
    [destruct (n <=? 127)%N|]; unfold region, no_access; intros a; lia.
Qed.

Lemma decode_asn1_uint_fails (asn1 : ptr) (asn1_len : N) (out : ptr)
    (cap : N) (s : state) :
  let dec := decode_asn1_uint asn1 asn1_len out cap s in
  fst (fst dec) = 0%N ->
  tlv_accepted (st_mem s) asn1 asn1_len cap = false
  /\ snd (fst dec) = cap /\ st_mem (snd dec) = st_mem s.
Proof.
  intros dec. subst dec.
  destruct (decode_asn1_uint_run asn1 asn1_len out cap s)
    as [s1 [Hrun [Hmem _]]].
  cbv zeta in Hrun, Hmem. rewrite Hrun. revert Hmem.
  destruct (tlv_accepted _ _ _ _); cbn [fst snd]; intros Hmem H0;
    [lia | now repeat split].
Qed.

Lemma decode_asn1_uint_succeeds (asn1 : ptr) (asn1_len : N) (out : ptr)
    (cap : N) (s : state) :
  fst (fst (decode_asn1_uint asn1 asn1_len out cap s)) <> 0%N ->
  tlv_accepted (st_mem s) asn1 asn1_len cap = true.
Proof.
  destruct (decode_asn1_uint_run asn1 asn1_len out cap s) as [s1 [Hrun _]].
  cbv zeta in Hrun. rewrite Hrun.
  destruct (tlv_accepted _ _ _ _); cbn [fst]; [reflexivity | contradiction].
Qed.

Lemma decode_asn1_uint_accesses (asn1 : ptr) (asn1_len : N) (out : ptr)
    (cap : N) (s : state) :
  accesses (region asn1 asn1_len) (region out cap) s
    (snd (decode_asn1_uint asn1 asn1_len out cap s)).
Proof.
  destruct (decode_asn1_uint_run asn1 asn1_len out cap s)
    as [s1 [Hrun [_ Hacc]]].
  cbv zeta in Hrun, Hacc. rewrite Hrun. cbn [snd].
  eapply accesses_weaken; [| |exact Hacc]; [auto|].
  destruct (tlv_accepted _ _ _ _); [auto | unfold no_access; tauto].
Qed.

(** ** The signature encoder *)

(** The signature encoder on pointers that are not null: the two integer
    encodings, the second one where the first one ended. *)
Lemma ecdsa_rs_to_asn1_run (r s : ptr) (rs_len : N) (asn_sig : ptr) (cap : N)
    (st : state) :
  r <> NULL -> s <> NULL -> asn_sig <> NULL ->
  let enc_r := encode_der_integer r rs_len asn_sig cap st in
  let n_r := fst enc_r in
  let enc_s :=
    encode_der_integer s rs_len (asn_sig + Z.of_N n_r) (cap - n_r)
      (snd enc_r) in
  let n_s := fst enc_s in
  ecdsa_rs_to_asn1 r s rs_len asn_sig (Some cap) st =
  (if (n_r =? 0)%N then (false, Some cap, snd enc_r)
   else if (n_s =? 0)%N then (false, Some cap, snd enc_s)
   else (true, Some (n_r + n_s)%N, snd enc_s)).
Proof.
  intros Hr Hs Hsig enc_r n_r enc_s n_s.
  unfold ecdsa_rs_to_asn1.
  destruct (Z.eqb_spec r NULL); [contradiction|].
  destruct (Z.eqb_spec s NULL); [contradiction|].
  destruct (Z.eqb_spec asn_sig NULL); [contradiction|].
  cbn [orb]. unfold bind at 1. fold enc_r.
  pose proof (encode_der_integer_ok r rs_len asn_sig cap st) as Hokr.
  cbv zeta in Hokr. fold enc_r in Hokr. fold n_r in Hokr.
  rewrite (surjective_pairing enc_r). fold n_r.
  destruct (N.eqb_spec n_r 0) as [E|Hnr]; [reflexivity|].
  destruct (Hokr Hnr) as [_ [Hcapr [Hrange _]]].
  rewrite size_sub_le by exact Hcapr.
  unfold bind at 1. fold enc_s.
  pose proof (encode_der_integer_ok s rs_len (asn_sig + Z.of_N n_r)
                (cap - n_r) (snd enc_r)) as Hoks.
  cbv zeta in Hoks. fold enc_s in Hoks. fold n_s in Hoks.
  rewrite (surjective_pairing enc_s). fold n_s.
  destruct (N.eqb_spec n_s 0) as [E|Hns]; [reflexivity|].
  destruct (Hoks Hns) as [_ [_ [Hranges _]]].
  unfold ret. now rewrite size_add_small by lia.
Qed.

(** [X6] On buffers in the address space the signature encoder stays in
    bounds, whatever the buffers hold, whatever the width of the integers
    and whatever the capacity: it reads only the [rs_len] bytes of [r] and
    of [s] and writes only inside the capacity the cell declares for
    [asn_sig].  (The function with 32-bit pointers.) *)
Theorem ecdsa_rs_to_asn1_stays_in_bounds :
  forall (r s : ptr) (rs_len : N) (asn_sig : ptr) (cap : N) (st : state),
    in_space r rs_len -> in_space s rs_len -> in_space asn_sig cap ->
    let res := ecdsa_rs_to_asn1_wrap r s rs_len asn_sig (Some cap) st in
    accesses (fun a => region r rs_len a \/ region s rs_len a)
      (region asn_sig cap) st (snd res).
Proof.
  intros r s rs_len asn_sig cap st Hsr Hss Hsa.
  rewrite (ecdsa_rs_to_asn1_wrap_eq r s rs_len asn_sig cap st Hsr Hss Hsa).
  intros res. subst res.
  pose proof (in_space_not_null _ _ Hsr) as Hr.
  pose proof (in_space_not_null _ _ Hss) as Hs.
  pose proof (in_space_not_null _ _ Hsa) as Ha.
  rewrite (ecdsa_rs_to_asn1_run r s rs_len asn_sig cap st Hr Hs Ha).
  cbv zeta.
  set (enc_r := encode_der_integer r rs_len asn_sig cap st).
  set (enc_s := encode_der_integer s rs_len _ _ _).
  assert (Hfirst : accesses (fun a => region r rs_len a \/ region s rs_len a)
                     (region asn_sig cap) st (snd enc_r)).
  { eapply accesses_weaken;
      [| |apply encode_der_integer_accesses]; [tauto | auto]. }
  destruct (N.eqb_spec (fst enc_r) 0) as [E|Hnr]; [exact Hfirst|].
  assert (Hsecond : accesses (fun a => region r rs_len a \/ region s rs_len a)
                      (region asn_sig cap) st (snd enc_s)).
  { eapply accesses_trans; [exact Hfirst|].
    pose proof (encode_der_integer_ok r rs_len asn_sig cap st) as Hokr.
    cbv zeta in Hokr. fold enc_r in Hokr.
    destruct (Hokr Hnr) as [_ [Hcapr _]].
    eapply accesses_weaken;
      [| |apply encode_der_integer_accesses]; [tauto|].
    unfold region. intros a. lia. }
  destruct (fst enc_s =? 0)%N; exact Hsecond.
Qed.

(** The outcome of the signature encoder in terms of the two integers, for
    pointers that are not null and [s] outside the output buffer: whether
    the TLV of [r] fits, whether the TLV of [s] fits behind it, and what the
    output buffer holds in each case. *)
Lemma ecdsa_rs_to_asn1_outcome (r s : ptr) (rs_len : N) (asn_sig : ptr)
    (cap : N) (st : state) :
  r <> NULL -> s <> NULL -> asn_sig <> NULL ->
  separate s rs_len asn_sig cap ->
  let m := st_mem st in
  let vr := bytes_at m r (N.to_nat rs_len) in
  let vs := bytes_at m s (N.to_nat rs_len) in
  let nvr := N.of_nat (length (der_value vr)) in
  let nvs := N.of_nat (length (der_value vs)) in
  let r_fits := (negb (rs_len =? 0) && (2 + nvr <=? cap) && (nvr <=? 127))%N in
  let s_fits := ((2 + nvs <=? cap - (2 + nvr)) && (nvs <=? 127))%N in
  let res := ecdsa_rs_to_asn1 r s rs_len asn_sig (Some cap) st in
  fst res = (r_fits && s_fits,
             Some (if r_fits && s_fits then 4 + nvr + nvs else cap)%N)
  /\ (r_fits = false -> st_mem (snd res) = m)
  /\ (r_fits = true -> s_fits = false ->
      bytes_at (st_mem (snd res)) asn_sig (length (der_tlv vr)) = der_tlv vr
      /\ forall x, x < asn_sig \/ asn_sig + Z.of_N (2 + nvr) <= x ->
                   st_mem (snd res) x = m x)
  /\ (r_fits = true -> s_fits = true ->
      bytes_at (st_mem (snd res)) asn_sig (length (der_tlv vr ++ der_tlv vs))
      = der_tlv vr ++ der_tlv vs
      /\ forall x, x < asn_sig \/ asn_sig + Z.of_N (4 + nvr + nvs) <= x ->
                   st_mem (snd res) x = m x).
Proof.
  intros Hr Hs Hsig Hsep m vr vs nvr nvs r_fits s_fits res.
  subst res. rewrite (ecdsa_rs_to_asn1_run r s rs_len asn_sig cap st Hr Hs Hsig).
  cbv zeta.
  set (enc_r := encode_der_integer r rs_len asn_sig cap st).
  pose proof (encode_der_integer_result r rs_len asn_sig cap st) as Hnr.
  cbv zeta in Hnr. fold m vr nvr r_fits enc_r in Hnr.
  destruct r_fits eqn:Erf; rewrite Hnr.
  2:{ cbn [N.eqb andb fst snd]. split; [reflexivity|].
      split; [|split; intros; discriminate].
      intros _. apply encode_der_integer_fails. exact Hnr. }
  (* the TLV of r is written *)
  assert (Hlen : rs_len <> 0%N).
  { intros E. unfold r_fits in Erf. rewrite E in Erf. discriminate. }
  assert (Hnr0 : fst enc_r <> 0%N) by (rewrite Hnr; lia).
  pose proof (encode_der_integer_ok r rs_len asn_sig cap st) as Hokr.
  cbv zeta in Hokr. fold m vr enc_r in Hokr.
  destruct (Hokr Hnr0) as [Hlr [Hcapr [_ [Hbr Hframe]]]].
  rewrite Hnr in Hcapr, Hframe.
  destruct (N.eqb_spec (2 + nvr) 0) as [|_]; [lia|].
  set (enc_s := encode_der_integer s rs_len (asn_sig + Z.of_N (2 + nvr))
                  (cap - (2 + nvr)) (snd enc_r)).
  assert (Hvs : bytes_at (st_mem (snd enc_r)) s (N.to_nat rs_len) = vs).
  { apply bytes_at_ext. intros x Hx. apply Hframe.
    unfold separate in Hsep. lia. }
  pose proof (encode_der_integer_result s rs_len (asn_sig + Z.of_N (2 + nvr))
                (cap - (2 + nvr)) (snd enc_r)) as Hns.
  cbv zeta in Hns. rewrite Hvs in Hns. fold nvs enc_s in Hns.
  rewrite (proj2 (N.eqb_neq _ _) Hlen) in Hns. cbn [negb andb] in Hns.
  fold s_fits in Hns.
  destruct s_fits eqn:Esf; rewrite Hns.
  - (* both TLVs are written *)
    destruct (N.eqb_spec (2 + nvs) 0) as [|_]; [lia|].
    cbn [andb fst snd]. split; [do 2 f_equal; lia|].
    split; [intros; discriminate|]. split; [intros; discriminate|].
    intros _ _.
    assert (Hns0 : fst enc_s <> 0%N) by (rewrite Hns; lia).
    pose proof (encode_der_integer_ok s rs_len (asn_sig + Z.of_N (2 + nvr))
                  (cap - (2 + nvr)) (snd enc_r)) as Hoks.
    cbv zeta in Hoks. rewrite Hvs in Hoks. fold enc_s in Hoks.
    destruct (Hoks Hns0) as [Hls [Hcaps [_ [Hbs Hframes]]]].
    rewrite Hns in Hframes.
    pose proof (der_tlv_length vr) as Hlvr. fold nvr in Hlvr.
    pose proof (der_tlv_length vs) as Hlvs. fold nvs in Hlvs.
    split.
    + rewrite length_app, bytes_at_app. f_equal.
      * etransitivity; [|exact Hbr].
        apply bytes_at_ext. intros x Hx. apply Hframes. lia.
      * etransitivity; [|exact Hbs]. f_equal. lia.
    + intros x Hx. rewrite Hframes by lia. apply Hframe. lia.
  - (* the TLV of s does not fit *)
    cbn [N.eqb andb fst snd]. split; [reflexivity|].
    split; [intros; discriminate|]. split; [|intros; discriminate].
    intros _ _.
    assert (Hm : st_mem (snd enc_s) = st_mem (snd enc_r))
      by (apply encode_der_integer_fails; exact Hns).
    rewrite Hm. split; [exact Hbr | exact Hframe].
Qed.

(** [X7] The signature encoder succeeds exactly when the integers are not
    empty, each value field has at most 127 bytes and the two TLVs together
    fit the capacity; the cell then holds the sum of their sizes, and holds
    the capacity as before when the call fails.  ([r], [s] and [asn_sig] in
    the address space, [r] and [s] outside the output buffer; the function
    with 32-bit pointers.) *)
Theorem ecdsa_rs_to_asn1_succeeds_iff :
  forall (r s : ptr) (rs_len : N) (asn_sig : ptr) (cap : N) (st : state),
    in_space r rs_len -> in_space s rs_len -> in_space asn_sig cap ->
    separate r rs_len asn_sig cap ->
    separate s rs_len asn_sig cap ->
    let nvr := N.of_nat (length (der_value
                 (bytes_at (st_mem st) r (N.to_nat rs_len)))) in
    let nvs := N.of_nat (length (der_value
                 (bytes_at (st_mem st) s (N.to_nat rs_len)))) in
    let res := fst (ecdsa_rs_to_asn1_wrap r s rs_len asn_sig (Some cap) st) in
    (fst res = true <->
     rs_len <> 0%N /\ (nvr <= 127)%N /\ (nvs <= 127)%N
     /\ (4 + nvr + nvs <= cap)%N)
    /\ (fst res = true -> snd res = Some (4 + nvr + nvs)%N)
    /\ (fst res = false -> snd res = Some cap).
Proof.
  intros r s rs_len asn_sig cap st Hsr Hss Hsa.
  rewrite (ecdsa_rs_to_asn1_wrap_eq r s rs_len asn_sig cap st Hsr Hss Hsa).
  pose proof (in_space_not_null _ _ Hsr) as Hr.
  pose proof (in_space_not_null _ _ Hss) as Hs.
  pose proof (in_space_not_null _ _ Hsa) as Hsig.
  intros Hsepr Hseps nvr nvs res.
  destruct (ecdsa_rs_to_asn1_outcome r s rs_len asn_sig cap st Hr Hs Hsig Hseps)
    as [Hres _].
  cbv zeta in Hres. fold nvr nvs in Hres. subst res. rewrite Hres.
  cbn [fst snd].
  destruct (N.eqb_spec rs_len 0), (N.leb_spec (2 + nvr) cap),
    (N.leb_spec nvr 127), (N.leb_spec (2 + nvs) (cap - (2 + nvr))),
    (N.leb_spec nvs 127); cbn [negb andb];
    (split; [split; [intros; try discriminate; repeat split; lia
                    | intros; try reflexivity; lia]
            | split; intros; try discriminate; reflexivity]).
Qed.

(** [X8] A buffer of [2 * rs_len + 6] bytes is always enough: for integers of
    1 to 126 bytes, and any capacity from [2 * rs_len + 6] on that leaves
    the output buffer in the address space, the signature encoder succeeds
    whatever the bytes of the integers are, and the length it reports is
    between 6 and [2 * rs_len + 6].  ([r] and [s] in the address space and
    outside the output buffer; the function with 32-bit pointers.) *)
Theorem ecdsa_rs_to_asn1_capacity :
  forall (r s : ptr) (rs_len : N) (asn_sig : ptr) (cap : N) (st : state),
    in_space r rs_len -> in_space s rs_len -> in_space asn_sig cap ->
    separate r rs_len asn_sig cap ->
    separate s rs_len asn_sig cap ->
    (1 <= rs_len <= 126)%N ->
    (2 * rs_len + 6 <= cap)%N ->
    exists n,
      fst (ecdsa_rs_to_asn1_wrap r s rs_len asn_sig (Some cap) st)
      = (true, Some n)
      /\ (6 <= n <= 2 * rs_len + 6)%N.
Proof.
  intros r s rs_len asn_sig cap st Hsr Hss Hsa.
  rewrite (ecdsa_rs_to_asn1_wrap_eq r s rs_len asn_sig cap st Hsr Hss Hsa).
  pose proof (in_space_not_null _ _ Hsr) as Hr.
  pose proof (in_space_not_null _ _ Hss) as Hs.
  pose proof (in_space_not_null _ _ Hsa) as Hsig.
  intros Hsepr Hseps Hlen Hcap.
  destruct (ecdsa_rs_to_asn1_outcome r s rs_len asn_sig cap st Hr Hs Hsig Hseps)
    as [Hres _].
  cbv zeta in Hres.
  set (vr := bytes_at (st_mem st) r (N.to_nat rs_len)) in *.
  set (vs := bytes_at (st_mem st) s (N.to_nat rs_len)) in *.
  assert (Hne : forall a, bytes_at (st_mem st) a (N.to_nat rs_len) <> []).
  { intros a E. apply (f_equal (@length byte)) in E.
    rewrite bytes_at_length in E. simpl in E. lia. }
  pose proof (der_value_length_bounds vr (Hne r)) as Hbr.
  pose proof (der_value_length_bounds vs (Hne s)) as Hbs.
  unfold vr, vs in Hbr, Hbs. rewrite bytes_at_length in Hbr, Hbs.
  fold vr in Hbr. fold vs in Hbs.
  set (nvr := N.of_nat (length (der_value vr))) in *.
  set (nvs := N.of_nat (length (der_value vs))) in *.
  exists (4 + nvr + nvs)%N. rewrite Hres.
  destruct (N.eqb_spec rs_len 0); [lia|].
  destruct (N.leb_spec (2 + nvr) cap); [|lia].
  destruct (N.leb_spec nvr 127); [|lia].
  destruct (N.leb_spec (2 + nvs) (cap - (2 + nvr))); [|lia].
  destruct (N.leb_spec nvs 127); [|lia].
  cbn [negb andb]. split; [reflexivity | lia].
Qed.

(** [X9] The signature encoder is not atomic.  When the integers are not
    empty, the TLV of [r] has a value field of at most 127 bytes and fits
    the output buffer, and the TLV of [s] does not fit behind it (or has a
    value field of more than 127 bytes), the call returns false and leaves
    the cell as it was, but the TLV of [r] stays written at the start of
    the output buffer; the rest of the memory is untouched.  ([r], [s] and
    [asn_sig] in the address space, [r] and [s] outside the output buffer;
    the function with 32-bit pointers.) *)
Theorem ecdsa_rs_to_asn1_partial_write :
  forall (r s : ptr) (rs_len : N) (asn_sig : ptr) (cap : N) (st : state),
    in_space r rs_len -> in_space s rs_len -> in_space asn_sig cap ->
    separate r rs_len asn_sig cap ->
    separate s rs_len asn_sig cap ->
    let m := st_mem st in
    let vr := bytes_at m r (N.to_nat rs_len) in
    let vs := bytes_at m s (N.to_nat rs_len) in
    let nvr := N.of_nat (length (der_value vr)) in
    let nvs := N.of_nat (length (der_value vs)) in
    let res := ecdsa_rs_to_asn1_wrap r s rs_len asn_sig (Some cap) st in
    rs_len <> 0%N -> (nvr <= 127)%N -> (2 + nvr <= cap)%N ->
    (cap < 4 + nvr + nvs)%N \/ (127 < nvs)%N ->
    fst res = (false, Some cap)
    /\ bytes_at (st_mem (snd res)) asn_sig (length (der_tlv vr)) = der_tlv vr
    /\ (forall x, x < asn_sig \/ asn_sig + Z.of_N (2 + nvr) <= x ->
                  st_mem (snd res) x = m x).
Proof.
  intros r s rs_len asn_sig cap st Hsr Hss Hsa.
  rewrite (ecdsa_rs_to_asn1_wrap_eq r s rs_len asn_sig cap st Hsr Hss Hsa).
  pose proof (in_space_not_null _ _ Hsr) as Hr.
  pose proof (in_space_not_null _ _ Hss) as Hs.
  pose proof (in_space_not_null _ _ Hsa) as Hsig.
  intros Hsepr Hseps m vr vs nvr nvs res Hlen H127 Hfit Hbad.
  destruct (ecdsa_rs_to_asn1_outcome r s rs_len asn_sig cap st Hr Hs Hsig Hseps)
    as [Hres [_ [Hpart _]]].
  cbv zeta in Hres, Hpart. fold m vr vs nvr nvs res in Hres, Hpart.
  assert (Erf : (negb (rs_len =? 0) && (2 + nvr <=? cap) && (nvr <=? 127))%N
                = true).
  { rewrite (proj2 (N.eqb_neq _ _) Hlen), (proj2 (N.leb_le _ _) Hfit),
      (proj2 (N.leb_le _ _) H127). reflexivity. }
  assert (Esf : ((2 + nvs <=? cap - (2 + nvr)) && (nvs <=? 127))%N = false).
  { apply andb_false_iff. destruct Hbad; [left | right]; apply N.leb_gt; lia. }
  rewrite Erf, Esf in Hres. cbn [andb] in Hres.
  split; [exact Hres|]. now apply Hpart.
Qed.

(** ** The signature decoders *)

Lemma decode_asn1_uint_result (asn1 : ptr) (asn1_len : N) (out : ptr)
    (cap : N) (s : state) :
  fst (decode_asn1_uint asn1 asn1_len out cap s) =
  if tlv_accepted (st_mem s) asn1 asn1_len cap
  then (tlv_size (st_mem s) asn1, stripped_width (st_mem s) asn1)
  else (0%N, cap).
Proof.
  destruct (decode_asn1_uint_run asn1 asn1_len out cap s) as [s1 [Hrun _]].
  cbv zeta in Hrun. now rewrite Hrun.
Qed.

(** The result of the integer decoder and the memory it leaves depend on
    the memory only, and stay the same on a longer input. *)
Lemma decode_asn1_uint_longer (asn1 : ptr) (asn1_len asn1_len' : N)
    (out : ptr) (cap : N) (s s' : state) :
  st_mem s' = st_mem s -> (asn1_len <= asn1_len')%N ->
  let dec := decode_asn1_uint asn1 asn1_len out cap s in
  let dec' := decode_asn1_uint asn1 asn1_len' out cap s' in
  fst (fst dec) <> 0%N ->
  fst dec' = fst dec /\ st_mem (snd dec') = st_mem (snd dec).
Proof.
  intros Hm Hle dec dec'. subst dec dec'.
  destruct (decode_asn1_uint_run asn1 asn1_len out cap s)
    as [s1 [Hrun [Hmem _]]].
  destruct (decode_asn1_uint_run asn1 asn1_len' out cap s')
    as [s2 [Hrun' [Hmem' _]]].
  cbv zeta in Hrun, Hmem, Hrun', Hmem'. rewrite Hm in Hrun', Hmem'.
  rewrite Hrun, Hrun'.
  destruct (tlv_accepted (st_mem s) asn1 asn1_len cap) eqn:Eok;
    cbn [fst snd]; intros Hne; [|contradiction].
  rewrite (tlv_accepted_mono _ _ _ asn1_len' _ cap Eok Hle (N.le_refl _))
    in Hmem' |- *.
  cbn [fst snd]. split; [reflexivity | congruence].
Qed.

(** The separate-length decoder on pointers that are not null: the two
    integer decodings, the second one where the first TLV ended. *)
Lemma asn1_to_ecdsa_rs_sep_run (asn1 : ptr) (asn1_len : N) (r : ptr)
    (r_cap : N) (s : ptr) (s_cap : N) (st : state) :
  asn1 <> NULL -> r <> NULL -> s <> NULL ->
  let d1 := decode_asn1_uint asn1 asn1_len r r_cap st in
  let k1 := fst (fst d1) in
  let d2 :=
    decode_asn1_uint (asn1 + Z.of_N k1) (asn1_len - k1) s s_cap (snd d1) in
  asn1_to_ecdsa_rs_sep asn1 asn1_len r (Some r_cap) s (Some s_cap) st =
  (if (k1 =? 0)%N then (false, Some (snd (fst d1)), Some s_cap, snd d1)
   else (negb (fst (fst d2) =? 0)%N,
         Some (snd (fst d1)), Some (snd (fst d2)), snd d2)).
Proof.
  intros Ha Hr Hs. cbv zeta.
  unfold asn1_to_ecdsa_rs_sep.
  destruct (Z.eqb_spec asn1 NULL); [contradiction|].
  destruct (Z.eqb_spec r NULL); [contradiction|].
  destruct (Z.eqb_spec s NULL); [contradiction|].
  cbn [orb]. unfold bind at 1.
  destruct (decode_asn1_uint asn1 asn1_len r r_cap st) as [[c1 w1] s1] eqn:Ed1.
  cbn [fst snd].
  destruct (N.eqb_spec c1 0) as [E|Hc1]; [reflexivity|].
  assert (Hle : (c1 <= asn1_len)%N).
  { assert (Hok : fst (fst (decode_asn1_uint asn1 asn1_len r r_cap st)) <> 0%N)
      by (rewrite Ed1; exact Hc1).
    pose proof (decode_asn1_uint_succeeds _ _ _ _ _ Hok) as Hacc.
    pose proof (decode_asn1_uint_result asn1 asn1_len r r_cap st) as Hres.
    rewrite Hacc, Ed1 in Hres. cbn [fst] in Hres.
    apply pair_equal_spec in Hres as [Hc _].
    apply tlv_accepted_inv in Hacc. unfold tlv_size in Hc. lia. }
  rewrite size_sub_le by exact Hle.
  unfold bind.
  destruct (decode_asn1_uint (asn1 + Z.of_N c1) (asn1_len - c1) s s_cap s1)
    as [[c2 w2] s2].
  cbn [fst snd]. destruct (c2 =? 0)%N; reflexivity.
Qed.

Lemma asn1_to_ecdsa_rs_sep_accesses (asn1 : ptr) (asn1_len : N) (r : ptr)
    (r_cap : N) (s : ptr) (s_cap : N) (st : state) :
  accesses (region asn1 asn1_len)
    (fun a => region r r_cap a \/ region s s_cap a) st
    (snd (asn1_to_ecdsa_rs_sep asn1 asn1_len r (Some r_cap) s (Some s_cap) st)).
Proof.
  destruct (Z.eq_dec asn1 NULL) as [Ea|Ha].
  { unfold asn1_to_ecdsa_rs_sep. rewrite (proj2 (Z.eqb_eq _ _) Ea).
    apply accesses_refl. }
  destruct (Z.eq_dec r NULL) as [Er|Hr].
  { unfold asn1_to_ecdsa_rs_sep. rewrite (proj2 (Z.eqb_eq _ _) Er).
    rewrite orb_true_r. apply accesses_refl. }
  destruct (Z.eq_dec s NULL) as [Es|Hs].
  { unfold asn1_to_ecdsa_rs_sep. rewrite (proj2 (Z.eqb_eq _ _) Es).
    rewrite orb_true_r. apply accesses_refl. }
  rewrite (asn1_to_ecdsa_rs_sep_run asn1 asn1_len r r_cap s s_cap st Ha Hr Hs).
  cbv zeta.
  set (d1 := decode_asn1_uint asn1 asn1_len r r_cap st).
  set (d2 := decode_asn1_uint _ _ s s_cap _).
  assert (Hfirst : accesses (region asn1 asn1_len)
                     (fun a => region r r_cap a \/ region s s_cap a)
                     st (snd d1)).
  { eapply accesses_weaken;
      [| |apply decode_asn1_uint_accesses]; [auto | tauto]. }
  destruct (N.eqb_spec (fst (fst d1)) 0) as [E|Hk]; [exact Hfirst|].
  cbn [snd]. eapply accesses_trans; [exact Hfirst|].
  pose proof (decode_asn1_uint_succeeds _ _ _ _ _ Hk) as Hacc.
  pose proof (decode_asn1_uint_result asn1 asn1_len r r_cap st) as Hres.
  fold d1 in Hres. rewrite Hacc in Hres.
  apply tlv_accepted_inv in Hacc.
  eapply accesses_weaken;
    [| |apply decode_asn1_uint_accesses]; [|tauto].
  rewrite Hres. cbn [fst]. unfold region, tlv_size. intros a. lia.
Qed.

(** [X10] Both signature decoders stay in bounds, whatever they are given: they
    read only inside the [asn1_len] bytes of the input; the separate-length
    decoder writes only inside the capacities of [r] and of [s], the
    fixed-split decoder only inside the [rs_len] bytes of [rs]. *)
Theorem signature_decoders_stay_in_bounds :
  forall (asn1 : ptr) (asn1_len : N) (r : ptr) (r_cap : N) (s : ptr)
         (s_cap : N) (rs : ptr) (rs_len : N) (st : state),
    accesses (region asn1 asn1_len)
      (fun a => region r r_cap a \/ region s s_cap a) st
      (snd (asn1_to_ecdsa_rs_sep asn1 asn1_len r (Some r_cap) s (Some s_cap) st))
    /\ accesses (region asn1 asn1_len) (region rs rs_len) st
         (snd (asn1_to_ecdsa_rs asn1 asn1_len rs rs_len st)).
Proof.
  intros. split; [apply asn1_to_ecdsa_rs_sep_accesses|].
  unfold asn1_to_ecdsa_rs.
  destruct ((asn1 =? NULL) || (rs =? NULL) || (rs_len =? 0)%N)%bool;
    [apply accesses_refl|].
  destruct (N.eqb_spec (rs_len mod 2) 0) as [Heven|_];
    [|apply accesses_refl].
  cbn [negb]. cbv zeta. unfold bind.
  pose proof (asn1_to_ecdsa_rs_sep_accesses asn1 asn1_len rs (rs_len / 2)
                (rs + Z.of_N (rs_len / 2)) (rs_len / 2) st) as Hacc.
  destruct (asn1_to_ecdsa_rs_sep _ _ _ _ _ _ _) as [[[ok rl] sl] s1].
  unfold ret. cbn [snd] in *.
  eapply accesses_weaken; [| |exact Hacc]; [auto|].
  assert (Hhalf : (2 * (rs_len / 2) = rs_len)%N).
  { pose proof (N.Div0.div_mod rs_len 2). lia. }
  unfold region. intros a. lia.
Qed.

(** [X11] The separate-length decoder does not check that the two TLVs make up
    the whole input: once it succeeds on [asn1_len] bytes, it succeeds with
    the same widths and the same memory on any longer input in the address
    space, whatever follows the second TLV.  (The function with 32-bit
    pointers.) *)
Theorem asn1_to_ecdsa_rs_sep_ignores_trailing :
  forall (asn1 : ptr) (asn1_len asn1_len' : N) (r : ptr) (r_cap : N)
         (s : ptr) (s_cap : N) (st : state),
    in_space asn1 asn1_len' -> in_space r r_cap -> in_space s s_cap ->
    (asn1_len <= asn1_len')%N ->
    let res :=
      asn1_to_ecdsa_rs_sep_wrap asn1 asn1_len r (Some r_cap) s (Some s_cap)
        st in
    let res' :=
      asn1_to_ecdsa_rs_sep_wrap asn1 asn1_len' r (Some r_cap) s (Some s_cap)
        st in
    fst (fst (fst res)) = true ->
    fst res' = fst res /\ st_mem (snd res') = st_mem (snd res).
Proof.
  intros asn1 asn1_len asn1_len' r r_cap s s_cap st Hsa Hsr Hss Hle.
  rewrite (asn1_to_ecdsa_rs_sep_wrap_eq asn1 asn1_len r r_cap s s_cap st
             (in_space_head _ _ _ Hsa Hle) Hsr Hss).
  rewrite (asn1_to_ecdsa_rs_sep_wrap_eq asn1 asn1_len' r r_cap s s_cap st
             Hsa Hsr Hss).
  intros res res'. subst res res'.
  destruct (Z.eq_dec asn1 NULL) as [Ea|Ha].
  { unfold asn1_to_ecdsa_rs_sep. rewrite (proj2 (Z.eqb_eq _ _) Ea).
    cbn. discriminate. }
  destruct (Z.eq_dec r NULL) as [Er|Hr].
  { unfold asn1_to_ecdsa_rs_sep. rewrite (proj2 (Z.eqb_eq _ _) Er).
    rewrite orb_true_r. cbn. discriminate. }
  destruct (Z.eq_dec s NULL) as [Es|Hs].
  { unfold asn1_to_ecdsa_rs_sep. rewrite (proj2 (Z.eqb_eq _ _) Es).
    rewrite orb_true_r. cbn. discriminate. }
  rewrite (asn1_to_ecdsa_rs_sep_run asn1 asn1_len r r_cap s s_cap st Ha Hr Hs).
  rewrite (asn1_to_ecdsa_rs_sep_run asn1 asn1_len' r r_cap s s_cap st Ha Hr Hs).
  cbv zeta.
  set (d1 := decode_asn1_uint asn1 asn1_len r r_cap st).
  set (d1' := decode_asn1_uint asn1 asn1_len' r r_cap st).
  destruct (N.eqb_spec (fst (fst d1)) 0) as [E|Hk]; [cbn; discriminate|].
  destruct (decode_asn1_uint_longer asn1 asn1_len asn1_len' r r_cap st st
              eq_refl Hle Hk) as [Hres1 Hmem1].
  fold d1 d1' in Hres1, Hmem1. rewrite Hres1.
  rewrite (proj2 (N.eqb_neq _ _) Hk).
  set (d2 := decode_asn1_uint _ (asn1_len - _) s s_cap (snd d1)).
  set (d2' := decode_asn1_uint _ (asn1_len' - _) s s_cap (snd d1')).
  cbn [fst snd]. intros Hok. apply negb_true_iff, N.eqb_neq in Hok.
  destruct (decode_asn1_uint_longer (asn1 + Z.of_N (fst (fst d1)))
              (asn1_len - fst (fst d1)) (asn1_len' - fst (fst d1))
              s s_cap (snd d1) (snd d1') Hmem1 ltac:(lia) Hok)
    as [Hres2 Hmem2].
  fold d2 d2' in Hres2, Hmem2. rewrite Hres2. now split.
Qed.

(** The checks of the decoder look at the input only. *)
Lemma tlv_accepted_ext (m m' : mem) (a : ptr) (len cap : N) :
  (forall x, region a len x -> m x = m' x) ->
  tlv_accepted m a len cap = tlv_accepted m' a len cap.
Proof.
  intros Hag. unfold tlv_accepted, stripped_width, stuffed. cbv zeta.
  destruct (N.leb_spec 3 len) as [H3|H3]; [|reflexivity].
  rewrite <- (Hag a), <- (Hag (a + 1)), <- (Hag (a + 2))
    by (unfold region; lia).
  destruct (N.leb_spec 4 len) as [H4|H4].
  - rewrite <- (Hag (a + 3)) by (unfold region; lia). reflexivity.
  - pose proof (u8_bound (m (a + 1))).
    repeat split_bool; try reflexivity; lia.
Qed.

Lemma tlv_views_ext (m m' : mem) (a : ptr) (len cap : N) :
  (forall x, region a len x -> m x = m' x) ->
  tlv_accepted m a len cap = true ->
  tlv_size m' a = tlv_size m a
  /\ stripped_width m' a = stripped_width m a
  /\ tlv_integer m' a = tlv_integer m a.
Proof.
  intros Hag Hok. apply tlv_accepted_inv in Hok.
  destruct Hok as [H3 [Htag [HL [Hend [Hw Hzz]]]]].
  pose proof (integer_start_end m a (proj1 HL)) as Hsrc.
  assert (H1 : m' (a + 1) = m (a + 1)) by (symmetry; apply Hag; unfold region; lia).
  assert (H2 : m' (a + 2) = m (a + 2)) by (symmetry; apply Hag; unfold region; lia).
  assert (Hst : stuffed m' a = stuffed m a) by (unfold stuffed; now rewrite H1, H2).
  assert (Hsw : stripped_width m' a = stripped_width m a)
    by (unfold stripped_width; now rewrite Hst, H1).
  assert (His : integer_start m' a = integer_start m a)
    by (unfold integer_start; now rewrite Hst).
  split; [unfold tlv_size; now rewrite H1|]. split; [exact Hsw|].
  unfold tlv_integer. rewrite Hsw, His.
  apply bytes_at_ext. intros x Hx. symmetry. apply Hag.
  assert (a + 2 <= integer_start m a)
    by (unfold integer_start; destruct (stuffed m a); lia).
  unfold region. lia.
Qed.

(** The outcome of the separate-length decoder in terms of the input, for
    pointers that are not null and an input and two output buffers that do
    not overlap: which of the two TLVs pass the checks, what the cells hold
    and what the buffers hold. *)
Lemma asn1_to_ecdsa_rs_sep_outcome (asn1 : ptr) (asn1_len : N) (r : ptr)
    (r_cap : N) (s : ptr) (s_cap : N) (st : state) :
  asn1 <> NULL -> r <> NULL -> s <> NULL ->
  separate asn1 asn1_len r r_cap ->
  separate asn1 asn1_len s s_cap ->
  separate r r_cap s s_cap ->
  let m := st_mem st in
  let k1 := tlv_size m asn1 in
  let a2 := asn1 + Z.of_N k1 in
  let ok1 := tlv_accepted m asn1 asn1_len r_cap in
  let ok2 := tlv_accepted m a2 (asn1_len - k1) s_cap in
  let res :=
    asn1_to_ecdsa_rs_sep asn1 asn1_len r (Some r_cap) s (Some s_cap) st in
  fst res = (ok1 && ok2,
             Some (if ok1 then stripped_width m asn1 else r_cap),
             Some (if ok1 && ok2 then stripped_width m a2 else s_cap))
  /\ (ok1 = false -> st_mem (snd res) = m)
  /\ (ok1 = true ->
      bytes_at (st_mem (snd res)) r (N.to_nat r_cap)
      = left_pad r_cap (tlv_integer m asn1)
      /\ (ok2 = false ->
          forall x, ~ region r r_cap x -> st_mem (snd res) x = m x)
      /\ (ok2 = true ->
          bytes_at (st_mem (snd res)) s (N.to_nat s_cap)
          = left_pad s_cap (tlv_integer m a2)
          /\ forall x, ~ region r r_cap x -> ~ region s s_cap x ->
                       st_mem (snd res) x = m x)).
Proof.
  intros Ha Hr Hs Hsep1 Hsep2 Hsep3 m k1 a2 ok1 ok2 res. subst res.
  rewrite (asn1_to_ecdsa_rs_sep_run asn1 asn1_len r r_cap s s_cap st Ha Hr Hs).
  cbv zeta.
  pose proof (decode_asn1_uint_result asn1 asn1_len r r_cap st) as Hres1.
  fold m ok1 k1 in Hres1.
  destruct ok1 eqn:Eok1.
  2:{ rewrite Hres1. cbn [fst snd N.eqb andb]. split; [reflexivity|].
      split; [|intros; discriminate]. intros _.
      apply (decode_asn1_uint_fails asn1 asn1_len r r_cap st).
      now rewrite Hres1. }
  (* the first TLV is decoded *)
  pose proof (tlv_accepted_inv _ _ _ _ Eok1)
    as [H3 [Htag [HL [Hend [Hw Hzz]]]]].
  destruct (decode_asn1_uint_accepts asn1 asn1_len r r_cap st Eok1)
    as [s1 [Hrun1 [Hr1 [Hframe1 _]]]].
  { fold m. unfold separate, tlv_size in *. lia. }
  fold m k1 in Hrun1, Hr1, Hframe1. rewrite Hrun1. cbn [fst snd].
  assert (Hk1 : k1 <> 0%N) by (unfold k1, tlv_size; lia).
  rewrite (proj2 (N.eqb_neq _ _) Hk1). fold a2.
  assert (Hag : forall x, region a2 (asn1_len - k1) x -> m x = st_mem s1 x).
  { intros x Hx. symmetry. apply Hframe1.
    unfold region, separate, a2, k1, tlv_size in *. lia. }
  pose proof (decode_asn1_uint_result a2 (asn1_len - k1) s s_cap s1) as Hres2.
  rewrite <- (tlv_accepted_ext m (st_mem s1) a2 _ s_cap Hag) in Hres2.
  fold ok2 in Hres2.
  destruct ok2 eqn:Eok2.
  - (* the second TLV is decoded *)
    destruct (tlv_views_ext m (st_mem s1) a2 _ s_cap Hag Eok2)
      as [Hsz [Hsw Hint]].
    pose proof (tlv_accepted_inv _ _ _ _ Eok2)
      as [H3' [Htag' [HL' [Hend' [Hw' Hzz']]]]].
    destruct (decode_asn1_uint_accepts a2 (asn1_len - k1) s s_cap s1)
      as [s2 [Hrun2 [Hs2 [Hframe2 _]]]].
    { now rewrite <- (tlv_accepted_ext m (st_mem s1) a2 _ s_cap Hag). }
    { rewrite Hsz. unfold separate, tlv_size, a2, k1, tlv_size in *. lia. }
    rewrite Hsz, Hsw, Hint in *. rewrite Hrun2. cbn [fst snd andb].
    assert (Hk2 : tlv_size m a2 <> 0%N) by (unfold tlv_size; lia).
    rewrite (proj2 (N.eqb_neq _ _) Hk2). cbn [negb].
    split; [reflexivity|]. split; [intros; discriminate|]. intros _.
    split.
    + rewrite <- Hr1. apply bytes_at_ext. intros x Hx. apply Hframe2.
      unfold region, separate in *. lia.
    + split; [intros; discriminate|]. intros _. split; [exact Hs2|].
      intros x Hxr Hxs. rewrite Hframe2 by exact Hxs. now apply Hframe1.
  - (* the second TLV is refused *)
    pose proof (decode_asn1_uint_fails a2 (asn1_len - k1) s s_cap s1) as Hf.
    cbv zeta in Hf. rewrite Hres2 in Hf |- *. cbn [fst snd] in Hf |- *.
    destruct (Hf eq_refl) as [_ [_ Hm2]].
    cbn [N.eqb negb andb]. split; [reflexivity|].
    split; [intros; discriminate|]. intros _. rewrite Hm2.
    split; [exact Hr1|]. split; [|intros; discriminate].
    intros _ x Hx. now apply Hframe1.
Qed.

(** [X12] The separate-length decoder succeeds exactly when the first TLV passes
    the checks for the capacity of [r] and the TLV behind it, in what is
    left of the input, passes them for the capacity of [s].  The cells then
    hold the widths of the two integers, each buffer holds its integer
    padded with zeros on the left to its capacity, and the rest of the
    memory is untouched.  (Input and output buffers in the address space
    and not overlapping; the function with 32-bit pointers.) *)
Theorem asn1_to_ecdsa_rs_sep_success :
  forall (asn1 : ptr) (asn1_len : N) (r : ptr) (r_cap : N) (s : ptr)
         (s_cap : N) (st : state),
    in_space asn1 asn1_len -> in_space r r_cap -> in_space s s_cap ->
    separate asn1 asn1_len r r_cap ->
    separate asn1 asn1_len s s_cap ->
    separate r r_cap s s_cap ->
    let m := st_mem st in
    let k1 := tlv_size m asn1 in
    let a2 := asn1 + Z.of_N k1 in
    let res :=
      asn1_to_ecdsa_rs_sep_wrap asn1 asn1_len r (Some r_cap) s (Some s_cap)
        st in
    (fst (fst (fst res)) = true <->
     tlv_accepted m asn1 asn1_len r_cap = true
     /\ tlv_accepted m a2 (asn1_len - k1) s_cap = true)
    /\ (fst (fst (fst res)) = true ->
        fst res = (true, Some (stripped_width m asn1),
                   Some (stripped_width m a2))
        /\ bytes_at (st_mem (snd res)) r (N.to_nat r_cap)
           = left_pad r_cap (tlv_integer m asn1)
        /\ bytes_at (st_mem (snd res)) s (N.to_nat s_cap)
           = left_pad s_cap (tlv_integer m a2)
        /\ (forall x, ~ region r r_cap x -> ~ region s s_cap x ->
                      st_mem (snd res) x = m x)).
Proof.
  intros asn1 asn1_len r r_cap s s_cap st Hsa Hsr Hss.
  rewrite (asn1_to_ecdsa_rs_sep_wrap_eq asn1 asn1_len r r_cap s s_cap st
             Hsa Hsr Hss).
  pose proof (in_space_not_null _ _ Hsa) as Ha.
  pose proof (in_space_not_null _ _ Hsr) as Hr.
  pose proof (in_space_not_null _ _ Hss) as Hs.
  intros Hsep1 Hsep2 Hsep3 m k1 a2 res.
  destruct (asn1_to_ecdsa_rs_sep_outcome asn1 asn1_len r r_cap s s_cap st
              Ha Hr Hs Hsep1 Hsep2 Hsep3) as [Hres [_ Hok]].
  cbv zeta in Hres, Hok. fold m k1 a2 res in Hres, Hok. rewrite Hres.
  cbn [fst snd].
  destruct (tlv_accepted m asn1 asn1_len r_cap);
    [destruct (tlv_accepted m a2 (asn1_len - k1) s_cap)|]; cbn [andb].
  - split; [tauto|]. intros _.
    destruct (Hok eq_refl) as [Hrb [_ Hsb]]. destruct (Hsb eq_refl).
    now repeat split.
  - split; [|intros; discriminate].
    split; [intros; discriminate | intros [_ ?]; discriminate].
  - split; [|intros; discriminate].
    split; [intros; discriminate | intros [? _]; discriminate].
Qed.

(** [X13] The separate-length decoder is not atomic.  When the first TLV passes
    the checks and the second one does not, the call returns false, but the
    cell of [r] already holds the width of the first integer and the buffer
    of [r] holds it, padded; the cell of [s] and the rest of the memory are
    as before.  (Input and output buffers in the address space and not
    overlapping; the function with 32-bit pointers.) *)
Theorem asn1_to_ecdsa_rs_sep_partial_output :
  forall (asn1 : ptr) (asn1_len : N) (r : ptr) (r_cap : N) (s : ptr)
         (s_cap : N) (st : state),
    in_space asn1 asn1_len -> in_space r r_cap -> in_space s s_cap ->
    separate asn1 asn1_len r r_cap ->
    separate asn1 asn1_len s s_cap ->
    separate r r_cap s s_cap ->
    let m := st_mem st in
    let k1 := tlv_size m asn1 in
    let res :=
      asn1_to_ecdsa_rs_sep_wrap asn1 asn1_len r (Some r_cap) s (Some s_cap)
        st in
    tlv_accepted m asn1 asn1_len r_cap = true ->
    tlv_accepted m (asn1 + Z.of_N k1) (asn1_len - k1) s_cap = false ->
    fst res = (false, Some (stripped_width m asn1), Some s_cap)
    /\ bytes_at (st_mem (snd res)) r (N.to_nat r_cap)
       = left_pad r_cap (tlv_integer m asn1)
    /\ (forall x, ~ region r r_cap x -> st_mem (snd res) x = m x).
Proof.
  intros asn1 asn1_len r r_cap s s_cap st Hsa Hsr Hss.
  rewrite (asn1_to_ecdsa_rs_sep_wrap_eq asn1 asn1_len r r_cap s s_cap st
             Hsa Hsr Hss).
  pose proof (in_space_not_null _ _ Hsa) as Ha.
  pose proof (in_space_not_null _ _ Hsr) as Hr.
  pose proof (in_space_not_null _ _ Hss) as Hs.
  intros Hsep1 Hsep2 Hsep3 m k1 res Hok1 Hok2.
  destruct (asn1_to_ecdsa_rs_sep_outcome asn1 asn1_len r r_cap s s_cap st
              Ha Hr Hs Hsep1 Hsep2 Hsep3) as [Hres [_ Hok]].
  cbv zeta in Hres, Hok. fold m k1 res in Hres, Hok.
  rewrite Hok1, Hok2 in Hres. cbn [andb] in Hres.
  destruct (Hok Hok1) as [Hrb [Hframe _]].
  split; [exact Hres|]. split; [exact Hrb | now apply Hframe].
Qed.

(** ** Encoding a signature, then decoding it *)

Lemma app_eq_length (A : Type) : forall (l1 l1' l2 l2' : list A),
  length l1 = length l1' -> l1 ++ l2 = l1' ++ l2' -> l1 = l1' /\ l2 = l2'.
Proof.
  induction l1 as [|a l1 IH]; intros [|a' l1'] l2 l2' Hlen H;
    simpl in *; try discriminate.
  - now split.
  - apply cons_inj in H as [-> H].
    destruct (IH l1' l2 l2' ltac:(lia) H) as [-> ->]. now split.
Qed.

Lemma left_pad_strip_zeros (v : list byte) :
  left_pad (N.of_nat (length v)) (strip_zeros v) = v.
Proof.
  unfold left_pad. rewrite Nat2N.id. symmetry. apply strip_zeros_pad.
Qed.

(** In a memory that holds the TLV of [v] at [a], the decoder finds the
    integer [v] without its leading zeros. *)
Lemma der_tlv_views (m : mem) (a : ptr) (v : list byte) :
  v <> [] -> (length (der_value v) <= 127)%nat ->
  bytes_at m a (length (der_tlv v)) = der_tlv v ->
  (forall len cap,
     (N.of_nat (length (der_tlv v)) <= len)%N ->
     (N.of_nat (length (strip_zeros v)) <= cap)%N ->
     tlv_accepted m a len cap = true)
  /\ tlv_size m a = N.of_nat (length (der_tlv v))
  /\ stripped_width m a = N.of_nat (length (strip_zeros v))
  /\ tlv_integer m a = strip_zeros v.
Proof.
  intros Hne H127 Hb.
  destruct (der_tlv_decodable m a v (N.of_nat (length (strip_zeros v)))
              Hne H127 Hb (N.le_refl _)) as [HL [Hok [Hsw Hint]]].
  split; [|split; [|split]].
  - intros len cap Hlen Hcap. eapply tlv_accepted_mono; eassumption.
  - unfold tlv_size. rewrite HL, der_tlv_length. reflexivity.
  - exact Hsw.
  - unfold tlv_integer. now rewrite Hsw, Nat2N.id.
Qed.

(** After a successful call of the signature encoder the output buffer
    holds two TLVs in which the decoder finds [r] and [s]. *)
Lemma ecdsa_rs_to_asn1_decodable (r s : ptr) (rs_len : N) (asn_sig : ptr)
    (cap : N) (st : state) :
  r <> NULL -> s <> NULL -> asn_sig <> NULL ->
  separate s rs_len asn_sig cap ->
  let m := st_mem st in
  let vr := bytes_at m r (N.to_nat rs_len) in
  let vs := bytes_at m s (N.to_nat rs_len) in
  let nvr := N.of_nat (length (der_value vr)) in
  let nvs := N.of_nat (length (der_value vs)) in
  let n := (4 + nvr + nvs)%N in
  let res := ecdsa_rs_to_asn1 r s rs_len asn_sig (Some cap) st in
  let m2 := st_mem (snd res) in
  let a2 := asn_sig + Z.of_N (2 + nvr) in
  rs_len <> 0%N -> (nvr <= 127)%N -> (nvs <= 127)%N -> (n <= cap)%N ->
  fst res = (true, Some n)
  /\ (forall x, x < asn_sig \/ asn_sig + Z.of_N n <= x -> m2 x = m x)
  /\ tlv_size m2 asn_sig = (2 + nvr)%N
  /\ (forall c, (N.of_nat (length (strip_zeros vr)) <= c)%N ->
                tlv_accepted m2 asn_sig n c = true)
  /\ stripped_width m2 asn_sig = N.of_nat (length (strip_zeros vr))
  /\ tlv_integer m2 asn_sig = strip_zeros vr
  /\ (forall c, (N.of_nat (length (strip_zeros vs)) <= c)%N ->
                tlv_accepted m2 a2 (n - (2 + nvr)) c = true)
  /\ stripped_width m2 a2 = N.of_nat (length (strip_zeros vs))
  /\ tlv_integer m2 a2 = strip_zeros vs.
Proof.
  intros Hr Hs Hsig Hseps m vr vs nvr nvs n res m2 a2 Hlen Hr127 Hs127 Hcap.
  destruct (ecdsa_rs_to_asn1_outcome r s rs_len asn_sig cap st Hr Hs Hsig Hseps)
    as [Hres [_ [_ Hboth]]].
  cbv zeta in Hres, Hboth. fold m vr vs nvr nvs res in Hres, Hboth.
  assert (Erf : (negb (rs_len =? 0) && (2 + nvr <=? cap) && (nvr <=? 127))%N
                = true).
  { rewrite (proj2 (N.eqb_neq _ _) Hlen), (proj2 (N.leb_le _ _) Hr127).
    rewrite (proj2 (N.leb_le (2 + nvr) cap)) by lia. reflexivity. }
  assert (Esf : ((2 + nvs <=? cap - (2 + nvr)) && (nvs <=? 127))%N = true).
  { rewrite (proj2 (N.leb_le _ _) Hs127).
    rewrite (proj2 (N.leb_le (2 + nvs) _)) by lia. reflexivity. }
  rewrite Erf, Esf in Hres. cbn [andb] in Hres.
  destruct (Hboth Erf Esf) as [Hb Hframe]. fold m2 in Hb, Hframe.
  rewrite length_app, bytes_at_app in Hb.
  apply app_eq_length in Hb as [Hbr Hbs]; [|apply bytes_at_length].
  pose proof (der_tlv_length vr) as Hlr. fold nvr in Hlr.
  pose proof (der_tlv_length vs) as Hls. fold nvs in Hls.
  replace (asn_sig + Z.of_nat (length (der_tlv vr))) with a2 in Hbs
    by (unfold a2; lia).
  assert (Hne : forall a, bytes_at m a (N.to_nat rs_len) <> []).
  { intros a E. apply (f_equal (@length byte)) in E.
    rewrite bytes_at_length in E. simpl in E. lia. }
  destruct (der_tlv_views m2 asn_sig vr (Hne r)) as [Hokr [Hszr [Hswr Hintr]]];
    [unfold nvr in Hr127; lia | exact Hbr|].
  destruct (der_tlv_views m2 a2 vs (Hne s)) as [Hoks [_ [Hsws Hints]]];
    [unfold nvs in Hs127; lia | exact Hbs|].
  split; [exact Hres|]. split; [exact Hframe|].
  split; [now rewrite Hszr|].
  split; [intros c Hc; apply Hokr; [unfold n; lia | exact Hc]|].
  split; [exact Hswr|]. split; [exact Hintr|].
  split; [intros c Hc; apply Hoks; [unfold n; lia | exact Hc]|].
  split; [exact Hsws | exact Hints].
Qed.

(** [X14] Signature round trip, separate lengths.  For integers that are not
    empty, value fields of at most 127 bytes and a capacity that holds the
    two TLVs, the signature encoder succeeds, and the signature that it
    has written is accepted by the separate-length decoder on the length
    that the encoder reported, for any two capacities that hold the
    integers without their leading zeros: the
    cells hold these widths and each buffer holds its integer padded to its
    capacity, which for a capacity of [rs_len] are the original bytes of
    [r] and of [s].  (Buffers in the address space and not overlapping;
    the functions with 32-bit pointers.) *)
Theorem signature_roundtrip_sep :
  forall (r s : ptr) (rs_len : N) (asn_sig : ptr) (cap : N)
         (r_out : ptr) (r_cap : N) (s_out : ptr) (s_cap : N) (st : state),
    in_space r rs_len -> in_space s rs_len -> in_space asn_sig cap ->
    in_space r_out r_cap -> in_space s_out s_cap ->
    separate r rs_len asn_sig cap ->
    separate s rs_len asn_sig cap ->
    separate asn_sig cap r_out r_cap ->
    separate asn_sig cap s_out s_cap ->
    separate r_out r_cap s_out s_cap ->
    let vr := bytes_at (st_mem st) r (N.to_nat rs_len) in
    let vs := bytes_at (st_mem st) s (N.to_nat rs_len) in
    let n := (4 + N.of_nat (length (der_value vr))
                + N.of_nat (length (der_value vs)))%N in
    let wr := N.of_nat (length (strip_zeros vr)) in
    let ws := N.of_nat (length (strip_zeros vs)) in
    rs_len <> 0%N ->
    (length (der_value vr) <= 127)%nat ->
    (length (der_value vs) <= 127)%nat ->
    (n <= cap)%N -> (wr <= r_cap)%N -> (ws <= s_cap)%N ->
    let enc := ecdsa_rs_to_asn1_wrap r s rs_len asn_sig (Some cap) st in
    let dec :=
      asn1_to_ecdsa_rs_sep_wrap asn_sig n r_out (Some r_cap) s_out
        (Some s_cap) (snd enc) in
    fst enc = (true, Some n)
    /\ fst dec = (true, Some wr, Some ws)
    /\ bytes_at (st_mem (snd dec)) r_out (N.to_nat r_cap)
       = left_pad r_cap (strip_zeros vr)
    /\ bytes_at (st_mem (snd dec)) s_out (N.to_nat s_cap)
       = left_pad s_cap (strip_zeros vs)
    /\ (r_cap = rs_len -> bytes_at (st_mem (snd dec)) r_out (N.to_nat r_cap) = vr)
    /\ (s_cap = rs_len -> bytes_at (st_mem (snd dec)) s_out (N.to_nat s_cap) = vs).
Proof.
  intros r s rs_len asn_sig cap r_out r_cap s_out s_cap st
    Hsr Hss Hsa Hsro Hsso.
  rewrite (ecdsa_rs_to_asn1_wrap_eq r s rs_len asn_sig cap st Hsr Hss Hsa).
  pose proof (in_space_not_null _ _ Hsr) as Hr.
  pose proof (in_space_not_null _ _ Hss) as Hs.
  pose proof (in_space_not_null _ _ Hsa) as Hsig.
  pose proof (in_space_not_null _ _ Hsro) as Hro.
  pose proof (in_space_not_null _ _ Hsso) as Hso.
  intros Hsepr Hseps Hsep1 Hsep2 Hsep3
    vr vs n wr ws Hlen Hr127 Hs127 Hcap Hwr Hws enc.
  rewrite (asn1_to_ecdsa_rs_sep_wrap_eq asn_sig n r_out r_cap s_out s_cap
             (snd enc) (in_space_head _ _ _ Hsa Hcap) Hsro Hsso).
  intros dec.
  assert (Hr127' : (N.of_nat (length (der_value vr)) <= 127)%N) by lia.
  assert (Hs127' : (N.of_nat (length (der_value vs)) <= 127)%N) by lia.
  destruct (ecdsa_rs_to_asn1_decodable r s rs_len asn_sig cap st Hr Hs Hsig
              Hseps Hlen Hr127' Hs127' Hcap)
    as [Henc [_ [Hsz [Hok1 [Hsw1 [Hint1 [Hok2 [Hsw2 Hint2]]]]]]]].
  cbv zeta in Henc, Hsz, Hok1, Hsw1, Hint1, Hok2, Hsw2, Hint2.
  fold vr vs n enc in Henc, Hsz, Hok1, Hsw1, Hint1, Hok2, Hsw2, Hint2.
  destruct (asn1_to_ecdsa_rs_sep_outcome asn_sig n r_out r_cap s_out s_cap
              (snd enc) Hsig Hro Hso) as [Hres [_ Hbufs]];
    [unfold separate in *; lia .. | exact Hsep3 |].
  cbv zeta in Hres, Hbufs. fold dec in Hres, Hbufs.
  rewrite Hsz in Hres, Hbufs.
  rewrite (Hok1 r_cap Hwr), (Hok2 s_cap Hws) in Hres.
  rewrite Hsw1, Hsw2 in Hres. cbn [andb] in Hres.
  destruct (Hbufs (Hok1 r_cap Hwr)) as [Hrb [_ Hsb]].
  destruct (Hsb (Hok2 s_cap Hws)) as [Hsb' _].
  rewrite Hint1 in Hrb. rewrite Hint2 in Hsb'.
  assert (Hlr : N.of_nat (length vr) = rs_len)
    by (unfold vr; rewrite bytes_at_length; lia).
  assert (Hls : N.of_nat (length vs) = rs_len)
    by (unfold vs; rewrite bytes_at_length; lia).
  split; [exact Henc|]. split; [exact Hres|].
  split; [exact Hrb|]. split; [exact Hsb'|]. split.
  - intros E. rewrite Hrb, E, <- Hlr. apply left_pad_strip_zeros.
  - intros E. rewrite Hsb', E, <- Hls. apply left_pad_strip_zeros.
Qed.

(** [X15] Signature round trip, fixed split.  For two integers of
    [rs_len >= 1] bytes, value fields of at most 127 bytes and a capacity
    that holds the two TLVs, the signature encoder succeeds, and the
    signature that it has written is accepted by the fixed-split decoder
    with a buffer of [2 * rs_len] bytes, which then holds the original
    bytes of [r] followed by those of [s].  (Buffers in
    the address space; [r] and [s] not overlapping the signature, the
    signature not overlapping [rs]; the functions with 32-bit pointers.) *)
Theorem signature_roundtrip_fixed :
  forall (r s : ptr) (rs_len : N) (asn_sig : ptr) (cap : N) (rs : ptr)
         (st : state),
    in_space r rs_len -> in_space s rs_len -> in_space asn_sig cap ->
    in_space rs (2 * rs_len) ->
    separate r rs_len asn_sig cap ->
    separate s rs_len asn_sig cap ->
    separate asn_sig cap rs (2 * rs_len) ->
    let vr := bytes_at (st_mem st) r (N.to_nat rs_len) in
    let vs := bytes_at (st_mem st) s (N.to_nat rs_len) in
    let n := (4 + N.of_nat (length (der_value vr))
                + N.of_nat (length (der_value vs)))%N in
    rs_len <> 0%N ->
    (length (der_value vr) <= 127)%nat ->
    (length (der_value vs) <= 127)%nat ->
    (n <= cap)%N ->
    let enc := ecdsa_rs_to_asn1_wrap r s rs_len asn_sig (Some cap) st in
    let dec := asn1_to_ecdsa_rs_wrap asn_sig n rs (2 * rs_len) (snd enc) in
    fst enc = (true, Some n)
    /\ fst dec = true
    /\ bytes_at (st_mem (snd dec)) rs (N.to_nat (2 * rs_len)) = vr ++ vs.
Proof.
  intros r s rs_len asn_sig cap rs st Hsr Hss Hsa Hsrs.
  rewrite (ecdsa_rs_to_asn1_wrap_eq r s rs_len asn_sig cap st Hsr Hss Hsa).
  pose proof (in_space_not_null _ _ Hsr) as Hr.
  pose proof (in_space_not_null _ _ Hss) as Hs.
  pose proof (in_space_not_null _ _ Hsa) as Hsig.
  pose proof (in_space_not_null _ _ Hsrs) as Hrs.
  assert (Hrs2 : rs + Z.of_N rs_len <> NULL)
    by (unfold in_space, NULL in *; lia).
  intros Hsepr Hseps Hsep vr vs n Hlen Hr127 Hs127 Hcap enc.
  rewrite (asn1_to_ecdsa_rs_wrap_eq asn_sig n rs (2 * rs_len) (snd enc)
             (in_space_head _ _ _ Hsa Hcap) Hsrs).
  intros dec.
  assert (Hr127' : (N.of_nat (length (der_value vr)) <= 127)%N) by lia.
  assert (Hs127' : (N.of_nat (length (der_value vs)) <= 127)%N) by lia.
  destruct (ecdsa_rs_to_asn1_decodable r s rs_len asn_sig cap st Hr Hs Hsig
              Hseps Hlen Hr127' Hs127' Hcap)
    as [Henc [_ [Hsz [Hok1 [Hsw1 [Hint1 [Hok2 [Hsw2 Hint2]]]]]]]].
  cbv zeta in Henc, Hsz, Hok1, Hsw1, Hint1, Hok2, Hsw2, Hint2.
  fold vr vs n enc in Henc, Hsz, Hok1, Hsw1, Hint1, Hok2, Hsw2, Hint2.
  assert (Hlr : N.of_nat (length vr) = rs_len)
    by (unfold vr; rewrite bytes_at_length; lia).
  assert (Hls : N.of_nat (length vs) = rs_len)
    by (unfold vs; rewrite bytes_at_length; lia).
  pose proof (strip_zeros_length_le vr) as Hwr.
  pose proof (strip_zeros_length_le vs) as Hws.
  destruct (asn1_to_ecdsa_rs_sep_outcome asn_sig n rs rs_len
              (rs + Z.of_N rs_len) rs_len (snd enc) Hsig Hrs Hrs2)
    as [Hres [_ Hbufs]]; [unfold separate in *; lia ..|].
  cbv zeta in Hres, Hbufs. rewrite Hsz in Hres, Hbufs.
  rewrite (Hok1 rs_len), (Hok2 rs_len) in Hres by lia.
  cbn [andb] in Hres.
  destruct Hbufs as [Hrb [_ Hsb]]; [apply Hok1; lia|].
  destruct Hsb as [Hsb _]; [apply Hok2; lia|].
  rewrite Hint1 in Hrb. rewrite Hint2 in Hsb.
  assert (Hpr : left_pad rs_len (strip_zeros vr) = vr)
    by (rewrite <- Hlr at 1; apply left_pad_strip_zeros).
  assert (Hps : left_pad rs_len (strip_zeros vs) = vs)
    by (rewrite <- Hls at 1; apply left_pad_strip_zeros).
  rewrite Hpr in Hrb. rewrite Hps in Hsb.
  (* the fixed-split decoder is this call *)
  split; [exact Henc|].
  subst dec. unfold asn1_to_ecdsa_rs.
  rewrite (proj2 (Z.eqb_neq _ _) Hsig), (proj2 (Z.eqb_neq _ _) Hrs).
  assert (H2 : (2 * rs_len)%N <> 0%N) by lia.
  rewrite (proj2 (N.eqb_neq _ _) H2). cbn [orb].
  replace ((2 * rs_len) mod 2)%N with 0%N
    by (rewrite N.mul_comm; symmetry; apply N.Div0.mod_mul).
  replace ((2 * rs_len) / 2)%N with rs_len
    by (rewrite N.mul_comm; symmetry; apply N.div_mul; lia).
  cbn [N.eqb negb]. unfold bind.
  destruct (asn1_to_ecdsa_rs_sep asn_sig n rs (Some rs_len)
              (rs + Z.of_N rs_len) (Some rs_len) (snd enc))
    as [[[ok rl] sl] s1].
  cbn [fst snd] in Hres, Hrb, Hsb. unfold ret. cbn [fst snd].
  apply pair_equal_spec in Hres as [Hres _].
  apply pair_equal_spec in Hres as [Hres _].
  split; [exact Hres|].
  replace (N.to_nat (2 * rs_len)) with (N.to_nat rs_len + N.to_nat rs_len)%nat
    by lia.
  rewrite bytes_at_app, Hrb.
  replace (Z.of_nat (N.to_nat rs_len)) with (Z.of_N rs_len) by lia.
  now rewrite Hsb.
Qed.

(** ** The fixed-split decoder *)

(** [X16] The fixed-split decoder succeeds exactly when [rs_len] is even and not
    0 and both TLVs pass the checks for the capacity [rs_len / 2]; [rs]
    then holds the two integers, each padded with zeros on the left to
    [rs_len / 2] bytes, and the rest of the memory is untouched.  The
    widths of the integers are not reported.  (Input and [rs] in the
    address space and not overlapping; the function with 32-bit
    pointers.) *)
Theorem asn1_to_ecdsa_rs_success :
  forall (asn1 : ptr) (asn1_len : N) (rs : ptr) (rs_len : N) (st : state),
    in_space asn1 asn1_len -> in_space rs rs_len ->
    separate asn1 asn1_len rs rs_len ->
    let m := st_mem st in
    let half := (rs_len / 2)%N in
    let k1 := tlv_size m asn1 in
    let a2 := asn1 + Z.of_N k1 in
    let res := asn1_to_ecdsa_rs_wrap asn1 asn1_len rs rs_len st in
    (fst res = true <->
     rs_len <> 0%N /\ (rs_len mod 2)%N = 0%N
     /\ tlv_accepted m asn1 asn1_len half = true
     /\ tlv_accepted m a2 (asn1_len - k1) half = true)
    /\ (fst res = true ->
        bytes_at (st_mem (snd res)) rs (N.to_nat rs_len)
        = left_pad half (tlv_integer m asn1)
          ++ left_pad half (tlv_integer m a2)
        /\ (forall x, ~ region rs rs_len x -> st_mem (snd res) x = m x)).
Proof.
  intros asn1 asn1_len rs rs_len st Hsa Hsrs.
  rewrite (asn1_to_ecdsa_rs_wrap_eq asn1 asn1_len rs rs_len st Hsa Hsrs).
  pose proof (in_space_not_null _ _ Hsa) as Ha.
  pose proof (in_space_not_null _ _ Hsrs) as Hrs.
  assert (Hrs2 : rs + Z.of_N (rs_len / 2) <> NULL).
  { unfold in_space, NULL in *. set (h := (rs_len / 2)%N). clearbody h. lia. }
  intros Hsep m half k1 a2 res.
  subst res. unfold asn1_to_ecdsa_rs.
  rewrite (proj2 (Z.eqb_neq _ _) Ha), (proj2 (Z.eqb_neq _ _) Hrs). cbn [orb].
  destruct (N.eqb_spec rs_len 0) as [E0|H0].
  { unfold ret. cbn [fst snd]. split; [|intros; discriminate].
    split; [intros; discriminate | intros [? _]; contradiction]. }
  destruct (N.eqb_spec (rs_len mod 2) 0) as [Heven|Hodd]; cbn [negb].
  2:{ unfold ret. cbn [fst snd]. split; [|intros; discriminate].
      split; [intros; discriminate | intros [_ [? _]]; contradiction]. }
  assert (Hhalf : (2 * half = rs_len)%N).
  { pose proof (N.Div0.div_mod rs_len 2). unfold half. lia. }
  cbv zeta. fold half.
  destruct (asn1_to_ecdsa_rs_sep_outcome asn1 asn1_len rs half
              (rs + Z.of_N half) half st Ha Hrs Hrs2)
    as [Hres [_ Hbufs]]; [unfold separate in *; lia ..|].
  cbv zeta in Hres, Hbufs. fold m k1 a2 in Hres, Hbufs.
  unfold bind.
  destruct (asn1_to_ecdsa_rs_sep asn1 asn1_len rs (Some half)
              (rs + Z.of_N half) (Some half) st) as [[[ok rl] sl] s1].
  unfold ret. cbn [fst snd] in *.
  apply pair_equal_spec in Hres as [Hres _].
  apply pair_equal_spec in Hres as [Hres _]. rewrite Hres.
  destruct (tlv_accepted m asn1 asn1_len half);
    [destruct (tlv_accepted m a2 (asn1_len - k1) half)|]; cbn [andb].
  - split; [tauto|]. intros _.
    destruct (Hbufs eq_refl) as [Hrb [_ Hsb]].
    destruct (Hsb eq_refl) as [Hsb' Hframe]. split.
    + replace (N.to_nat rs_len) with (N.to_nat half + N.to_nat half)%nat by lia.
      rewrite bytes_at_app, Hrb.
      replace (Z.of_nat (N.to_nat half)) with (Z.of_N half) by lia.
      now rewrite Hsb'.
    + intros x Hx. apply Hframe; unfold region in *; lia.
  - split; [|intros; discriminate].
    split; [intros; discriminate | intros [_ [_ [_ ?]]]; discriminate].
  - split; [|intros; discriminate].
    split; [intros; discriminate | intros [_ [_ [? _]]]; discriminate].
Qed.

(** ** Failure of the first integer *)

(** [X17] When the first of the two integers fails, the signature functions
    leave everything as it was.  If the integer encoder returns 0 on [r],
    the signature encoder returns false, the cell keeps the capacity and
    the memory is the one before the call; if the integer decoder returns 0
    on the first TLV, the separate-length decoder returns false, both cells
    keep their capacities and the memory is the one before the call. *)
Theorem first_integer_failure_is_clean :
  forall (r s : ptr) (rs_len : N) (asn_sig : ptr) (cap : N)
         (asn1 : ptr) (asn1_len : N) (r_out : ptr) (r_cap : N)
         (s_out : ptr) (s_cap : N) (st : state),
    let enc := ecdsa_rs_to_asn1 r s rs_len asn_sig (Some cap) st in
    let dec :=
      asn1_to_ecdsa_rs_sep asn1 asn1_len r_out (Some r_cap) s_out (Some s_cap)
        st in
    (fst (encode_der_integer r rs_len asn_sig cap st) = 0%N ->
     fst enc = (false, Some cap) /\ st_mem (snd enc) = st_mem st)
    /\ (fst (fst (decode_asn1_uint asn1 asn1_len r_out r_cap st)) = 0%N ->
        fst dec = (false, Some r_cap, Some s_cap)
        /\ st_mem (snd dec) = st_mem st).
Proof.
  intros r s rs_len asn_sig cap asn1 asn1_len r_out r_cap s_out s_cap st
    enc dec. subst enc dec. split.
  - intros H0.
    destruct (Z.eq_dec r NULL) as [Er|Hr].
    { unfold ecdsa_rs_to_asn1. rewrite (proj2 (Z.eqb_eq _ _) Er).
      now split. }
    destruct (Z.eq_dec s NULL) as [Es|Hs].
    { unfold ecdsa_rs_to_asn1. rewrite (proj2 (Z.eqb_eq _ _) Es).
      rewrite orb_true_r. now split. }
    destruct (Z.eq_dec asn_sig NULL) as [Ea|Ha].
    { unfold ecdsa_rs_to_asn1. rewrite (proj2 (Z.eqb_eq _ _) Ea).
      rewrite orb_true_r. now split. }
    rewrite (ecdsa_rs_to_asn1_run r s rs_len asn_sig cap st Hr Hs Ha).
    cbv zeta. rewrite H0. cbn [N.eqb fst snd].
    split; [reflexivity | now apply encode_der_integer_fails].
  - intros H0.
    destruct (Z.eq_dec asn1 NULL) as [Ea|Ha].
    { unfold asn1_to_ecdsa_rs_sep. rewrite (proj2 (Z.eqb_eq _ _) Ea).
      now split. }
    destruct (Z.eq_dec r_out NULL) as [Er|Hr].
    { unfold asn1_to_ecdsa_rs_sep. rewrite (proj2 (Z.eqb_eq _ _) Er).
      rewrite orb_true_r. now split. }
    destruct (Z.eq_dec s_out NULL) as [Es|Hs].
    { unfold asn1_to_ecdsa_rs_sep. rewrite (proj2 (Z.eqb_eq _ _) Es).
      rewrite orb_true_r. now split. }
    rewrite (asn1_to_ecdsa_rs_sep_run asn1 asn1_len r_out r_cap s_out s_cap st
               Ha Hr Hs).
    cbv zeta. rewrite H0. cbn [N.eqb fst snd].
    destruct (decode_asn1_uint_fails asn1 asn1_len r_out r_cap st H0)
      as [_ [Hcell Hmem]].
    rewrite Hcell. now split.
Qed.

(** ** The further properties at concrete inputs *)

(** The integer 1 on 32 bytes is encoded into 40 bytes. *)
Lemma encode_der_integer_succeeds_iff_witness :
  fst (encode_der_integer_wrap 1000 32 2000 40 st_r_s) <> 0%N.
Proof.
  destruct (encode_der_integer_succeeds_iff 1000 32 2000 40 st_r_s)
    as [[_ Hok] _].
  - in_space_ok.
  - in_space_ok.
  - apply Hok.
    split; [lia|]. split; apply N.leb_le; vm_compute; reflexivity.
Defined.

(** The TLV 02 02 00 01 is decoded into one byte. *)
Lemma decode_asn1_uint_succeeds_iff_witness :
  fst (fst (decode_asn1_uint_wrap 2000 4 3000 1
              (state_of [(2000, tlv_redundant)]))) <> 0%N.
Proof.
  destruct (decode_asn1_uint_succeeds_iff 2000 4 3000 1
              (state_of [(2000, tlv_redundant)])) as [[_ Hok] _].
  - in_space_ok.
  - in_space_ok.
  - apply Hok.
    split; [lia|]. split; [vm_compute; reflexivity|].
    split; [split; apply N.leb_le; vm_compute; reflexivity|].
    split; [apply N.leb_le; vm_compute; reflexivity|].
    split; [|apply N.leb_le; vm_compute; reflexivity].
    intros [_ [_ H]]. vm_compute in H. discriminate H.
Defined.

(** The TLV 02 02 00 01 followed by 96 more bytes of input. *)
Lemma decode_asn1_uint_ignores_trailing_witness :
  let s := state_of [(2000, tlv_redundant)] in
  fst (decode_asn1_uint_wrap 2000 100 3000 1 s)
  = fst (decode_asn1_uint_wrap 2000 4 3000 1 s)
  /\ st_mem (snd (decode_asn1_uint_wrap 2000 100 3000 1 s))
     = st_mem (snd (decode_asn1_uint_wrap 2000 4 3000 1 s)).
Proof.
  apply (decode_asn1_uint_ignores_trailing 2000 4 100 3000 1
           (state_of [(2000, tlv_redundant)])).
  - in_space_ok.
  - in_space_ok.
  - lia.
  - vm_compute. lia.
Defined.

(** The TLV 02 02 00 FF is decoded into 4 bytes and comes back as it was. *)
Lemma decode_then_encode_canonical_witness :
  let s := state_of [(2000, tlv_ff)] in
  let dec := decode_asn1_uint_wrap 2000 4 3000 4 s in
  let enc := encode_der_integer_wrap 3000 4 4000 10 (snd dec) in
  fst enc = 4%N /\ bytes_at (st_mem (snd enc)) 4000 4 = tlv_ff.
Proof.
  destruct (decode_then_encode_canonical 2000 4 3000 4 4000 10
              (state_of [(2000, tlv_ff)]))
    as [_ [Hwritten [_ [_ Hcanon]]]].
  - in_space_ok.
  - in_space_ok.
  - in_space_ok.
  - unfold separate. lia.
  - unfold separate. lia.
  - vm_compute. lia.
  - destruct Hwritten as [Hres Hb].
    + apply N.leb_le. vm_compute. reflexivity.
    + apply N.leb_le. vm_compute. reflexivity.
    + split; [exact Hres|].
      rewrite (proj2 Hcanon) in Hb by (vm_compute; reflexivity).
      exact Hb.
Defined.

(** The integer 1 on 32 bytes and on 1 byte. *)
Lemma encode_der_integer_width_independent_witness :
  let enc := encode_der_integer_wrap 1000 32 2000 40 st_r_s in
  let enc' :=
    encode_der_integer_wrap 1000 1 2000 40 (state_of [(1000, [x01])]) in
  fst enc = fst enc'
  /\ bytes_at (st_mem (snd enc)) 2000 (N.to_nat (fst enc))
     = bytes_at (st_mem (snd enc')) 2000 (N.to_nat (fst enc)).
Proof.
  destruct (encode_der_integer_width_independent 1000 32 1000 1 2000 40
              st_r_s (state_of [(1000, [x01])])) as [Hres Hb].
  - in_space_ok.
  - in_space_ok.
  - in_space_ok.
  - unfold separate. lia.
  - unfold separate. lia.
  - lia.
  - lia.
  - vm_compute. reflexivity.
  - split; [exact Hres|]. apply Hb. vm_compute. lia.
Defined.

(** The signature (1, 2^256 - 1) and a capacity of 10 bytes. *)
Lemma ecdsa_rs_to_asn1_stays_in_bounds_witness :
  accesses (fun a => region 1000 32 a \/ region 1100 32 a) (region 2000 10)
    st_r_s (snd (ecdsa_rs_to_asn1_wrap 1000 1100 32 2000 (Some 10%N) st_r_s)).
Proof.
  apply (ecdsa_rs_to_asn1_stays_in_bounds 1000 1100 32 2000 10 st_r_s).
  - in_space_ok.
  - in_space_ok.
  - in_space_ok.
Defined.

(** The signature (1, 2^256 - 1) takes 38 bytes. *)
Lemma ecdsa_rs_to_asn1_succeeds_iff_witness :
  fst (ecdsa_rs_to_asn1_wrap 1000 1100 32 2000 (Some 72%N) st_r_s)
  = (true, Some 38%N).
Proof.
  destruct (ecdsa_rs_to_asn1_succeeds_iff 1000 1100 32 2000 72 st_r_s)
    as [[_ Hok] [Hcell _]].
  - in_space_ok.
  - in_space_ok.
  - in_space_ok.
  - unfold separate. lia.
  - unfold separate. lia.
  - assert (H : fst (fst (ecdsa_rs_to_asn1_wrap 1000 1100 32 2000
                            (Some 72%N) st_r_s))
                = true).
    { apply Hok. split; [lia|].
      repeat split; apply N.leb_le; vm_compute; reflexivity. }
    apply injective_projections; [exact H | exact (Hcell H)].
Defined.

(** 70 bytes are enough for two integers of 32 bytes. *)
Lemma ecdsa_rs_to_asn1_capacity_witness :
  exists n,
    fst (ecdsa_rs_to_asn1_wrap 1000 1100 32 2000 (Some 70%N) st_r_s)
    = (true, Some n)
    /\ (6 <= n <= 2 * 32 + 6)%N.
Proof.
  apply (ecdsa_rs_to_asn1_capacity 1000 1100 32 2000 70 st_r_s).
  - in_space_ok.
  - in_space_ok.
  - in_space_ok.
  - unfold separate. lia.
  - unfold separate. lia.
  - lia.
  - lia.
Defined.

(** With 10 bytes the TLV of 1 is written, the TLV of 2^256 - 1 is not. *)
Lemma ecdsa_rs_to_asn1_partial_write_witness :
  let res := ecdsa_rs_to_asn1_wrap 1000 1100 32 2000 (Some 10%N) st_r_s in
  fst res = (false, Some 10%N)
  /\ bytes_at (st_mem (snd res)) 2000 3 = [x02; x01; x01].
Proof.
  destruct (ecdsa_rs_to_asn1_partial_write 1000 1100 32 2000 10 st_r_s)
    as [Hres [Hb _]].
  - in_space_ok.
  - in_space_ok.
  - in_space_ok.
  - unfold separate. lia.
  - unfold separate. lia.
  - lia.
  - apply N.leb_le. vm_compute. reflexivity.
  - apply N.leb_le. vm_compute. reflexivity.
  - left. apply N.ltb_lt. vm_compute. reflexivity.
  - split; [exact Hres | exact Hb].
Defined.

(** The signature 02 01 01 02 01 01 in an input of 60 bytes. *)
Lemma asn1_to_ecdsa_rs_sep_ignores_trailing_witness :
  let st := state_of [(2000, sig_one_one)] in
  let res :=
    asn1_to_ecdsa_rs_sep_wrap 2000 6 3000 (Some 32%N) 3100 (Some 32%N) st in
  let res' :=
    asn1_to_ecdsa_rs_sep_wrap 2000 60 3000 (Some 32%N) 3100 (Some 32%N) st in
  fst res' = fst res /\ st_mem (snd res') = st_mem (snd res).
Proof.
  apply (asn1_to_ecdsa_rs_sep_ignores_trailing 2000 6 60 3000 32 3100 32
           (state_of [(2000, sig_one_one)])).
  - in_space_ok.
  - in_space_ok.
  - in_space_ok.
  - lia.
  - vm_compute. reflexivity.
Defined.

(** The signature 02 01 01 02 01 01 decoded into 32 and 32 bytes. *)
Lemma asn1_to_ecdsa_rs_sep_success_witness :
  let st := state_of [(2000, sig_one_one)] in
  let res :=
    asn1_to_ecdsa_rs_sep_wrap 2000 6 3000 (Some 32%N) 3100 (Some 32%N) st in
  fst res = (true, Some 1%N, Some 1%N)
  /\ bytes_at (st_mem (snd res)) 3000 32 = int_one
  /\ bytes_at (st_mem (snd res)) 3100 32 = int_one.
Proof.
  destruct (asn1_to_ecdsa_rs_sep_success 2000 6 3000 32 3100 32
              (state_of [(2000, sig_one_one)])) as [[_ Hok] Hpost].
  - in_space_ok.
  - in_space_ok.
  - in_space_ok.
  - unfold separate. lia.
  - unfold separate. lia.
  - unfold separate. lia.
  - destruct Hpost as [Hres [Hr [Hs _]]].
    + apply Hok. split; vm_compute; reflexivity.
    + split; [exact Hres|]. split; [exact Hr | exact Hs].
Defined.

(** In 02 01 01 03 01 01 the first integer is decoded, the second TLV is
    refused. *)
Lemma asn1_to_ecdsa_rs_sep_partial_output_witness :
  let st := state_of [(2000, sig_bad_s)] in
  let res :=
    asn1_to_ecdsa_rs_sep_wrap 2000 6 3000 (Some 32%N) 3100 (Some 32%N) st in
  fst res = (false, Some 1%N, Some 32%N)
  /\ bytes_at (st_mem (snd res)) 3000 32 = int_one.
Proof.
  destruct (asn1_to_ecdsa_rs_sep_partial_output 2000 6 3000 32 3100 32
              (state_of [(2000, sig_bad_s)])) as [Hres [Hr _]].
  - in_space_ok.
  - in_space_ok.
  - in_space_ok.
  - unfold separate. lia.
  - unfold separate. lia.
  - unfold separate. lia.
  - vm_compute. reflexivity.
  - vm_compute. reflexivity.
  - split; [exact Hres | exact Hr].
Defined.

(** The signature (1, 2^256 - 1), encoded and decoded with two buffers. *)
Lemma signature_roundtrip_sep_witness :
  let enc := ecdsa_rs_to_asn1_wrap 1000 1100 32 2000 (Some 72%N) st_r_s in
  let dec :=
    asn1_to_ecdsa_rs_sep_wrap 2000 38 3000 (Some 32%N) 3100 (Some 32%N)
      (snd enc) in
  fst enc = (true, Some 38%N)
  /\ fst dec = (true, Some 1%N, Some 32%N)
  /\ bytes_at (st_mem (snd dec)) 3000 32 = int_one
  /\ bytes_at (st_mem (snd dec)) 3100 32 = int_ff.
Proof.
  destruct (signature_roundtrip_sep 1000 1100 32 2000 72 3000 32 3100 32 st_r_s)
    as [Henc [Hdec [_ [_ [Hr Hs]]]]].
  - in_space_ok.
  - in_space_ok.
  - in_space_ok.
  - in_space_ok.
  - in_space_ok.
  - unfold separate. lia.
  - unfold separate. lia.
  - unfold separate. lia.
  - unfold separate. lia.
  - unfold separate. lia.
  - lia.
  - apply Nat.leb_le. vm_compute. reflexivity.
  - apply Nat.leb_le. vm_compute. reflexivity.
  - apply N.leb_le. vm_compute. reflexivity.
  - apply N.leb_le. vm_compute. reflexivity.
  - apply N.leb_le. vm_compute. reflexivity.
  - split; [exact Henc|]. split; [exact Hdec|].
    split; [exact (Hr eq_refl) | exact (Hs eq_refl)].
Defined.

(** The signature (1, 2^256 - 1), encoded and decoded into 64 bytes. *)
Lemma signature_roundtrip_fixed_witness :
  let enc := ecdsa_rs_to_asn1_wrap 1000 1100 32 2000 (Some 72%N) st_r_s in
  let dec := asn1_to_ecdsa_rs_wrap 2000 38 3000 64 (snd enc) in
  fst enc = (true, Some 38%N)
  /\ fst dec = true
  /\ bytes_at (st_mem (snd dec)) 3000 64 = int_one ++ int_ff.
Proof.
  apply (signature_roundtrip_fixed 1000 1100 32 2000 72 3000 st_r_s).
  - in_space_ok.
  - in_space_ok.
  - in_space_ok.
  - in_space_ok.
  - unfold separate. lia.
  - unfold separate. lia.
  - unfold separate. lia.
  - lia.
  - apply Nat.leb_le. vm_compute. reflexivity.
  - apply Nat.leb_le. vm_compute. reflexivity.
  - apply N.leb_le. vm_compute. reflexivity.
Defined.

(** The signature 02 01 01 02 01 01 decoded into 64 bytes. *)
Lemma asn1_to_ecdsa_rs_success_witness :
  let st := state_of [(2000, sig_one_one)] in
  let res := asn1_to_ecdsa_rs_wrap 2000 6 3000 64 st in
  fst res = true
  /\ bytes_at (st_mem (snd res)) 3000 64 = int_one ++ int_one.
Proof.
  destruct (asn1_to_ecdsa_rs_success 2000 6 3000 64
              (state_of [(2000, sig_one_one)])) as [[_ Hok] Hpost].
  - in_space_ok.
  - in_space_ok.
  - unfold separate. lia.
  - assert (H : fst (asn1_to_ecdsa_rs_wrap 2000 6 3000 64
                       (state_of [(2000, sig_one_one)])) = true).
    { apply Hok. split; [lia|]. repeat split; vm_compute; reflexivity. }
    split; [exact H|]. exact (proj1 (Hpost H)).
Defined.

(** An integer of 200 bytes and a TLV with the tag 0x03: nothing is
    written. *)
Lemma first_integer_failure_is_clean_witness :
  let st := state_of [(1000, repeat xff 200); (2000, sig_bad_s)] in
  let enc := ecdsa_rs_to_asn1 1000 1000 200 3000 (Some 500%N) st in
  let dec :=
    asn1_to_ecdsa_rs_sep 2003 3 3000 (Some 32%N) 3100 (Some 32%N) st in
  (fst enc = (false, Some 500%N) /\ st_mem (snd enc) = st_mem st)
  /\ (fst dec = (false, Some 32%N, Some 32%N) /\ st_mem (snd dec) = st_mem st).
Proof.
  destruct (first_integer_failure_is_clean 1000 1000 200 3000 500
              2003 3 3000 32 3100 32
              (state_of [(1000, repeat xff 200); (2000, sig_bad_s)]))
    as [He Hd].
  split.
  - apply He. vm_compute. reflexivity.
  - apply Hd. vm_compute. reflexivity.
Defined.
